(** * teslamattress: extraction, rendering, translation refresh and verification

    A shallow embedding of the four scripts of the site pipeline
    (extract.js, build.js, translate.js, verify.js) and the properties of
    their placeholder protocol.

    Modelling conventions.
    - A JavaScript string is a [string] (a sequence of code units; the
      pages considered hold code units below 256).
    - A JavaScript object used as a dictionary is a [gmap string _].
    - A regular expression literal of the source is transcribed node by
      node into the type [regex] below and run by a backtracking matcher
      that follows the priorities of the JavaScript matcher (leftmost
      match, alternatives left to right, greedy and lazy repetition).
    - A function that mutates module state (the accumulating dictionary,
      the error and warning counters) takes the state and returns it.
    - An object made by an object literal or by [JSON.parse] inherits the
      properties of [Object.prototype]. Where build.js, translate.js and
      the guide generator read a property under a name taken from a
      template, from the command line or from a file, test it with [in]
      or assign to it, the model follows the prototype (module [Js]):
      a read finds the inherited members, an assignment to [__proto__]
      replaces the prototype, and the listing of the keys and the
      serialisation see the own properties only. What a built-in function
      holds under a name is left to the runtime, as the parameter
      [builtin] of the rendering functions. The page keys of the page
      registry of extract.js are taken to be none of the inherited names.
    - A call that can throw returns an [option], [None] for the
      exception, or records it in the state where the caller goes on.
    - The translation service is a function of its request: the answer
      is an object, [null], or an exception. The content service answers
      with a text, which is then parsed. *)

From Stdlib Require Import Ascii.
From stdpp Require Import gmap strings list.

(** ** Strings *)

Module Str.

Fixpoint take (n : nat) (s : string) : string :=
  match n, s with
  | S n', String a s' => String a (take n' s')
  | _, _ => ""
  end.

Fixpoint drop (n : nat) (s : string) : string :=
  match n, s with
  | S n', String a s' => drop n' s'
  | _, _ => s
  end.

(** [s.startsWith(p)] *)
Fixpoint startsWith (p s : string) : bool :=
  match p, s with
  | "", _ => true
  | String a p', String b s' => Ascii.eqb a b && startsWith p' s'
  | _, _ => false
  end.

(** [s.includes(p)] *)
Fixpoint includes (p s : string) : bool :=
  startsWith p s ||
  match s with
  | "" => false
  | String _ s' => includes p s'
  end.

(** The longest prefix of [s] whose code units all satisfy [p]. *)
Fixpoint run (p : ascii → bool) (s : string) : string :=
  match s with
  | String a s' => if p a then String a (run p s') else ""
  | "" => ""
  end.

Fixpoint all (p : ascii → bool) (s : string) : bool :=
  match s with
  | String a s' => p a && all p s'
  | "" => true
  end.

(** [s.endsWith(p)] *)
Definition endsWith (p s : string) : bool :=
  (String.length p <=? String.length s) &&
  String.eqb (drop (String.length s - String.length p) s) p.

(** [l.join(sep)] *)
Fixpoint join (sep : string) (l : list string) : string :=
  match l with
  | [] => ""
  | [x] => x
  | x :: l' => x +:+ sep +:+ join sep l'
  end.

(** [s.split(sep)] for a one-character separator *)
Fixpoint split_go (sep : ascii) (cur : string) (s : string) : list string :=
  match s with
  | "" => [String.rev cur]
  | String a s' =>
      if Ascii.eqb a sep then String.rev cur :: split_go sep "" s'
      else split_go sep (String a cur) s'
  end.

Definition split (sep : ascii) (s : string) : list string := split_go sep "" s.

Definition code (a : ascii) : nat := nat_of_ascii a.

Definition is_digit (a : ascii) : bool := (48 <=? code a) && (code a <=? 57).
Definition is_lower (a : ascii) : bool := (97 <=? code a) && (code a <=? 122).
Definition is_upper (a : ascii) : bool := (65 <=? code a) && (code a <=? 90).

(** White space and line terminators of the language below code unit 256:
    TAB, LF, VT, FF, CR, SP and NBSP. *)
Definition is_space (a : ascii) : bool :=
  match code a with
  | 9 | 10 | 11 | 12 | 13 | 32 | 160 => true
  | _ => false
  end.

(** Case mapping of one code unit. Below 256 the capital letters are A to Z
    and the accented capitals 192 to 222, the multiplication sign 215
    apart; each is 32 below its small letter. *)
Definition lower (a : ascii) : ascii :=
  if is_upper a || ((192 <=? code a) && (code a <=? 222) && negb (code a =? 215))
  then ascii_of_nat (code a + 32) else a.

(** Upper case, for the letters a to z (the configured language tags). *)
Definition upper (a : ascii) : ascii :=
  if is_lower a then ascii_of_nat (code a - 32) else a.

Fixpoint map (f : ascii → ascii) (s : string) : string :=
  match s with
  | "" => ""
  | String a s' => String (f a) (map f s')
  end.

(** Source text is quoted here with an apostrophe standing for each double
    quote; [q] puts the double quotes back. No pattern or template of the
    modelled scripts holds an apostrophe of its own, except one character
    class of build.js, which is written with character codes. *)
Definition dquote : ascii := "034".
Definition squote : ascii := "039".
Definition q : string → string :=
  map (λ a, if Ascii.eqb a squote then dquote else a).

(** The line feed. *)
Definition nl : string := String "010" "".

Definition toLowerCase : string → string := map lower.
Definition toUpperCase : string → string := map upper.

Fixpoint trimStart (s : string) : string :=
  match s with
  | String a s' => if is_space a then trimStart s' else s
  | "" => ""
  end.

Definition trimEnd (s : string) : string :=
  String.rev (trimStart (String.rev s)).

(** [s.trim()] *)
Definition trim (s : string) : string := trimEnd (trimStart s).

(** Decimal rendering of a counter, as template literals print numbers. *)
Definition digit (n : nat) : ascii := ascii_of_nat (48 + n).

Fixpoint of_nat_go (fuel n : nat) (acc : string) : string :=
  match fuel with
  | 0 => acc
  | S fuel' =>
      let acc' := String (digit (n mod 10)) acc in
      if n <? 10 then acc' else of_nat_go fuel' (n / 10) acc'
  end.

Definition of_nat (n : nat) : string := of_nat_go (S n) n "".

End Str.

(** ** Regular expressions *)

Module Re.

Inductive regex : Type :=
| Eps
| Chr (a : ascii)
| Cls (p : ascii → bool)
| Seq (r1 r2 : regex)
| Alt (r1 r2 : regex)
| Star (greedy : bool) (r : regex)
| Grp (i : nat) (r : regex)
| Bol
| Eol.

(** Captures, most recent first. *)
Definition caps := list (nat * string).

Fixpoint group (i : nat) (c : caps) : string :=
  match c with
  | [] => ""
  | (j, v) :: c' => if Nat.eqb i j then v else group i c'
  end.

(** A continuation receives the position reached, the rest of the subject
    and the captures so far. *)
Definition kont (A : Type) := nat → string → caps → option A.

(** Repetition: at most [n] further iterations, each of which must
    consume input. Greedy repetition tries one more iteration before the
    continuation, lazy repetition the continuation first. *)
Fixpoint star_loop {A} (g : bool) (body : kont A → kont A) (k : kont A)
    (n : nat) (pos : nat) (s : string) (c : caps) : option A :=
  match n with
  | 0 => k pos s c
  | S n' =>
      let again : kont A := λ pos' s' c',
        if String.length s' <? String.length s
        then star_loop g body k n' pos' s' c' else None in
      if g then
        match body again pos s c with
        | Some x => Some x
        | None => k pos s c
        end
      else
        match k pos s c with
        | Some x => Some x
        | None => body again pos s c
        end
  end.

Fixpoint rmatch {A} (r : regex) (k : kont A) (pos : nat) (s : string)
    (c : caps) {struct r} : option A :=
  match r with
  | Eps => k pos s c
  | Chr a =>
      match s with
      | String b s' => if Ascii.eqb a b then k (S pos) s' c else None
      | "" => None
      end
  | Cls p =>
      match s with
      | String b s' => if p b then k (S pos) s' c else None
      | "" => None
      end
  | Seq r1 r2 => rmatch r1 (rmatch r2 k) pos s c
  | Alt r1 r2 =>
      match rmatch r1 k pos s c with
      | Some x => Some x
      | None => rmatch r2 k pos s c
      end
  | Star g r1 => star_loop g (rmatch r1) k (String.length s) pos s c
  | Grp i r1 =>
      rmatch r1 (λ pos' s' c', k pos' s' ((i, Str.take (pos' - pos) s) :: c'))
        pos s c
  | Bol => if pos =? 0 then k pos s c else None
  | Eol => match s with "" => k pos s c | _ => None end
  end.

(** Pattern syntax. *)
Fixpoint lit (s : string) : regex :=
  match s with
  | "" => Eps
  | String a "" => Chr a
  | String a s' => Seq (Chr a) (lit s')
  end.

(** A literal under the [i] flag. *)
Fixpoint lit_i (s : string) : regex :=
  match s with
  | "" => Eps
  | String a s' =>
      Seq (Cls (λ b, Ascii.eqb (Str.lower a) (Str.lower b))) (lit_i s')
  end.

Definition plus (r : regex) : regex := Seq r (Star true r).
Definition plus_lazy (r : regex) : regex := Seq r (Star false r).
Definition star (r : regex) : regex := Star true r.
Definition star_lazy (r : regex) : regex := Star false r.
Definition opt (r : regex) : regex := Alt r Eps.

Fixpoint seqs (l : list regex) : regex :=
  match l with
  | [] => Eps
  | [r] => r
  | r :: l' => Seq r (seqs l')
  end.

Fixpoint times (n : nat) (r : regex) : regex :=
  match n with
  | 0 => Eps
  | S n' => Seq r (times n' r)
  end.

Definition one_of (s : string) : ascii → bool :=
  λ a, existsb (Ascii.eqb a) (String.list_ascii_of_string s).
Definition none_of (s : string) : ascii → bool := λ a, negb (one_of s a).

(** [\d], [\s], [[\s\S]] and [.] *)
Definition digit : regex := Cls Str.is_digit.
Definition space : regex := Cls Str.is_space.
Definition any : regex := Cls (λ _, true).
Definition dot : regex := Cls (none_of (String "010" (String "013" ""))).

(** The result of [re.exec(s)]: the index of the match, the matched text,
    the captures and the text after the match. *)
Record found := Found {
  f_index : nat;
  f_match : string;
  f_caps : caps;
  f_rest : string
}.

Definition match_here (r : regex) (pos : nat) (s : string) : option found :=
  rmatch r (λ pos' s' c', Some (Found pos (Str.take (pos' - pos) s) c' s'))
    pos s [].

(** Leftmost match at or after the current position. *)
Fixpoint search_from (r : regex) (pos : nat) (s : string) : option found :=
  match match_here r pos s with
  | Some f => Some f
  | None =>
      match s with
      | "" => None
      | String _ s' => search_from r (S pos) s'
      end
  end.

Definition exec (r : regex) (s : string) : option found := search_from r 0 s.

(** [re.test(s)] *)
Definition test (r : regex) (s : string) : bool :=
  match exec r s with Some _ => true | None => false end.

(** [s.replace(re, fn)] without the [g] flag, for a replacer [fn] that
    reads and updates a state. *)
Definition replace1 {T} (r : regex) (fn : found → T → string * T)
    (s : string) (st : T) : string * T :=
  match exec r s with
  | Some f =>
      let '(rep, st') := fn f st in
      (Str.take (f_index f) s +:+ rep +:+ f_rest f, st')
  | None => (s, st)
  end.

(** [s.replace(re, fn)] with the [g] flag. After a match the scan resumes
    behind it; after an empty match it copies one code unit first. *)
Fixpoint replace_go {T} (fuel : nat) (r : regex) (fn : found → T → string * T)
    (pos : nat) (s : string) (st : T) : string * T :=
  match fuel with
  | 0 => (s, st)
  | S fuel' =>
      match match_here r pos s with
      | Some f =>
          let '(rep, st1) := fn f st in
          match f_match f, s with
          | "", "" => (rep, st1)
          | "", String a s' =>
              let '(out, st2) := replace_go fuel' r fn (S pos) s' st1 in
              (rep +:+ String a out, st2)
          | _, _ =>
              let '(out, st2) :=
                replace_go fuel' r fn (pos + String.length (f_match f))
                  (f_rest f) st1 in
              (rep +:+ out, st2)
          end
      | None =>
          match s with
          | "" => ("", st)
          | String a s' =>
              let '(out, st1) := replace_go fuel' r fn (S pos) s' st in
              (String a out, st1)
          end
      end
  end.

Definition replace_all {T} (r : regex) (fn : found → T → string * T)
    (s : string) (st : T) : string * T :=
  replace_go (S (String.length s)) r fn 0 s st.

(** Stateless forms. *)
Definition replace1_with (r : regex) (fn : found → string) (s : string) : string :=
  fst (replace1 r (λ f (_ : unit), (fn f, tt)) s tt).

Definition replace_all_with (r : regex) (fn : found → string) (s : string) : string :=
  fst (replace_all r (λ f (_ : unit), (fn f, tt)) s tt).

(** [s.match(re)] with the [g] flag: all matches, left to right. *)
Fixpoint matches_go (fuel : nat) (r : regex) (pos : nat) (s : string) : list string :=
  match fuel with
  | 0 => []
  | S fuel' =>
      match match_here r pos s with
      | Some f =>
          match f_match f, s with
          | "", "" => [""]
          | "", String _ s' => "" :: matches_go fuel' r (S pos) s'
          | m, _ => m :: matches_go fuel' r (pos + String.length m) (f_rest f)
          end
      | None =>
          match s with
          | "" => []
          | String _ s' => matches_go fuel' r (S pos) s'
          end
      end
  end.

Definition match_all (r : regex) (s : string) : list string :=
  matches_go (S (String.length s)) r 0 s.

(** The number of capture groups of a pattern. *)
Fixpoint ngroups (r : regex) : nat :=
  match r with
  | Seq r1 r2 | Alt r1 r2 => Nat.max (ngroups r1) (ngroups r2)
  | Star _ r1 => ngroups r1
  | Grp i r1 => Nat.max i (ngroups r1)
  | _ => 0
  end.

Definition digit_val (a : ascii) : nat := Str.code a - 48.

(** The replacement text of [s.replace(pat, template)]: in [template] a
    dollar sign followed by a dollar sign, an ampersand, a backtick, an
    apostrophe or a group number stands for a dollar sign, the match, the
    text before it, the text after it or the group; any other dollar sign
    stands for itself. [m] is the number of groups of the pattern. *)
Fixpoint expand (m : nat) (before : string) (f : found) (template : string)
    : string :=
  match template with
  | "" => ""
  | String "$" t =>
      match t with
      | String "$" t' => String "$" (expand m before f t')
      | String "&" t' => f_match f +:+ expand m before f t'
      | String "`" t' => before +:+ expand m before f t'
      | String "'" t' => f_rest f +:+ expand m before f t'
      | String d1 t' =>
          if Str.is_digit d1 then
            let one := digit_val d1 in
            let single :=
              if (1 <=? one) && (one <=? m)
              then group one (f_caps f) +:+ expand m before f t'
              else String "$" (expand m before f t) in
            match t' with
            | String d2 t'' =>
                let nn := 10 * one + digit_val d2 in
                if Str.is_digit d2 && (1 <=? nn) && (nn <=? m)
                then group nn (f_caps f) +:+ expand m before f t''
                else single
            | "" => single
            end
          else String "$" (expand m before f t)
      | "" => "$"
      end
  | String a t => String a (expand m before f t)
  end.

(** [s.replace(re, template)] without the [g] flag. *)
Definition replace1_tpl (r : regex) (template : string) (s : string) : string :=
  match exec r s with
  | Some f =>
      let before := Str.take (f_index f) s in
      before +:+ expand (ngroups r) before f template +:+ f_rest f
  | None => s
  end.

(** [s.replace(pat, template)] for a string [pat]: the first occurrence. *)
Fixpoint replace_str_go (pat template : string) (before_rev : string) (s : string)
    : option string :=
  if Str.startsWith pat s then
    let before := String.rev before_rev in
    let f := Found (String.length before) pat [] (Str.drop (String.length pat) s) in
    Some (before +:+ expand 0 before f template +:+ f_rest f)
  else
    match s with
    | "" => None
    | String a s' => replace_str_go pat template (String a before_rev) s'
    end.

Definition replace_str (pat template s : string) : string :=
  match replace_str_go pat template "" s with
  | Some out => out
  | None => s
  end.

(** [s.replace(re, template)] with the [g] flag. *)
Definition replace_all_tpl (r : regex) (template : string) (s : string) : string :=
  replace_all_with r
    (λ f, expand (ngroups r) (Str.take (f_index f) s) f template) s.

(** [re.exec(s)] for a pattern with the [g] flag and [lastIndex = from]:
    the leftmost match at or after [from]. *)
Definition exec_from (r : regex) (from : nat) (s : string) : option found :=
  if from <=? String.length s then search_from r from (Str.drop from s)
  else None.

(** [while ((m = re.exec(line)) !== null) body] for a pattern with the [g]
    flag whose matches are not empty: [body] may rewrite the line, and the
    next search starts where the last match ended. The loop is run for at
    most [fuel] rounds; [None] says that it was still running then. *)
Fixpoint while_exec {T} (fuel : nat) (r : regex)
    (body : found → string → T → string * T)
    (lastIndex : nat) (line : string) (st : T) : option (string * T) :=
  match fuel with
  | 0 => None
  | S fuel' =>
      match exec_from r lastIndex line with
      | None => Some (line, st)
      | Some f =>
          let '(line', st') := body f line st in
          while_exec fuel' r body (f_index f + String.length (f_match f)) line' st'
      end
  end.

End Re.

(** ** What every object inherits *)

Module Js.

(** The names that an object made by an object literal or by [JSON.parse]
    answers to without having them itself: the properties of
    [Object.prototype]. A property access [o[k]] and the operator [in]
    find them; [Object.keys] and [JSON.stringify] do not. *)
Definition Object_prototype : list string :=
  ["constructor"; "__defineGetter__"; "__defineSetter__"; "hasOwnProperty";
   "__lookupGetter__"; "__lookupSetter__"; "isPrototypeOf";
   "propertyIsEnumerable"; "toString"; "valueOf"; "__proto__"; "toLocaleString"].

Definition inherited (k : string) : bool := existsb (String.eqb k) Object_prototype.

(** The text that [String(o[k])] gives for an inherited name: the
    prototype itself under [__proto__], else a built-in function, which
    is [Object] under [constructor] and bears the name [k] otherwise. *)
Definition inherited_text (k : string) : string :=
  if String.eqb k "__proto__" then "[object Object]"
  else "function " +:+ (if String.eqb k "constructor" then "Object" else k) +:+
       "() { [native code] }".

(** What reading a property gives: nothing, a value, here as the text
    that a string conversion makes of it, or a TypeError. *)
Inductive member := Undefined | Member (text : string) | Throws.

End Js.

(** ** build.js: rendering *)

Module Build.
Import Re.

Definition BASE_URL : string := "https://teslamattress.com".

(** The keys of [LOCALE_CONFIG], in the order of the object literal. *)
Inductive locale := en | de | fr | no | da | sv.

Definition code (l : locale) : string :=
  match l with
  | en => "en" | de => "de" | fr => "fr" | no => "no" | da => "da" | sv => "sv"
  end.

Definition locale_eqb (a b : locale) : bool := String.eqb (code a) (code b).

Record locale_cfg := {
  locale_path : string;
  og_locale : string;
  html_lang : string;
  hreflang : string;
  flag : string;
  name : string
}.

Definition LOCALE_CONFIG (l : locale) : locale_cfg :=
  match l with
  | en => {| locale_path := ""; og_locale := "en_US"; html_lang := "en";
             hreflang := "en"; flag := "🇬🇧"; name := "English" |}
  | de => {| locale_path := "de/"; og_locale := "de_DE"; html_lang := "de";
             hreflang := "de"; flag := "🇩🇪"; name := "Deutsch" |}
  | fr => {| locale_path := "fr/"; og_locale := "fr_FR"; html_lang := "fr";
             hreflang := "fr"; flag := "🇫🇷"; name := "Français" |}
  | no => {| locale_path := "no/"; og_locale := "nb_NO"; html_lang := "nb";
             hreflang := "nb"; flag := "🇳🇴"; name := "Norsk" |}
  | da => {| locale_path := "da/"; og_locale := "da_DK"; html_lang := "da";
             hreflang := "da"; flag := "🇩🇰"; name := "Dansk" |}
  | sv => {| locale_path := "sv/"; og_locale := "sv_SE"; html_lang := "sv";
             hreflang := "sv"; flag := "🇸🇪"; name := "Svenska" |}
  end.

Definition ALL_LOCALES : list locale := [en; de; fr; no; da; sv].

(** A locale code given on the command line names a configured locale or
    none. *)
Definition locale_of_code (c : string) : option locale :=
  find (λ l, String.eqb (code l) c) ALL_LOCALES.

(** An alternate link: the value of its [hreflang] attribute and its
    target. *)
Record link := Link { l_hreflang : string; l_href : string }.

Definition link_tag (l : link) : string :=
  Str.q "<link rel='alternate' hreflang='" +:+ l_hreflang l +:+
  Str.q "' href='" +:+ l_href l +:+ Str.q "'>".

(** The array [tags] of [generateHreflangTags] before it is joined. *)
Definition hreflang_links (pagePath : string) : list link :=
  map (λ loc,
         let cfg := LOCALE_CONFIG loc in
         let url := BASE_URL +:+ "/" +:+ locale_path cfg +:+ pagePath in
         Link (hreflang cfg) url) ALL_LOCALES
  ++ [Link "x-default" (BASE_URL +:+ "/" +:+ pagePath)].

(** The alternate link of a locale for a page path, and the default one. *)
Definition alternate (pagePath : string) (loc : locale) : link :=
  Link (hreflang (LOCALE_CONFIG loc))
       (BASE_URL +:+ "/" +:+ locale_path (LOCALE_CONFIG loc) +:+ pagePath).

Definition xdefault (pagePath : string) : link :=
  Link "x-default" (BASE_URL +:+ "/" +:+ pagePath).

Definition generateHreflangTags (pagePath : string) : string :=
  Str.join (Str.nl +:+ "    ") (map link_tag (hreflang_links pagePath)).

(** The locales listed by [generateOgLocaleAlternates]. *)
Definition og_alternate_locales (currentLocale : locale) : list locale :=
  filter (λ loc, negb (locale_eqb loc currentLocale)) ALL_LOCALES.

Definition generateOgLocaleAlternates (currentLocale : locale) : string :=
  Str.join (Str.nl +:+ "    ")
    (map (λ loc, Str.q "<meta property='og:locale:alternate' content='" +:+
                 og_locale (LOCALE_CONFIG loc) +:+ Str.q "'>")
       (og_alternate_locales currentLocale)).

(** One entry of the language switcher. *)
Record switch_item := Item { i_href : string; i_active : bool; i_label : string }.

Definition item_tag (i : switch_item) : string :=
  Str.q "<li><a href='" +:+ i_href i +:+ Str.q "'" +:+
  (if i_active i then Str.q " class='lang-active'" else "") +:+
  ">" +:+ i_label i +:+ "</a></li>".

Definition switcher_items (pagePath : string) (currentLocale : locale)
    : list switch_item :=
  map (λ loc,
         let lCfg := LOCALE_CONFIG loc in
         Item ("/" +:+ locale_path lCfg +:+ pagePath)
              (locale_eqb loc currentLocale)
              (flag lCfg +:+ " " +:+ name lCfg)) ALL_LOCALES.

Definition generateLangSwitcher (pagePath : string) (currentLocale : locale)
    : string :=
  let cfg := LOCALE_CONFIG currentLocale in
  let links :=
    Str.join (Str.nl +:+ "            ")
      (map item_tag (switcher_items pagePath currentLocale)) in
  Str.q "<div class='lang-switcher'>" +:+ Str.nl +:+
  Str.q "        <button class='lang-current' aria-label='Language'>" +:+
  flag cfg +:+ " " +:+ Str.toUpperCase (html_lang cfg) +:+ " ▾</button>" +:+ Str.nl +:+
  Str.q "        <ul class='lang-dropdown'>" +:+ Str.nl +:+
  "            " +:+ links +:+ Str.nl +:+
  "        </ul>" +:+ Str.nl +:+
  "    </div>".

(** A locale file: section, then key, then text. *)
Abbreviation dict := (gmap string (gmap string string)).

(** The two character classes of the placeholder pattern: letters, digits
    and underscore for the section; for the key also ampersand, plus,
    apostrophe, double quote, parentheses, full stop, space and hyphen. *)
Definition section_chr (a : ascii) : bool :=
  Str.is_lower a || Str.is_upper a || Str.is_digit a || Ascii.eqb a "_".

Definition key_chr (a : ascii) : bool :=
  section_chr a ||
  existsb (Ascii.eqb a) ["&"; "+"; Str.squote; Str.dquote; "("; ")"; "."; " "; "-"]%char.

Definition placeholder_re : regex :=
  seqs [lit "{{t."; Grp 1 (plus (Cls section_chr)); Chr ".";
        Grp 2 (plus (Cls key_chr)); lit "}}"].

(** What [placeholder_re] matches at the head of [s], read off the
    pattern: the section, the key and the text behind the placeholder. *)
Definition placeholder_at (s : string) : option (string * string * string) :=
  if Str.startsWith "{{t." s then
    let s1 := Str.drop 4 s in
    let section := Str.run section_chr s1 in
    match section, Str.drop (String.length section) s1 with
    | String _ _, String "." s2 =>
        let key := Str.run key_chr s2 in
        let s3 := Str.drop (String.length key) s2 in
        match key with
        | String _ _ =>
            if Str.startsWith "}}" s3 then Some (section, key, Str.drop 2 s3)
            else None
        | "" => None
        end
    | _, _ => None
    end
  else None.

(** The text of the placeholder for a section and a key. *)
Definition placeholder (section key : string) : string :=
  "{{t." +:+ section +:+ "." +:+ key +:+ "}}".

(** An entry of [pages.json]. *)
Record page := Page { template : string; output : string; pageKey : string }.

Definition pagePath (p : page) : string :=
  replace1_tpl (Seq (lit ".html") Eol) ""
    (replace1_tpl (Seq (lit "index.html") Eol) "" (output p)).

Section Runtime.

(** [builtin name key]: what reading the property [key] gives on the
    value that [Object.prototype] holds under [name], which is a built-in
    function, or the prototype itself under [__proto__]. The answer is
    the runtime's (the [length] and [name] of a function and the static
    methods of [Object] are values, other names are undefined, and
    reading [caller] or [arguments] of a built-in function throws), so
    it is left open. *)
Variable builtin : string → string → Js.member.

(** [localeData[section] && localeData[section][key]]: the entry of the
    dictionary; where the section has no such key, what the section
    inherits under the name of the key; where the dictionary has no such
    section, the property [key] of what the dictionary inherits under the
    name of the section. *)
Definition lookup (localeData : dict) (section key : string) : Js.member :=
  match localeData !! section with
  | Some sec =>
      match sec !! key with
      | Some v => Js.Member v
      | None =>
          if Js.inherited key then Js.Member (Js.inherited_text key) else Js.Undefined
      end
  | None => if Js.inherited section then builtin section key else Js.Undefined
  end.

(** The replacer of [replaceTranslations]; the state is the list of
    diagnostics printed by [console.warn], oldest first, or [None] once
    a lookup has thrown: from then on the result of the scan is void. *)
Definition resolve (localeData : dict) (f : found) (st : option (list string))
    : string * option (list string) :=
  let section := group 1 (f_caps f) in
  let key := group 2 (f_caps f) in
  match lookup localeData section key with
  | Js.Member v => (v, st)
  | Js.Undefined =>
      (f_match f, (λ log, log ++ ["    Missing: " +:+ section +:+ "." +:+ key]) <$> st)
  | Js.Throws => (f_match f, None)
  end.

(** The text and the diagnostics that [resolve] gives for the placeholder
    of a section and a key. *)
Definition resolved (localeData : dict) (section key : string)
    : option (string * list string) :=
  let '(rep, st) :=
    resolve localeData
      (Found 0 (placeholder section key) [(2, key); (1, section)] "") (Some []) in
  (rep,.) <$> st.

(** [replaceTranslations]: the text and the diagnostics, or [None] when
    a lookup throws. *)
Definition replaceTranslations (html : string) (localeData : dict)
    : option (string * list string) :=
  let '(out, st) := replace_all placeholder_re (resolve localeData) html (Some []) in
  (out,.) <$> st.

(** [buildPage] for a page whose template exists: the text written to the
    output file, and the diagnostics; [None] when a lookup throws, and
    nothing is written. *)
Definition buildPage (tpl : string) (p : page) (l : locale) (localeData : dict)
    : option (string * list string) :=
  let cfg := LOCALE_CONFIG l in
  let pagePath := pagePath p in
  let html := replace_all_tpl (lit "{{htmlLang}}") (html_lang cfg) tpl in
  let html := replace_all_tpl (lit "{{ogLocale}}") (og_locale cfg) html in
  let html := replace_all_tpl (lit "{{localePath}}") (locale_path cfg) html in
  let html :=
    replace_all_tpl (lit "{{canonicalUrl}}")
      (BASE_URL +:+ "/" +:+ locale_path cfg +:+ pagePath) html in
  let html :=
    replace_all_tpl (lit "{{pageUrl}}")
      (BASE_URL +:+ "/" +:+ locale_path cfg +:+ pagePath) html in
  let html :=
    replace_all_tpl (lit "{{hreflangTags}}") (generateHreflangTags pagePath) html in
  let html :=
    replace_all_tpl (lit "{{ogLocaleAlternates}}") (generateOgLocaleAlternates l) html in
  let html :=
    replace_all_tpl (lit "{{langSwitcher}}") (generateLangSwitcher pagePath l) html in
  replaceTranslations html localeData.

End Runtime.

(** A runtime in which no property of a built-in value is defined. *)
Definition bare : string → string → Js.member := λ _ _, Js.Undefined.

(** The diagnostics of a scan that starts with a log behind it: [None]
    is a scan that has thrown. *)
Definition behind (st l : option (list string)) : option (list string) :=
  log ← st; (log ++.) <$> l.

(** One [<url>] element of the sitemap. *)
Record url_entry := Url {
  u_loc : string;
  u_lastmod : string;
  u_changefreq : string;
  u_priority : string;
  u_alternates : list link;
  u_xdefault : link
}.

Definition xhtml_link (l : link) : string :=
  Str.q "      <xhtml:link rel='alternate' hreflang='" +:+ l_hreflang l +:+
  Str.q "' href='" +:+ l_href l +:+ Str.q "'/>".

Definition url_tag (u : url_entry) : string :=
  "  <url>" +:+ Str.nl +:+
  "    <loc>" +:+ u_loc u +:+ "</loc>" +:+ Str.nl +:+
  "    <lastmod>" +:+ u_lastmod u +:+ "</lastmod>" +:+ Str.nl +:+
  "    <changefreq>" +:+ u_changefreq u +:+ "</changefreq>" +:+ Str.nl +:+
  "    <priority>" +:+ u_priority u +:+ "</priority>" +:+ Str.nl +:+
  Str.join Str.nl (map xhtml_link (u_alternates u)) +:+ Str.nl +:+
  xhtml_link (u_xdefault u) +:+ Str.nl +:+
  "  </url>" +:+ Str.nl.

(** The entry of one page for one of the locales that were loaded. *)
Definition sitemap_entry (today : string) (p : page) (loc : locale) : url_entry :=
  let pagePath := pagePath p in
  let cfg := LOCALE_CONFIG loc in
  let url := BASE_URL +:+ "/" +:+ locale_path cfg +:+ pagePath in
  let priority :=
    if String.eqb (pageKey p) "disclosure" then "0.3"
    else if String.eqb (pageKey p) "home" then "1.0"
    else if Str.endsWith "index.html" (output p) then "0.8"
    else "0.6" in
  let changefreq :=
    if String.eqb (pageKey p) "home" || Str.endsWith "index.html" (output p)
    then "weekly" else "monthly" in
  let hreflangs :=
    map (λ l,
           let lCfg := LOCALE_CONFIG l in
           Link (hreflang lCfg) (BASE_URL +:+ "/" +:+ locale_path lCfg +:+ pagePath))
      ALL_LOCALES in
  Url url today changefreq priority hreflangs
    (Link "x-default" (BASE_URL +:+ "/" +:+ pagePath)).

(** The entries of [generateSitemap(locales)], in the order written;
    [loaded] are the keys of [locales]. *)
Definition sitemap_entries (today : string) (PAGES : list page)
    (loaded : list locale) : list url_entry :=
  p ← PAGES; sitemap_entry today p <$> loaded.

Definition generateSitemap (today : string) (PAGES : list page)
    (loaded : list locale) : string :=
  Str.q "<?xml version='1.0' encoding='UTF-8'?>" +:+ Str.nl +:+
  Str.q "<urlset xmlns='http://www.sitemaps.org/schemas/sitemap/0.9'" +:+ Str.nl +:+
  Str.q "        xmlns:xhtml='http://www.w3.org/1999/xhtml'>" +:+ Str.nl +:+
  foldr String.append "" (url_tag <$> sitemap_entries today PAGES loaded) +:+
  "</urlset>".

(** The keys of an object filled in the order of [l]: a code named twice
    keeps its first place. *)
Fixpoint keys (seen l : list locale) : list locale :=
  match l with
  | [] => []
  | x :: l' =>
      if existsb (locale_eqb x) seen then keys seen l'
      else x :: keys (x :: seen) l'
  end.

(** [loadLocales]: the locales to build are the selected ones, or all the
    configured ones, whose locale file exists. *)
Definition loadLocales (selectedLocales : option (list locale))
    (localeFile : locale → option dict) : list (locale * dict) :=
  let toLoad := default ALL_LOCALES selectedLocales in
  omap (λ loc, (loc,.) <$> localeFile loc) (keys [] toLoad).

(** The text [s] without the suffix [q], when it ends with it. *)
Definition strip_suffix (q s : string) : string :=
  if Str.endsWith q s then Str.take (String.length s - String.length q) s else s.

End Build.

(** ** extract.js: extraction *)

Module Extract.
Import Re.

(** The module variable [locale] without its [_meta] entry, which no
    extraction step reads or writes: a dictionary from section to key to
    text. It starts with an empty [shared] section. *)
Abbreviation dict := (gmap string (gmap string string)).

Definition locale0 : dict := {[ "shared" := ∅ ]}.

Definition section_of (d : dict) (section : string) : gmap string string :=
  default ∅ (d !! section).

Definition addString (section key value : string) (d : dict) : dict :=
  <[section := <[key := value]> (section_of d section)]> d.

(** [if (!locale.shared[key]) locale.shared[key] = value]: the test holds
    for a missing key and for the empty text. *)
Definition addShared (key value : string) (d : dict) : dict :=
  match section_of d "shared" !! key with
  | Some (String _ _) => d
  | _ => <["shared" := <[key := value]> (section_of d "shared")]> d
  end.

(** The shared section holds [v] under [key]. *)
Definition kept (key v : string) (d : dict) : Prop :=
  section_of d "shared" !! key = Some v.

(** The translation placeholder for a section and a key. *)
Definition ph (section key : string) : string :=
  "{{t." +:+ section +:+ "." +:+ key +:+ "}}".

Definition tag_re : regex := seqs [Chr "<"; plus (Cls (none_of ">")); Chr ">"].

(** The class of the second test of [shouldSkip], on the code units of
    the model: 163, 215 and 176 are the pound, multiplication and degree
    signs; the euro and almost-equal signs of the source class lie above
    code unit 255, and so stand in no text considered here. *)
Definition symbol_chr (a : ascii) : bool :=
  Str.is_digit a || one_of ".,/%$+~" a ||
  (Str.code a =? 163) || (Str.code a =? 215) || (Str.code a =? 176).

Definition shouldSkip (text : string) : bool :=
  let clean := Str.trim (replace_all_with tag_re (λ _, "") text) in
  if (String.length clean <? 2) then true
  else if test (seqs [Bol; plus (Cls symbol_chr); Eol]) clean then true
  else if test (seqs [Bol; opt (Chr "#"); plus digit; Eol]) clean then true
  else if Str.startsWith "{{" clean then true
  else false.

(** *** Phase 1: meta tags *)

Definition title_re : regex :=
  seqs [lit "<title>"; Grp 1 (star_lazy any); lit "</title>"].

Definition not_dquote : regex := Cls (λ a, negb (Ascii.eqb a Str.dquote)).

Definition meta_re (attr name : string) : regex :=
  seqs [lit (Str.q ("<meta " +:+ attr +:+ "='" +:+ name +:+ "' content='"));
        Grp 1 (star not_dquote); Chr Str.dquote].

Definition metaTags : list (regex * string) :=
  [ (meta_re "name" "title", "meta_name_title");
    (meta_re "name" "description", "meta_description");
    (meta_re "name" "keywords", "meta_keywords");
    (meta_re "property" "og:title", "og_title");
    (meta_re "property" "og:description", "og_description");
    (meta_re "name" "twitter:title", "twitter_title");
    (meta_re "name" "twitter:description", "twitter_description") ].

Definition extractMeta (html pk : string) (d : dict) : string * dict :=
  let '(html, d) :=
    replace1 title_re
      (λ f d,
         let t := group 1 (f_caps f) in
         ("<title>" +:+ ph pk "meta_title" +:+ "</title>",
          addString pk "meta_title" (Str.trim t) d))
      html d in
  foldl
    (λ '(html, d) '(pattern, key),
       replace1 pattern
         (λ f d,
            let val := group 1 (f_caps f) in
            match Str.trim val with
            | "" => (f_match f, d)
            | _ =>
                (replace_str (Str.q "content='" +:+ val +:+ Str.q "'")
                   (Str.q "content='" +:+ ph pk key +:+ Str.q "'") (f_match f),
                 addString pk key val d)
            end)
         html d)
    (html, d) metaTags.

(** *** Phase 2: structural placeholders *)

Definition meta_url_re (attr name : string) : regex :=
  seqs [lit (Str.q ("<meta " +:+ attr +:+ "='" +:+ name +:+ "' content='"));
        star not_dquote; Chr Str.dquote; star space; opt (Chr "/"); Chr ">"].

Definition canonical_re : regex :=
  seqs [lit (Str.q "<link rel='canonical' href='"); star not_dquote;
        lit (Str.q "'>")].

Definition templateStructural (html : string) : string :=
  let html :=
    replace_str (Str.q "<html lang='en'>") (Str.q "<html lang='{{htmlLang}}'>") html in
  let html :=
    replace1_tpl canonical_re
      (Str.q "<link rel='canonical' href='{{canonicalUrl}}'>" +:+ Str.nl +:+
       "    {{hreflangTags}}") html in
  let html :=
    replace1_tpl (meta_url_re "property" "og:url")
      (Str.q "<meta property='og:url' content='{{pageUrl}}'>") html in
  let html :=
    replace1_tpl (meta_url_re "name" "twitter:url")
      (Str.q "<meta name='twitter:url' content='{{pageUrl}}'>") html in
  let html :=
    replace1_tpl (meta_url_re "property" "og:locale")
      (Str.q "<meta property='og:locale' content='{{ogLocale}}'>" +:+ Str.nl +:+
       "    {{ogLocaleAlternates}}") html in
  html.

(** *** Phase 3: JSON-LD *)

(** A parsed JSON value; an object lists its members in enumeration order,
    each key once. Numbers matter here only through being zero or not. *)
#[warnings="-register-all"]
Inductive json : Type :=
| JNull
| JBool (b : bool)
| JNum (n : Z)
| JStr (s : string)
| JArr (items : list json)
| JObj (members : list (string * json)).

Fixpoint get (k : string) (ms : list (string * json)) : option json :=
  match ms with
  | [] => None
  | (k', v) :: ms' => if String.eqb k k' then Some v else get k ms'
  end.

(** [obj[k] = v] for a key the object has. *)
Fixpoint set (k : string) (v : json) (ms : list (string * json))
    : list (string * json) :=
  match ms with
  | [] => [(k, v)]
  | (k', v') :: ms' =>
      if String.eqb k k' then (k', v) :: ms' else (k', v') :: set k v ms'
  end.

Definition truthy (o : option json) : bool :=
  match o with
  | None | Some JNull | Some (JBool false) | Some (JStr "") => false
  | Some (JNum n) => negb (n =? 0)%Z
  | Some _ => true
  end.

Definition translatableFields : list string :=
  ["description"; "reviewBody"; "headline"; "slogan"; "name"; "text"; "award"].

Definition exemptTypes : list string :=
  ["Brand"; "Organization"; "Person"; "ImageObject"; "Rating";
   "AggregateRating"; "AggregateOffer"; "Offer";
   "EducationalOccupationalCredential"].

Definition iso_date_re : regex :=
  seqs [Bol; times 4 digit; Chr "-"; times 2 digit; Chr "-"; times 2 digit; Eol].

(** The tests of the field loop that end in [continue]. *)
Definition skipField (field value : string) (ms : list (string * json)) : bool :=
  Str.startsWith "http" value || Str.startsWith "https" value ||
  test iso_date_re value ||
  Str.includes "schema.org" value ||
  (String.eqb field "name" &&
   match get "@type" ms with
   | Some (JStr ty) => truthy (Some (JStr ty)) && existsb (String.eqb ty) exemptTypes
   | _ => false
   end) ||
  (String.eqb field "name" &&
   match get "@type" ms with
   | Some (JStr "ListItem") => truthy (get "item" ms)
   | _ => false
   end).

(** The state of one block: the counter [keyIdx] and the dictionary. *)
Definition ld_state : Type := nat * dict.

(** One round of the loop over [translatableFields]. *)
Definition extractField (pk prefix : string)
    (acc : list (string * json) * ld_state) (field : string)
    : list (string * json) * ld_state :=
  let '(ms, (keyIdx, d)) := acc in
  match get field ms with
  | Some (JStr value) =>
      if (10 <? String.length value) && negb (skipField field value ms) then
        let keyIdx := S keyIdx in
        let k := prefix +:+ "_" +:+ field +:+ "_" +:+ Str.of_nat keyIdx in
        (set field (JStr (ph pk k)) ms, (keyIdx, addString pk k value d))
      else acc
  | _ => acc
  end.

Definition extractFields (pk prefix : string) (ms : list (string * json))
    (st : ld_state) : list (string * json) * ld_state :=
  foldl (extractField pk prefix) (ms, st) translatableFields.

Definition is_object (v : json) : bool :=
  match v with JArr _ | JObj _ => true | _ => false end.

(** [obj.forEach(item => walk(item))] *)
Fixpoint walkItems (walk : json → ld_state → json * ld_state)
    (items : list json) (st : ld_state) : list json * ld_state :=
  match items with
  | [] => ([], st)
  | item :: items' =>
      let '(item, st) := walk item st in
      let '(items', st) := walkItems walk items' st in
      (item :: items', st)
  end.

(** The loop over [Object.values(obj)]: a member that is an object or an
    array is walked. *)
Fixpoint walkMembers (walk : json → ld_state → json * ld_state)
    (ms : list (string * json)) (st : ld_state)
    : list (string * json) * ld_state :=
  match ms with
  | [] => ([], st)
  | (k, val) :: ms' =>
      let '(val, st) := if is_object val then walk val st else (val, st) in
      let '(ms', st) := walkMembers walk ms' st in
      ((k, val) :: ms', st)
  end.

Fixpoint walkAndExtract (pk prefix : string) (obj : json) (st : ld_state)
    {struct obj} : json * ld_state :=
  match obj with
  | JArr items =>
      let '(items, st) := walkItems (walkAndExtract pk prefix) items st in
      (JArr items, st)
  | JObj ms =>
      (* the field loop rewrites texts of [obj] in place ... *)
      let '(ms1, st) := extractFields pk prefix ms st in
      (* ... then the members are walked; a rewritten member is a text
         before and after, so the members that are objects are those of
         [ms], at the same places *)
      let '(walked, st) := walkMembers (walkAndExtract pk prefix) ms st in
      (JObj (zip_with (λ w m, if is_object m.2 then w else m) walked ms1), st)
  | _ => (obj, st)
  end.

Section Pipeline.

(** [JSON.parse], with [None] for a text that makes it throw, and
    [JSON.stringify(_, null, 8)] belong to the language. *)
Variable JSON_parse : string → option json.
Variable JSON_stringify : json → string.

Definition jsonld_re : regex :=
  seqs [Grp 1 (lit (Str.q "<script type='application/ld+json'>"));
        Grp 2 (star_lazy any); Grp 3 (lit "</script>")].

Definition extractJsonLd (html pk : string) (d : dict) : string * dict :=
  let '(html, (_, d)) :=
    replace_all jsonld_re
      (λ f '(jsonLdIdx, d),
         let jsonLdIdx := S jsonLdIdx in
         match JSON_parse (group 2 (f_caps f)) with
         | None => (f_match f, (jsonLdIdx, d))
         | Some json =>
             let prefix := "jsonld_" +:+ Str.of_nat jsonLdIdx in
             let '(json, (_, d)) := walkAndExtract pk prefix json (0, d) in
             let newJsonStr :=
               replace_all_tpl (lit (Str.q "}}'")) (Str.q "}}'")
                 (replace_all_tpl (lit (Str.q "'{{t.")) (Str.q "'{{t.")
                    (JSON_stringify json)) in
             (group 1 (f_caps f) +:+ Str.nl +:+ "    " +:+ newJsonStr +:+
              Str.nl +:+ "    " +:+ group 3 (f_caps f), (jsonLdIdx, d))
         end)
      html (0, d) in
  (html, d).

(** *** Phase 4: navigation *)

Definition navTexts : list (string * string) :=
  [ ("Reviews", "nav_reviews"); ("Compare", "nav_compare");
    ("Discounts", "nav_discounts"); ("About", "nav_about");
    ("Comparison", "nav_comparison"); ("All Reviews", "nav_all_reviews") ].

Definition nav_re : regex :=
  seqs [Grp 1 (lit (Str.q "<ul class='nav-links'>")); Grp 2 (star_lazy any);
        Grp 3 (lit "</ul>")].

(** [content.replace(new RegExp(`>${escRegex(text)}</a>`, 'g'),
    `>{{t.shared.${key}}}</a>`)]: the escaped text matches itself. *)
Definition templateLinkText (content : string) '((text, key) : string * string)
    : string :=
  replace_all_tpl (lit (">" +:+ text +:+ "</a>"))
    (">" +:+ ph "shared" key +:+ "</a>") content.

Definition templateNav (html : string) (d : dict) : string * dict :=
  let d := foldl (λ d '(text, key), addShared key text d) d navTexts in
  let html :=
    replace_all_with nav_re
      (λ f,
         let content := foldl templateLinkText (group 2 (f_caps f)) navTexts in
         group 1 (f_caps f) +:+ content +:+ group 3 (f_caps f) +:+ Str.nl +:+
         "        {{langSwitcher}}")
      html in
  (html, d).

(** *** Phase 5: body text *)

(** The counters [cnt] of [extractBodyText] and the dictionary. *)
Definition body_state : Type := gmap string nat * dict.

Definition nextKey (prefix : string) (cnt : gmap string nat)
    : string * gmap string nat :=
  let n := default 0 (cnt !! prefix) + 1 in
  (if n =? 1 then prefix else prefix +:+ "_" +:+ Str.of_nat n,
   <[prefix := n]> cnt).

(** An element of three groups, opening tag, text and closing tag: when
    [subject] has one whose text is to be kept, the text goes to the page
    section under the next key of [prefix] and [subject] with the
    placeholder in its place becomes the line; otherwise the line stays
    [cur]. [checked] adds the test that the text holds no double brace. *)
Definition extractElement (pk : string) (re : regex) (prefix : string)
    (checked : bool) (subject cur : string) (st : body_state)
    : string * body_state :=
  match exec re subject with
  | Some f =>
      let text := group 2 (f_caps f) in
      if negb (shouldSkip text) && negb (checked && Str.includes "{{" text) then
        let '(k, cnt) := nextKey prefix st.1 in
        (replace1_tpl re ("$1" +:+ ph pk k +:+ "$3") subject,
         (cnt, addString pk k (Str.trim text) st.2))
      else (cur, st)
  | None => (cur, st)
  end.

Definition not_chr (s : string) : regex := Cls (none_of s).

Definition heading_re (tag : string) : regex :=
  seqs [Grp 1 (seqs [lit ("<" +:+ tag); star (not_chr ">"); Chr ">"]);
        Grp 2 (plus_lazy dot); Grp 3 (lit ("</" +:+ tag +:+ ">"))].

Definition p_re : regex :=
  seqs [Grp 1 (seqs [lit "<p"; star (not_chr ">"); Chr ">"]);
        Grp 2 (plus_lazy dot); Grp 3 (lit "</p>")].

Definition th_re : regex :=
  seqs [lit "<th"; star (not_chr ">"); Chr ">"; Grp 1 (plus (not_chr "<{"));
        lit "</th>"].

Definition data_label_re : regex :=
  seqs [lit (Str.q "data-label='"); Grp 1 (plus not_dquote); Chr Str.dquote].

Definition spanClasses : list string :=
  ["section-tag"; "review-badge"; "score-label"; "stat-label";
   "stat-key"; "savings-text"; "savings-amount"; "code-label";
   "partner-desc"; "partner-discount"; "spec-label";
   "finding-value"; "finding-basis"; "tldr-highlight-label";
   "review-updated"; "discount-badge-new"; "discount-badge";
   "discount-badge-none"; "region-popup-subtitle"].

Definition span_re (cls : string) : regex :=
  seqs [Grp 1 (seqs [lit (Str.q "<span class='" +:+ cls); star not_dquote;
                     lit (Str.q "'>")]);
        Grp 2 (plus (not_chr "<")); Grp 3 (lit "</span>")].

Definition divClasses : list string := ["stat-number"; "stat-label"; "footer-logo"].

Definition div_re (cls : string) : regex :=
  seqs [Grp 1 (lit (Str.q "<div class='" +:+ cls +:+ Str.q "'>"));
        Grp 2 (plus (not_chr "<")); Grp 3 (lit "</div>")].

Definition btn_re : regex :=
  seqs [Grp 1 (seqs [Chr "<"; Alt (lit "button") (Chr "a"); star (not_chr ">");
                     lit (Str.q "class='"); star not_dquote; lit "btn";
                     star not_dquote; Chr Str.dquote; star (not_chr ">"); Chr ">"]);
        Grp 2 (plus (not_chr "<"));
        Grp 3 (seqs [lit "</"; Alt (lit "button") (Chr "a"); Chr ">"])].

Definition sharedBtns : list (string * string) :=
  [("Review", "btn_review"); ("Buy", "btn_buy"); ("Buy Now", "btn_buy_now")].

Definition linkClasses : list string := ["discount-details-link"; "discount-cta-btn"].

Definition link_re (cls : string) : regex :=
  seqs [Grp 1 (seqs [lit "<a"; star (not_chr ">"); lit (Str.q "class='");
                     star not_dquote; lit cls; star not_dquote; Chr Str.dquote;
                     star (not_chr ">"); Chr ">"]);
        Grp 2 (plus (not_chr "<")); Grp 3 (lit "</a>")].

(** [cls.replace(/-/g, '_')] *)
Definition underscored (cls : string) : string :=
  Str.map (λ a, if Ascii.eqb a "-" then "_"%char else a) cls.

Definition is_key_chr (a : ascii) : bool := Str.is_lower a || Str.is_digit a.

Definition th_key (text : string) : string :=
  "th_" +:+
  replace_all_tpl (Alt (Seq Bol (Chr "_")) (Seq (Chr "_") Eol)) ""
    (replace_all_tpl (plus (Cls (λ a, negb (is_key_chr a)))) "_"
       (Str.toLowerCase text)).

Definition dl_key (val : string) : string :=
  "dl_" +:+
  replace_all_tpl (Cls (λ a, negb (is_key_chr a))) "_" (Str.toLowerCase val).

Definition tableHeader (f : found) (line : string) (d : dict) : string * dict :=
  let text := Str.trim (group 1 (f_caps f)) in
  match text with
  | "" => (line, d)
  | _ =>
      if shouldSkip text then (line, d)
      else
        let shKey := th_key text in
        (replace_str (">" +:+ text +:+ "</th>") (">" +:+ ph "shared" shKey +:+ "</th>")
           line,
         addShared shKey text d)
  end.

Definition dataLabel (f : found) (line : string) (d : dict) : string * dict :=
  let val := group 1 (f_caps f) in
  if Str.startsWith "{{" val then (line, d)
  else
    let shKey := dl_key val in
    (replace_str (Str.q "data-label='" +:+ val +:+ Str.q "'")
       (Str.q "data-label='" +:+ ph "shared" shKey +:+ Str.q "'") line,
     addShared shKey val d).

Definition button (pk : string) (cur : string) (st : body_state)
    : string * body_state :=
  match exec btn_re cur with
  | Some f =>
      let m2 := group 2 (f_caps f) in
      if negb (shouldSkip m2) && negb (Str.includes "{{" m2) then
        let text := Str.trim m2 in
        match find (λ b, String.eqb b.1 text) sharedBtns with
        | Some (_, key) =>
            (replace1_tpl btn_re ("$1" +:+ ph "shared" key +:+ "$3") cur,
             (st.1, addShared key text st.2))
        | None =>
            let '(k, cnt) := nextKey "btn" st.1 in
            (replace1_tpl btn_re ("$1" +:+ ph pk k +:+ "$3") cur,
             (cnt, addString pk k text st.2))
        end
      else (cur, st)
  | None => (cur, st)
  end.

(** The body of the line loop behind its guards. [None]: a [while] loop
    was still running when its rounds were used up. *)
Definition bodyLine (pk line : string) (st : body_state)
    : option (string * body_state) :=
  let '(cur, st) :=
    foldl (λ '(cur, st) tag, extractElement pk (heading_re tag) tag false line cur st)
      (line, st) ["h1"; "h2"; "h3"; "h4"] in
  let '(cur, st) := extractElement pk p_re "p" false cur cur st in
  '(cur, d) ← while_exec (S (String.length cur)) th_re tableHeader 0 cur st.2;
  '(cur, d) ← while_exec (S (String.length cur)) data_label_re dataLabel 0 cur d;
  let st := (st.1, d) in
  let '(cur, st) :=
    foldl (λ '(cur, st) cls,
             extractElement pk (span_re cls) ("span_" +:+ underscored cls) true cur cur st)
      (cur, st) spanClasses in
  let '(cur, st) :=
    foldl (λ '(cur, st) cls,
             extractElement pk (div_re cls) ("div_" +:+ underscored cls) true cur cur st)
      (cur, st) divClasses in
  let '(cur, st) := button pk cur st in
  let '(cur, st) :=
    foldl (λ '(cur, st) cls,
             extractElement pk (link_re cls) ("link_" +:+ underscored cls) true cur cur st)
      (cur, st) linkClasses in
  Some (cur, st).

(** The flags [inScript], [inStyle] and [inFooter]. *)
Record flags := Flags { inScript : bool; inStyle : bool; inFooter : bool }.

Fixpoint bodyLines (pk : string) (lines : list string) (fl : flags)
    (st : body_state) : option (list string * body_state) :=
  match lines with
  | [] => Some ([], st)
  | line :: rest =>
      let skip fl := '(rest, st) ← bodyLines pk rest fl st; Some (line :: rest, st) in
      let fl := if test (lit_i "<script") line
                then Flags true (inStyle fl) (inFooter fl) else fl in
      if test (lit_i "</script>") line
      then skip (Flags false (inStyle fl) (inFooter fl))
      else
        let fl := if test (lit_i "<style") line
                  then Flags (inScript fl) true (inFooter fl) else fl in
        if test (lit_i "</style>") line
        then skip (Flags (inScript fl) false (inFooter fl))
        else
          let fl := if test (lit (Str.q "class='footer'")) line
                    then Flags (inScript fl) (inStyle fl) true else fl in
          if inScript fl || inStyle fl || inFooter fl then skip fl
          else if Str.includes "{{t." line then skip fl
          else
            '(cur, st) ← bodyLine pk line st;
            '(rest, st) ← bodyLines pk rest fl st;
            Some (cur :: rest, st)
  end.

Definition extractBodyText (html pk : string) (d : dict) : option (string * dict) :=
  '(lines, st) ← bodyLines pk (Str.split "010" html) (Flags false false false) (∅, d);
  Some (Str.join Str.nl lines, st.2).

(** *** Phase 6: footer *)

Definition footer_re : regex :=
  seqs [Grp 1 (lit (Str.q "<footer class='footer'>")); Grp 2 (star_lazy any);
        Grp 3 (lit "</footer>")].

(** [<p class=cls>text</p>] with a text free of tags. *)
Definition p_class_re (cls : string) : regex :=
  seqs [Grp 1 (lit (Str.q "<p class='" +:+ cls +:+ Str.q "'>"));
        Grp 2 (plus (not_chr "<")); Grp 3 (lit "</p>")].

(** A replacer that stores the trimmed text under a shared key and puts
    the placeholder between the two tags. *)
Definition toShared (key : string) (f : found) (d : dict) : string * dict :=
  (group 1 (f_caps f) +:+ ph "shared" key +:+ group 3 (f_caps f),
   addShared key (Str.trim (group 2 (f_caps f))) d).

Definition h4Map : list (string * string) :=
  [ ("Model Y Mattresses", "footer_col_model_y");
    ("Model 3 Mattresses", "footer_col_model_3");
    ("Discount Codes", "footer_col_discounts");
    ("Resources", "footer_col_resources");
    ("Compare", "footer_col_compare");
    ("Comparisons", "footer_col_comparisons") ].

Definition footerLinks : list (string * string) :=
  [ ("Snuuzu Model Y Review", "fl_snuuzu_y");
    ("Havnby Autolevel Review", "fl_havnby_autolevel");
    ("TESMAT Luxe Model Y", "fl_tesmat_luxe_y");
    ("Havnby Solo Review", "fl_havnby_solo");
    ("TESMAT Solo Model Y", "fl_tesmat_solo_y");
    ("NovaPads Air-Foam Pro Review", "fl_novapads");
    ("Snuuzu Model 3 Review", "fl_snuuzu_3");
    ("TESMAT Luxe Model 3", "fl_tesmat_luxe_3");
    ("TESMAT Solo Model 3", "fl_tesmat_solo_3");
    ("Havnby Foam Y/3 Review", "fl_havnby_foam");
    ("All Discount Codes", "fl_all_discounts");
    ("Snuuzu Discount Code", "fl_snuuzu_discount");
    ("Havnby Discount Code", "fl_havnby_discount");
    ("NovaPads Discount Code", "fl_novapads_discount");
    ("Mattress Comparison", "fl_comparison");
    ("Exclusive Codes", "fl_exclusive_codes");
    ("Partner Brands", "fl_partner_brands");
    ("About Us", "fl_about");
    ("All Comparisons", "fl_all_comparisons");
    ("Methodology", "fl_methodology");
    ("Affiliate Disclosure", "fl_disclosure") ].

Definition copyright_re : regex :=
  seqs [Grp 1 (seqs [lit "&copy; "; plus digit; lit " Teslamattress. "]);
        Grp 2 (plus (not_chr "<")); Grp 3 (lit "<a")].

Definition footerContent (content : string) (d : dict) : string * dict :=
  let '(content, d) :=
    replace1 (p_class_re "footer-tagline") (toShared "footer_tagline") content d in
  (* the wordmark of the logo is not translated *)
  let '(content, d) := replace1 (div_re "footer-logo") (λ f d, (f_match f, d)) content d in
  let '(content, d) :=
    foldl (λ '(content, d) '(text, key),
             (replace_str ("<h4>" +:+ text +:+ "</h4>")
                ("<h4>" +:+ ph "shared" key +:+ "</h4>") content,
              addShared key text d))
      (content, d) h4Map in
  let '(content, d) :=
    foldl (λ '(content, d) '(text, key),
             (templateLinkText content (text, key), addShared key text d))
      (content, d) footerLinks in
  let '(content, d) :=
    replace1 (p_class_re "disclaimer") (toShared "footer_disclaimer") content d in
  replace1 copyright_re
    (λ f d,
       (group 1 (f_caps f) +:+ ph "shared" "footer_rights" +:+ " " +:+
        group 3 (f_caps f),
        addShared "footer_rights" (Str.trim (group 2 (f_caps f))) d))
    content d.

Definition templateFooter (html : string) (d : dict) : string * dict :=
  replace1 footer_re
    (λ f d,
       let '(content, d) := footerContent (group 2 (f_caps f)) d in
       (group 1 (f_caps f) +:+ content +:+ group 3 (f_caps f), d))
    html d.

(** *** Phase 7: region popup *)

Definition region_title_re : regex :=
  seqs [Grp 1 (seqs [lit (Str.q "<div class='region-popup-content'>");
                     star_lazy any; lit "<button"; star (not_chr ">"); Chr ">";
                     star (not_chr "<"); lit "</button>"; star space;
                     Chr "010"; star space; lit "<h3>"]);
        Grp 2 (plus (not_chr "<")); Grp 3 (lit "</h3>")].

Definition region_discount_re : regex :=
  seqs [Grp 1 (lit (Str.q "<p class='region-discount'>")); Grp 2 (star_lazy any);
        Grp 3 (lit "</p>")].

Definition region_name_re (name : string) : regex :=
  seqs [Grp 1 (lit (Str.q "<span class='region-name'>")); lit name;
        Grp 2 (lit "</span>")].

Definition regionName (name key : string) (html : string) (d : dict)
    : string * dict :=
  replace_all (region_name_re name)
    (λ f d,
       (group 1 (f_caps f) +:+ ph "shared" key +:+ group 2 (f_caps f),
        addShared key name d))
    html d.

Definition templateRegionPopup (html : string) (d : dict) : string * dict :=
  let '(html, d) := replace1 region_title_re (toShared "region_title") html d in
  let '(html, d) :=
    replace1 (p_class_re "region-popup-subtitle") (toShared "region_subtitle") html d in
  let '(html, d) :=
    replace1 region_discount_re (toShared "region_discount_text") html d in
  let '(html, d) := regionName "Europe" "region_europe" html d in
  regionName "United States" "region_us" html d.

(** *** Phase 8: internal links *)

Definition href_re : regex :=
  seqs [lit (Str.q "href='"); Grp 1 (Seq (Chr "/") (star_lazy not_dquote));
        Chr Str.dquote].

Definition asset_re : regex :=
  seqs [Chr ".";
        Grp 1 (foldr Alt (lit "txt")
                 (lit <$> ["css"; "js"; "svg"; "png"; "jpg"; "jpeg"; "webp";
                           "json"; "ico"; "xml"]));
        Grp 2 (Alt (Chr "?") Eol)].

Definition templateInternalLinks (html : string) : string :=
  replace_all_with href_re
    (λ f,
       let p := group 1 (f_caps f) in
       if test asset_re p then f_match f
       else if Str.startsWith "/images/" p || Str.startsWith "/_vercel/" p then f_match f
       else if Str.startsWith "/favicon" p || Str.startsWith "/apple-touch" p then f_match f
       else if Str.includes "{{" p then f_match f
       else
         let cleaned := replace1_tpl (Seq Bol (Chr "/")) "" p in
         Str.q "href='/{{localePath}}" +:+ cleaned +:+ Str.q "'")
    html.

(** *** One page *)

Definition refresh_re : regex :=
  lit (Str.q "<meta http-equiv='refresh' content='0;url=/discounts/novapads'>").

(** The redirect page gets the language attribute, the canonical URL and
    its one target, and nothing else. *)
Definition templateRedirect (html : string) : string :=
  let html :=
    replace_str (Str.q "<html lang='en'>") (Str.q "<html lang='{{htmlLang}}'>") html in
  let html :=
    replace1_tpl canonical_re (Str.q "<link rel='canonical' href='{{canonicalUrl}}'>")
      html in
  let html :=
    replace1_tpl refresh_re
      (Str.q "<meta http-equiv='refresh' content='0;url=/{{localePath}}discounts/novapads'>")
      html in
  replace1_tpl (lit (Str.q "href='/discounts/novapads'"))
    (Str.q "href='/{{localePath}}discounts/novapads'") html.

(** [processPage] for a page whose source file exists: the template
    written and the dictionary afterwards. [None]: a loop of the body pass
    was still running when its rounds were used up. *)
Definition processPage (pageKey html : string) (d : dict)
    : option (string * dict) :=
  let d := <[pageKey := ∅]> d in
  if String.eqb pageKey "discount_tesery" then Some (templateRedirect html, d)
  else
    let '(html, d) := extractMeta html pageKey d in
    let html := templateStructural html in
    let '(html, d) := extractJsonLd html pageKey d in
    let '(html, d) := templateNav html d in
    '(html, d) ← extractBodyText html pageKey d;
    let '(html, d) := templateFooter html d in
    let '(html, d) := templateRegionPopup html d in
    let html := templateInternalLinks html in
    Some (html, d).

(** The loop over [PAGES]: each page comes with the text of its source
    file, or with [None] when the file is missing and the page is left
    out. The templates written are returned by page key. *)
Fixpoint run (pages : list (string * option string)) (d : dict)
    : option (list (string * string) * dict) :=
  match pages with
  | [] => Some ([], d)
  | (pageKey, None) :: rest => run rest d
  | (pageKey, Some html) :: rest =>
      '(template, d) ← processPage pageKey html d;
      '(templates, d) ← run rest d;
      Some ((pageKey, template) :: templates, d)
  end.

End Pipeline.

(** *** What the passes do to one match *)

(** A code unit other than the double quote. *)
Definition nq (a : ascii) : bool := negb (Ascii.eqb a Str.dquote).

(** What [href_re] matches at the head of [s], read off the pattern: the
    target behind the slash and the text behind the closing quote. *)
Definition href_at (s : string) : option (string * string) :=
  if Str.startsWith (Str.q "href='") s then
    match Str.drop 6 s with
    | String b s1 =>
        if Ascii.eqb "/" b then
          let r := Str.run nq s1 in
          match Str.drop (String.length r) s1 with
          | String _ rest => Some (r, rest)
          | "" => None
          end
        else None
    | "" => None
    end
  else None.

(** The attribute with the target [/r]. *)
Definition href (r : string) : string := Str.q "href='/" +:+ r +:+ Str.q "'".

(** The targets that [templateInternalLinks] leaves as they are. *)
Definition keptLink (p : string) : bool :=
  test asset_re p ||
  (Str.startsWith "/images/" p || Str.startsWith "/_vercel/" p) ||
  (Str.startsWith "/favicon" p || Str.startsWith "/apple-touch" p) ||
  Str.includes "{{" p.

(** What the pass writes for the link with the target [/r]. *)
Definition relink (r : string) : string :=
  if keptLink (String "/" r) then href r else href ("{{localePath}}" +:+ r).

Definition linkFn (f : found) : string :=
  let p := group 1 (f_caps f) in
  if test asset_re p then f_match f
  else if Str.startsWith "/images/" p || Str.startsWith "/_vercel/" p then f_match f
  else if Str.startsWith "/favicon" p || Str.startsWith "/apple-touch" p then f_match f
  else if Str.includes "{{" p then f_match f
  else
    let cleaned := replace1_tpl (Seq Bol (Chr "/")) "" p in
    Str.q "href='/{{localePath}}" +:+ cleaned +:+ Str.q "'".

(** *** [escRegex] *)

(** The characters that [escRegex] protects. *)
Definition special : ascii → bool := one_of ".*+?^${}()|[]\".

(** [s.replace(/[.*+?^${}()|[\]\\]/g, '\\$&')] *)
Definition escRegex (s : string) : string :=
  replace_all_tpl (Cls special) "\$&" s.

(** A backslash in front of every special character. *)
Fixpoint escaped (s : string) : string :=
  match s with
  | "" => ""
  | String a s' =>
      if special a then String "\" (String a (escaped s')) else String a (escaped s')
  end.

(** *** The locale file written at the end *)

(** The object written to [en.json], for a registry in which no page is
    keyed [_meta]: the English entry of [_meta], the shared section, and
    the section of every page that has one with a key in it. *)
Definition meta_en : gmap string string :=
  {[ "locale" := "en"; "locale_path" := ""; "og_locale" := "en_US"; "html_lang" := "en" ]}.

Definition enJson (pageKeys : list string) (d : dict) : dict :=
  foldl (λ acc pk,
           match d !! pk with
           | Some sec => if 0 <? size sec then <[pk := sec]> acc else acc
           | None => acc
           end)
    {[ "_meta" := meta_en; "shared" := section_of d "shared" ]} pageKeys.

End Extract.

(** ** translate.js: refreshing a locale *)

Module Translate.

Abbreviation section := (gmap string string).
Abbreviation dict := (gmap string (gmap string string)).

Definition TARGET_LOCALES : list string := ["de"; "fr"; "no"; "da"; "sv"].

Definition meta (locale locale_path og_locale html_lang : string) : section :=
  {[ "locale" := locale; "locale_path" := locale_path;
     "og_locale" := og_locale; "html_lang" := html_lang ]}.

(** [LOCALE_META[locale]] for a target locale. *)
Definition LOCALE_META (locale : string) : section :=
  match locale with
  | "de" => meta "de" "de/" "de_DE" "de"
  | "fr" => meta "fr" "fr/" "fr_FR" "fr"
  | "no" => meta "no" "no/" "nb_NO" "nb"
  | "da" => meta "da" "da/" "da_DK" "da"
  | "sv" => meta "sv" "sv/" "sv_SE" "sv"
  | _ => ∅
  end.

(** What an object of [main] holds under a name, or inherits under it: a
    section, or the value that [Object.prototype] has under the name,
    which is a built-in function, and the prototype itself under
    [__proto__]. *)
Inductive held := Obj (o : section) | Builtin (name : string).

(** What a property access on the locale data finds: a value that it
    holds or inherits, or a text, which it finds only in a section that
    has become its prototype. *)
Inductive value := Held (h : held) | Text (t : string).

(** The truth value of what was found: every object and function counts
    as true, and so does every text but the empty one. *)
Definition truthy (v : value) : bool :=
  match v with Text "" => false | _ => true end.

(** [Object.keys(v).length]: the keys of a section, the indices of a
    text, and nothing for a built-in value, which has no enumerable
    property. *)
Definition keyCount (v : value) : nat :=
  match v with
  | Held (Obj o) => size o
  | Held (Builtin _) => 0
  | Text t => String.length t
  end.

(** The test [TARGET_LOCALES[locale]] passes for the five targets and for
    the names that the table inherits. *)
Definition isTarget (locale : string) : bool :=
  bool_decide (locale ∈ TARGET_LOCALES) || Js.inherited locale.

(** [LOCALE_META[locale]] for a code that has passed the test. *)
Definition metaOf (locale : string) : held :=
  if bool_decide (locale ∈ TARGET_LOCALES) then Obj (LOCALE_META locale)
  else Builtin locale.

(** [en[section]]: the section of the source, or what the source
    inherits under the name. *)
Definition source (en : dict) (k : string) : option held :=
  match en !! k with
  | Some o => Some (Obj o)
  | None => if Js.inherited k then Some (Builtin k) else None
  end.

(** [localeData[section]]: what the locale data holds, else what the
    section that was made its prototype holds, else what every object
    inherits; under [__proto__] the prototype that was put in. *)
Definition copy (localeData : gmap string held) (proto : option section) (k : string)
    : option value :=
  match localeData !! k with
  | Some h => Some (Held h)
  | None =>
      match proto with
      | Some p =>
          match p !! k with
          | Some t => Some (Text t)
          | None =>
              if String.eqb k "__proto__" then Some (Held (Obj p))
              else if Js.inherited k then Some (Held (Builtin k)) else None
          end
      | None => if Js.inherited k then Some (Held (Builtin k)) else None
      end
  end.

(** [localeData[section] = result]: a property of the locale data; under
    the name [__proto__], unless the locale data or its prototype holds a
    property of that name, the setter that every object inherits makes
    the result the prototype. *)
Definition assign (localeData : gmap string held) (proto : option section)
    (k : string) (r : section) : gmap string held * option section :=
  if String.eqb k "__proto__" &&
     bool_decide (localeData !! k = None) && bool_decide (proto ≫= (.!! k) = None)
  then (localeData, Some r)
  else (<[k := Obj r]> localeData, proto).

(** [JSON.stringify(localeData)] as the next reader parses it: the
    sections that the locale data holds, without a function, and with an
    empty section for the prototype object, which has no enumerable
    property; what the locale data inherits is not written. *)
Definition written (localeData : gmap string held) : dict :=
  omap (λ h, match h with
             | Obj o => Some o
             | Builtin name => if String.eqb name "__proto__" then Some ∅ else None
             end) localeData.

(** What a request to the translation service ends in: an exception (the
    call and the reading of the response stand outside the [try]), the
    value [null] after an answer that does not parse, or the parsed
    answer. An answer that parses to something else than an object of
    texts is left out of this model. *)
Inductive answer := Thrown | Null | Answer (r : section).

(** What the loop over the sections keeps for one locale: the locale
    data, the section that was made its prototype, the two counters, the
    requests sent to the translator and the snapshots written to the
    locale file, oldest first, and whether a request has thrown. *)
Record state := State {
  localeData : gmap string held;
  proto : option section;
  translated : nat;
  failed : nat;
  calls : list (string * held);
  writes : list dict;
  thrown : bool
}.

Section Loop.

(** [translateSection(client, sectionKey, sectionData, targetLocale)]; the
    service answers a request the same way each time. *)
Variable translateSection : string → held → string → answer.

(** [localeData[section] &&
     Object.keys(localeData[section]).length === Object.keys(en[section]).length] *)
Definition upToDate (st : state) (sectionKey : string) (src : held) : bool :=
  match copy (localeData st) (proto st) sectionKey with
  | Some v => truthy v && (keyCount v =? keyCount (Held src))
  | None => false
  end.

(** One round of the loop over [sections] for the target [locale]; once
    a request has thrown, the run is over and nothing more is done. *)
Definition step (en : dict) (locale : string) (st : state) (sectionKey : string)
    : state :=
  if thrown st then st
  else
    match source en sectionKey with
    | None => st
    | Some src =>
        if upToDate st sectionKey src then st
        else
          let sent := calls st ++ [(sectionKey, src)] in
          match translateSection sectionKey src locale with
          | Thrown =>
              State (localeData st) (proto st) (translated st) (failed st) sent
                (writes st) true
          | Null =>
              State (localeData st) (proto st) (translated st) (S (failed st)) sent
                (writes st ++ [written (localeData st)]) false
          | Answer r =>
              let '(ld, pr) := assign (localeData st) (proto st) sectionKey r in
              State ld pr (S (translated st)) (failed st) sent
                (writes st ++ [written ld]) false
          end
    end.

(** The rounds for one locale, from the locale file read at the start,
    or from nothing when there is none. *)
Definition translateLocale (en : dict) (sections : list string)
    (locale : string) (file : option dict) : state :=
  let localeData := <["_meta" := metaOf locale]> (Obj <$> default ∅ file) in
  foldl (step en locale) (State localeData None 0 0 [] [] false) sections.

(** The locale file after the rounds: the last snapshot written, or the
    file as it was when none was written. *)
Definition fileAfter (file : option dict) (st : state) : option dict :=
  match last (writes st) with
  | Some w => Some w
  | None => file
  end.

(** [main]: the sections are the selected ones, or all of [en.json] but
    [_meta], in the order [allSections]; a code that fails the test
    [TARGET_LOCALES[locale]] is passed over; every other one has its
    rounds, from the locale file as it is then, which an earlier round
    for the same code may have written; a request that throws ends the
    run. The result is the locale files at the end, by code, and the
    rounds in their order. *)
Definition main (en : dict) (allSections : list string)
    (selectedSections selectedLocales : option (list string))
    (files : gmap string dict) : gmap string dict * list (string * state) :=
  let sections := default allSections selectedSections in
  let locales := default TARGET_LOCALES selectedLocales in
  foldl (λ '(files, rounds) locale,
           if existsb (λ r, thrown r.2) rounds then (files, rounds)
           else if isTarget locale then
             let st := translateLocale en sections locale (files !! locale) in
             (match last (writes st) with
              | Some w => <[locale := w]> files
              | None => files
              end,
              rounds ++ [(locale, st)])
           else (files, rounds))
    (files, []) locales.

End Loop.

(** [getArg(name)]: the value behind the first occurrence of the flag on
    the command line, split at the commas; [None] stands for [null],
    which is returned when the flag is missing, is the last word, or is
    followed by an empty word. *)
Fixpoint getArg (name : string) (args : list string) : option (list string) :=
  match args with
  | [] => None
  | a :: rest =>
      if String.eqb a name then
        match rest with
        | String c v :: _ => Some (Str.split "," (String c v))
        | _ => None
        end
      else getArg name rest
  end.

(** The copy of a section is up to date whenever the source has the section. *)
Definition fresh (en : dict) (st : state) (k : string) : Prop :=
  ∀ src, source en k = Some src → upToDate st k src = true.

(** What a round keeps of the counters and the writes. *)
Definition counted (st : state) : Prop :=
  translated st + failed st + (if thrown st then 1 else 0) = length (calls st) ∧
  length (writes st) = translated st + failed st ∧
  (writes st ≠ [] → last (writes st) = Some (written (localeData st))).

(** The locale data holds sections, but for the entry [_meta]. *)
Definition sections_only (ld : gmap string held) : Prop :=
  ∀ k h, ld !! k = Some h → k ≠ "_meta" → ∃ o, h = Obj o.

End Translate.

(** ** verify.js: checks on the rendered tree *)

Module Verify.
Import Re.
Export Build (locale, en, de, fr, no, da, sv, page, Page, output, pageKey).

Definition LOCALE_PATHS (l : locale) : string :=
  match l with
  | en => "" | de => "de/" | fr => "fr/" | no => "no/" | da => "da/" | sv => "sv/"
  end.

Definition HTML_LANGS (l : locale) : string :=
  match l with
  | en => "en" | de => "de" | fr => "fr" | no => "nb" | da => "da" | sv => "sv"
  end.

(** The two counters and the lines printed. *)
Record report := Report { errors : nat; warnings : nat; printed : list string }.

Definition error (msg : string) (r : report) : report :=
  Report (S (errors r)) (warnings r) (printed r ++ ["  ERROR: " +:+ msg]).

Definition warn (msg : string) (r : report) : report :=
  Report (errors r) (S (warnings r)) (printed r ++ ["  WARN:  " +:+ msg]).

Definition pass (msg : string) (r : report) : report :=
  Report (errors r) (warnings r) (printed r ++ ["  PASS:  " +:+ msg]).

Definition log (msg : string) (r : report) : report :=
  Report (errors r) (warnings r) (printed r ++ [msg]).

(** What the script reads: the rendered tree, the page registry and the
    locales to check. A path is given by its segments below the output
    directory: [join segs] stands for [path.join(DIST_DIR, ...segs)]. *)
Record world := World {
  w_join : list string → string;
  w_existsSync : string → bool;
  w_readFileSync : string → string;
  w_PAGES : list page;
  w_LOCALES : list locale
}.

Section Checks.

Variable w : world.

Local Abbreviation join := (w_join w).
Local Abbreviation existsSync := (w_existsSync w).
Local Abbreviation readFileSync := (w_readFileSync w).
Local Abbreviation PAGES := (w_PAGES w).
Local Abbreviation LOCALES := (w_LOCALES w).

(** [path.join(locPath, file)] *)
Definition locFile (loc : locale) (file : string) : string :=
  match loc with
  | en => join [file]
  | _ => join [LOCALE_PATHS loc; file]
  end.

Definition shown (loc : locale) (p : page) : string := LOCALE_PATHS loc +:+ output p.

(** The loop of a check over the files that exist, locale by locale. *)
Definition eachFile {T} (f : locale → page → string → T → T) (st : T) : T :=
  foldl (λ st loc,
           foldl (λ st p,
                    let filePath := locFile loc (output p) in
                    if existsSync filePath then f loc p (readFileSync filePath) st
                    else st)
             st PAGES)
    st LOCALES.

(** Check 1 *)
Definition checkFileCount (r : report) : report :=
  foldl (λ r loc,
           let '(count, r) :=
             foldl (λ '(count, r) p,
                      if existsSync (locFile loc (output p)) then (S count, r)
                      else (count, error ("Missing: " +:+ shown loc p) r))
               (0, r) PAGES in
           if count =? length PAGES
           then pass (Build.code loc +:+ ": " +:+ Str.of_nat count +:+ "/" +:+
                      Str.of_nat (length PAGES) +:+ " files") r
           else r)
    (log (Str.nl +:+ "--- File count per locale ---") r) LOCALES.

Definition placeholder_re : regex :=
  seqs [lit "{{t."; plus (Cls (none_of "}")); lit "}}"].

(** Check 2 *)
Definition checkPlaceholders (r : report) : report :=
  let '(found, r) :=
    eachFile (λ loc p html '(found, r),
                match match_all placeholder_re html with
                | [] => (found, r)
                | matches =>
                    (found + length matches,
                     error (shown loc p +:+ ": " +:+ Str.of_nat (length matches) +:+
                            " unresolved (" +:+ Str.join ", " (take 3 matches) +:+ ")") r)
                end)
      (0, log (Str.nl +:+ "--- Unresolved placeholders ---") r) in
  if found =? 0 then pass "No unresolved {{t.}} placeholders" r else r.

Definition undefined_re : regex :=
  Alt (lit (Str.q "content='undefined'")) (lit ">undefined<").

(** Check 3 *)
Definition checkUndefined (r : report) : report :=
  let '(found, r) :=
    eachFile (λ loc p html '(found, r),
                match match_all undefined_re html with
                | [] => (found, r)
                | matches =>
                    (found + length matches,
                     error (shown loc p +:+ ": " +:+ Str.of_nat (length matches) +:+
                            Str.q " 'undefined' occurrences") r)
                end)
      (0, log (Str.nl +:+ "--- Undefined strings ---") r) in
  if found =? 0 then pass (Str.q "No 'undefined' strings found") r else r.

Definition not_dquote : regex := Cls (λ a, negb (Ascii.eqb a Str.dquote)).

Definition html_lang_re : regex :=
  seqs [lit (Str.q "<html lang='"); Grp 1 (plus not_dquote); lit (Str.q "'>")].

(** Check 4 *)
Definition checkHtmlLang (r : report) : report :=
  let '(ok, r) :=
    eachFile (λ loc p html '(ok, r),
                let expectedLang := HTML_LANGS loc in
                match exec html_lang_re html with
                | None => (ok, error (shown loc p +:+ ": missing <html lang>") r)
                | Some f =>
                    let lang := group 1 (f_caps f) in
                    if negb (String.eqb lang expectedLang)
                    then (ok, error (shown loc p +:+ Str.q ": lang='" +:+ lang +:+
                                     Str.q "' expected '" +:+ expectedLang +:+
                                     Str.q "'") r)
                    else (S ok, r)
                end)
      (0, log (Str.nl +:+ "--- html lang attribute ---") r) in
  pass (Str.of_nat ok +:+ " files have correct html lang") r.

Definition hreflang_re : regex :=
  seqs [lit (Str.q "hreflang='"); plus not_dquote; Chr Str.dquote].

Definition quoted_re : regex :=
  seqs [Chr Str.dquote; Grp 1 (plus not_dquote); Chr Str.dquote].

(** [h.match(/.../)[1]] for a text that holds a quoted value. *)
Definition quoted (h : string) : string :=
  match exec quoted_re h with
  | Some f => group 1 (f_caps f)
  | None => ""
  end.

Definition hreflangValues (html : string) : list string :=
  quoted <$> match_all hreflang_re html.

(** Check 5 *)
Definition checkHreflang (r : report) : report :=
  let '(ok, issues, r) :=
    eachFile (λ loc p html '(ok, issues, r),
                if String.eqb (pageKey p) "discount_tesery" then (ok, issues, r)
                else
                  let values := hreflangValues html in
                  if length values <? 7
                  then (ok, S issues,
                        error (shown loc p +:+ ": only " +:+
                               Str.of_nat (length values) +:+ "/7 hreflang tags") r)
                  else if negb (existsb (String.eqb "x-default") values)
                  then (ok, S issues,
                        error (shown loc p +:+ ": missing x-default hreflang") r)
                  else (S ok, issues, r))
      (0, 0, log (Str.nl +:+ "--- Hreflang tags ---") r) in
  pass (Str.of_nat ok +:+ " files have correct hreflang tags (" +:+
        Str.of_nat issues +:+ " issues)") r.

(** Check 6 *)
Definition checkSitemap (r : report) : report :=
  let r := log (Str.nl +:+ "--- Sitemap ---") r in
  let sitemapPath := join ["sitemap.xml"] in
  if negb (existsSync sitemapPath) then error "sitemap.xml not found" r
  else
    let sitemap := readFileSync sitemapPath in
    let urlCount := length (match_all (lit "<url>") sitemap) in
    let localeCount :=
      length (filter (λ l, existsSync (locFile l "index.html") = true) LOCALES) in
    let expectedUrls := length PAGES * localeCount in
    let r :=
      if urlCount =? expectedUrls
      then pass ("Sitemap: " +:+ Str.of_nat urlCount +:+ " URLs (" +:+
                 Str.of_nat (length PAGES) +:+ " pages × " +:+
                 Str.of_nat localeCount +:+ " locales)") r
      else warn ("Sitemap: " +:+ Str.of_nat urlCount +:+ " URLs (expected " +:+
                 Str.of_nat expectedUrls +:+ ")") r in
    let xhtmlLinks := length (match_all (lit "xhtml:link") sitemap) in
    if 0 <? xhtmlLinks
    then pass ("Sitemap has " +:+ Str.of_nat xhtmlLinks +:+
               " hreflang xhtml:link entries") r
    else error "Sitemap missing hreflang xhtml:link entries" r.

Definition href_re : regex :=
  seqs [lit (Str.q "href='/"); star not_dquote; Chr Str.dquote].

Definition asset_re : regex :=
  seqs [Chr ".";
        Grp 1 (foldr Alt (lit "ico")
                 (lit <$> ["css"; "js"; "svg"; "png"; "jpg"; "webp"; "json";
                           "xml"; "txt"]));
        Eol].

(** Whether the target of a link is missing from the tree. *)
Definition missing (href : string) : bool :=
  let checkPath := replace1_tpl (Seq (Chr "/") Eol) "/index.html" href in
  let checkPath :=
    if Str.endsWith ".html" checkPath then checkPath else checkPath +:+ ".html" in
  let checkPath := replace1_tpl (Seq Bol (Chr "/")) "" checkPath in
  let fullPath := join [checkPath] in
  let altPath := join [replace_str ".html" "/index.html" checkPath] in
  if negb (existsSync fullPath) && negb (existsSync altPath) then
    let cleanPath := join [replace1_tpl (Seq Bol (Chr "/")) "" href; "index.html"] in
    negb (existsSync cleanPath)
  else false.

(** Check 7 *)
Definition checkInternalLinks (r : report) : report :=
  let '(checked, broken, r) :=
    eachFile (λ loc p html st,
                foldl (λ '(checked, broken, r) link,
                         let href := quoted link in
                         if Str.includes "#" href then (checked, broken, r)
                         else if test asset_re href then (checked, broken, r)
                         else if Str.startsWith "/_vercel" href then (checked, broken, r)
                         else if missing href then
                           let broken := S broken in
                           (S checked, broken,
                            if broken <=? 10
                            then warn ("Broken link: " +:+ shown loc p +:+ " → " +:+ href) r
                            else r)
                         else (S checked, broken, r))
                  st (match_all href_re html))
      (0, 0, log (Str.nl +:+ "--- Internal link integrity ---") r) in
  if broken =? 0
  then pass (Str.of_nat checked +:+ " internal links checked, all valid") r
  else warn (Str.of_nat broken +:+ "/" +:+ Str.of_nat checked +:+
             " broken internal links") r.

(** Check 8 *)
Definition checkNoindex (r : report) : report :=
  foldl (λ r loc,
           let filePath := locFile loc "disclosure.html" in
           if existsSync filePath then
             if Str.includes "noindex" (readFileSync filePath)
             then pass (Build.code loc +:+ ": disclosure.html has noindex") r
             else warn (Build.code loc +:+ ": disclosure.html missing noindex") r
           else r)
    (log (Str.nl +:+ "--- Noindex on disclosure pages ---") r) LOCALES.

(** All the checks, in the order of the script. *)
Definition runChecks : report :=
  checkNoindex
    (checkInternalLinks
       (checkSitemap
          (checkHreflang
             (checkHtmlLang
                (checkUndefined
                   (checkPlaceholders
                      (checkFileCount
                         (Report 0 0 ["Verifying multilingual build..."])))))))).

(** The exit status: [process.exit(1)] when an error was counted. *)
Definition exitCode (r : report) : nat := if 0 <? errors r then 1 else 0.

Definition verify : nat := exitCode runChecks.

(** *** What the checks count

    The pairs of a locale and a page, in the order of the two loops; the
    files found in the tree; and what makes a file fail each check. *)
Definition pairs : list (locale * page) := loc ← LOCALES; (loc,.) <$> PAGES.

Definition present (x : locale * page) : bool := existsSync (locFile x.1 (output x.2)).

Definition content (x : locale * page) : string := readFileSync (locFile x.1 (output x.2)).

Definition files : list (locale * page) := List.filter present pairs.

(** The number of files that are [bad]. *)
Definition count (bad : locale * page → bool) : nat := length (List.filter bad files).

Definition missingFiles : nat := length (List.filter (λ x, negb (present x)) pairs).

Definition unresolved (html : string) : bool :=
  match match_all placeholder_re html with [] => false | _ => true end.

Definition leaked (html : string) : bool :=
  match match_all undefined_re html with [] => false | _ => true end.

Definition wrongLang (loc : locale) (html : string) : bool :=
  match exec html_lang_re html with
  | None => true
  | Some f => negb (String.eqb (group 1 (f_caps f)) (HTML_LANGS loc))
  end.

Definition incomplete (p : page) (html : string) : bool :=
  negb (String.eqb (pageKey p) "discount_tesery") &&
  ((length (hreflangValues html) <? 7) ||
   negb (existsb (String.eqb "x-default") (hreflangValues html))).

Definition sitemapPresent : bool := existsSync (join ["sitemap.xml"]).

Definition sitemapCountOff : bool :=
  negb (length (match_all (lit "<url>") (readFileSync (join ["sitemap.xml"]))) =?
        length PAGES *
        length (filter (λ l, existsSync (locFile l "index.html") = true) LOCALES)).

Definition sitemapLinkless : bool :=
  negb (0 <? length (match_all (lit "xhtml:link") (readFileSync (join ["sitemap.xml"])))).

(** A link that the link check follows and does not find. *)
Definition brokenLink (link : string) : bool :=
  let href := quoted link in
  negb (Str.includes "#" href) && negb (test asset_re href) &&
  negb (Str.startsWith "/_vercel" href) && missing href.

(** The broken links of a page, and of all the files. *)
Definition brokenIn (html : string) : nat :=
  length (List.filter brokenLink (match_all href_re html)).

Definition brokenLinks : nat := list_sum ((λ x, brokenIn (content x)) <$> files).

(** The warnings of the link check: one for each of the first ten broken
    links, and one for the summary when a link is broken. *)
Definition linkWarnings : nat :=
  Nat.min brokenLinks 10 + (if brokenLinks =? 0 then 0 else 1).

(** The locales whose disclosure page is in the tree without the
    directive. *)
Definition noindexMissing : nat :=
  length (List.filter
            (λ loc, existsSync (locFile loc "disclosure.html") &&
                    negb (Str.includes "noindex"
                            (readFileSync (locFile loc "disclosure.html"))))
            LOCALES).

End Checks.

End Verify.

(** ** generate-guide-content.js: the keys of the guide templates *)

Module Guide.
Import Re.
Import Extract (json, JNull, JBool, JNum, JStr, JArr, JObj).

(** [keys[section].add(key)] for a set that is turned into an array at
    the end: insertion order, each key once. *)
Definition add (key : string) (l : list string) : list string :=
  if bool_decide (key ∈ l) then l else l ++ [key].

(** What [extractKeys] ends in: the keys by section, or a TypeError. *)
Inductive extracted := Keys (keys : gmap string (list string)) | TypeError.

(** The body of the [while] loop of [extractKeys]; [None]: it throws.
    For a section whose name every object inherits, [keys[section]] is a
    built-in value: no set is made, and the call of its [add], which it
    does not have, is a TypeError. *)
Definition collect (f : found) (keys : gmap string (list string))
    : option (gmap string (list string)) :=
  let section := group 1 (f_caps f) in
  let key := group 2 (f_caps f) in
  if String.eqb section "shared" then Some keys
  else if Js.inherited section then None
  else Some (<[section := add key (default [] (keys !! section))]> keys).

(** [extractKeys] on the text of a template. The state of the loop is
    the object [keys], or [None] once the body has thrown. The outer
    [None]: the loop was still running when its rounds were used up. *)
Definition extractKeys (html : string) : option extracted :=
  (λ r, match r.2 with Some keys => Keys keys | None => TypeError end) <$>
  while_exec (S (String.length html)) Build.placeholder_re
    (λ f line st, (line, st ≫= collect f)) 0 html (Some ∅).

(** The Markdown fence around an answer. *)
Definition fence_re : regex :=
  seqs [lit "```"; opt (lit "json"); star space; opt (Chr "010");
        Grp 1 (star_lazy any); opt (Chr "010"); lit "```"].

Definition kind_re : regex :=
  seqs [Bol;
        Grp 1 (foldr Alt (Seq (lit "jsonld ") (plus digit))
                 [Seq (Chr "h") digit; lit "p"; lit "li"; lit "span"; lit "btn";
                  lit "badge"; lit "meta"; lit "og"; lit "twitter"]);
        Chr " "].

(** The text put in for a key that the answer lacks. *)
Definition fallback (k : string) : string :=
  replace1_tpl kind_re "" (replace_all_tpl (Chr "_") " " k).

(** The keys of the request that are not [in] the parsed answer, which
    neither has them nor inherits them, get a text made from the key. *)
Definition fill (keys : list string) (parsed : gmap string json) : gmap string json :=
  let missing :=
    List.filter (λ k, negb (bool_decide (is_Some (parsed !! k)) || Js.inherited k)) keys in
  foldl (λ parsed k, <[k := JStr (fallback k)]> parsed) parsed missing.

(** The text that is given to [JSON.parse]: the answer without the white
    space around it, and without the fence if it has one. *)
Definition jsonStr (answer : string) : string :=
  let text := Str.trim answer in
  match exec fence_re text with
  | Some f => Str.trim (group 1 (f_caps f))
  | None => text
  end.

Section Service.

(** [JSON.parse] on an answer that is an object, by key; [None] when it
    throws, or when the answer is [null] or no object at all, so that
    the test [k in parsed] throws: both end in the [catch] branch.
    Answers that are arrays are left out of this model. *)
Variable JSON_parse : string → option (gmap string json).

(** [generateContent] from the text of the answer on. *)
Definition generateContent (answer : string) (keys : list string)
    : option (gmap string json) :=
  fill keys <$> JSON_parse (jsonStr answer).

End Service.

Definition CHUNK_SIZE : nat := 150.

(** [for (let i = 0; i < keys.length; i += CHUNK_SIZE)
      chunks.push(keys.slice(i, i + CHUNK_SIZE))];
    the loop ends within [keys.length] rounds. *)
Fixpoint chunks_from (fuel i : nat) (keys : list string) : list (list string) :=
  match fuel with
  | 0 => []
  | S fuel' =>
      if i <? length keys
      then take CHUNK_SIZE (drop i keys) :: chunks_from fuel' (i + CHUNK_SIZE) keys
      else []
  end.

Definition chunks (keys : list string) : list (list string) :=
  chunks_from (length keys) 0 keys.

(** A parsed answer that has the heading and lacks the paragraph. *)
Definition answered : gmap string json := {[ "h1" := JStr "Sleeping in a Tesla" ]}.

(** A well-formed placeholder of the section and the key stands in the
    template, between [pre] and [post]. *)
Definition occurs (html pre section key post : string) : Prop :=
  html = pre +:+ Build.placeholder section key +:+ post ∧
  section ≠ "" ∧ Str.all Build.section_chr section = true ∧
  key ≠ "" ∧ Str.all Build.key_chr key = true.

(** What the loop of [extractKeys] keeps: no section [shared], and in
    every section a list without repetition of keys whose placeholder is
    in the template. *)
Definition listed (html : string) (keys : gmap string (list string)) : Prop :=
  keys !! "shared" = None ∧
  ∀ section l, keys !! section = Some l →
    NoDup l ∧ l ≠ [] ∧
    ∀ key, key ∈ l → Str.includes (Build.placeholder section key) html = true.

End Guide.

(** ** Sample data *)

Module Scenarios.

(** A German dictionary without the section [home]. *)
Definition de_without_home : Build.dict :=
  {[ "shared" := {[ "nav_reviews" := "Bewertungen" ]} ]}.

(** A dictionary whose entry for the heading of [home] is empty. *)
Definition de_with_empty : Build.dict := {[ "home" := {[ "h1" := "" ]} ]}.


(** The text of a page that was built, or no text when the build threw. *)
Definition built (r : option (string * list string)) : string := default "" (fst <$> r).

(** [path.join] on segments free of dots and doubled slashes: empty
    segments are dropped and one slash separates the others. *)
Definition joinPath (segs : list string) : string :=
  foldl (λ acc seg,
           match acc, seg with
           | "", _ => seg
           | _, "" => acc
           | _, _ => if Str.endsWith "/" acc then acc +:+ seg else acc +:+ "/" +:+ seg
           end) "" segs.

(** A site of two pages, rendered for English alone from templates of
    which the disclosure page has no robots directive. *)
Definition PAGES : list Build.page :=
  [Build.Page "index.html" "index.html" "home";
   Build.Page "disclosure.html" "disclosure.html" "disclosure"].

Definition head_tpl (pk : string) : string :=
  Str.q "<!DOCTYPE html>" +:+ Str.nl +:+
  Str.q "<html lang='{{htmlLang}}'>" +:+ Str.nl +:+
  "<head>" +:+ Str.nl +:+
  "    <title>{{t." +:+ pk +:+ ".meta_title}}</title>" +:+ Str.nl +:+
  Str.q "    <link rel='canonical' href='{{canonicalUrl}}'>" +:+ Str.nl +:+
  "    {{hreflangTags}}" +:+ Str.nl +:+
  "</head>" +:+ Str.nl.

Definition home_tpl : string :=
  head_tpl "home" +:+
  Str.q "<body><h1>{{t.home.h1}}</h1><a href='/{{localePath}}disclosure'>{{t.shared.fl_disclosure}}</a></body></html>".

Definition disclosure_tpl : string :=
  head_tpl "disclosure" +:+
  Str.q "<body><h1>{{t.disclosure.h1}}</h1><a href='/{{localePath}}'>{{t.shared.nav_home}}</a></body></html>".

Definition en_dict : Build.dict :=
  {[ "shared" := {[ "fl_disclosure" := "Affiliate Disclosure"; "nav_home" := "Home" ]};
     "home" := {[ "meta_title" := "Tesla Mattress"; "h1" := "Sleep in your Tesla" ]};
     "disclosure" := {[ "meta_title" := "Disclosure"; "h1" := "Affiliate Disclosure" ]} ]}.

Definition tree : gmap string string :=
  {[ "index.html" := built (Build.buildPage Build.bare home_tpl (Build.Page "index.html" "index.html" "home") Build.en en_dict);
     "disclosure.html" := built (Build.buildPage Build.bare disclosure_tpl (Build.Page "disclosure.html" "disclosure.html" "disclosure") Build.en en_dict);
     "sitemap.xml" := Build.generateSitemap "2026-01-01" PAGES [Build.en] ]}.

Definition existsSync (p : string) : bool :=
  match tree !! p with Some _ => true | None => false end.
Definition readFileSync (p : string) : string := default "" (tree !! p).


Definition rendered : Verify.world :=
  Verify.World joinPath existsSync readFileSync PAGES [Build.en].

(** A source section of twelve keys, a German copy of ten, and a
    translation service that answers every request in full. *)
Definition source12 : Translate.section :=
  list_to_map ((λ k, (k, "text of " +:+ k)) <$>
    ["h1"; "h2"; "h2_2"; "h2_3"; "p"; "p_2"; "p_3"; "p_4"; "p_5"; "btn"; "meta_title";
     "meta_description"]).

Definition copy10 : Translate.section :=
  list_to_map ((λ k, (k, "Text von " +:+ k)) <$>
    ["h1"; "h2"; "h2_2"; "h2_3"; "p"; "p_2"; "p_3"; "p_4"; "p_5"; "btn"]).

Definition en12 : Translate.dict := {[ "home" := source12 ]}.

Definition german (sectionKey : string) (source : Translate.held) (locale : string)
    : Translate.answer :=
  match source with
  | Translate.Obj o => Translate.Answer ((λ v, "[" +:+ locale +:+ "] " +:+ v) <$> o)
  | Translate.Builtin _ => Translate.Answer ∅
  end.

(** A German locale file with the stale copy, and a selected section
    that the source does not have. *)
Definition stale : Translate.dict := {[ "home" := copy10 ]}.

Definition ghost : Translate.dict := {[ "ghost" := copy10 ]}.

(** A page on one line, its template after one extraction and after a
    second extraction of that template. *)
Definition raw_home : string :=
  Str.q "<html lang='en'><head><title>Home</title><link rel='canonical' href='https://teslamattress.com/'></head><body><ul class='nav-links'><li><a href='/reviews/'>Reviews</a></li></ul><h1>Best Mattress</h1></body></html>".

Definition template1 : string :=
  Str.q "<html lang='{{htmlLang}}'><head><title>{{t.home.meta_title}}</title><link rel='canonical' href='{{canonicalUrl}}'>" +:+ Str.nl +:+
  Str.q "    {{hreflangTags}}</head><body><ul class='nav-links'><li><a href='/{{localePath}}reviews/'>{{t.shared.nav_reviews}}</a></li></ul>" +:+ Str.nl +:+
  "        {{langSwitcher}}<h1>{{t.home.h1}}</h1></body></html>".

Definition template2 : string :=
  Str.q "<html lang='{{htmlLang}}'><head><title>{{t.home.meta_title}}</title><link rel='canonical' href='{{canonicalUrl}}'>" +:+ Str.nl +:+
  "    {{hreflangTags}}" +:+ Str.nl +:+
  Str.q "    {{hreflangTags}}</head><body><ul class='nav-links'><li><a href='/{{localePath}}reviews/'>{{t.shared.nav_reviews}}</a></li></ul>" +:+ Str.nl +:+
  "        {{langSwitcher}}" +:+ Str.nl +:+
  "        {{langSwitcher}}<h1>{{t.home.h1}}</h1></body></html>".

(** The text of a page entry of a dictionary. *)
Definition entry (d : Extract.dict) (section key : string) : option string :=
  d !! section ≫= (.!! key).

(** A review whose product has a description and a brand. *)
Definition brand : list (string * Extract.json) :=
  [("@type", Extract.JStr "Brand"); ("name", Extract.JStr "Acme")].

Definition product (description : string) : list (string * Extract.json) :=
  [("@type", Extract.JStr "Product");
   ("description", Extract.JStr description);
   ("brand", Extract.JObj brand)].

Definition reviewed (description : string) : Extract.json :=
  Extract.JObj [("@type", Extract.JStr "Review");
                ("itemReviewed", Extract.JObj (product description))].

Definition twelve_words : string :=
  "A twelve-word description of comfort and quality here.".

(** Pages without a JSON-LD block never reach the parser. *)
Definition no_parse : string → option Extract.json := λ _, None.
Definition no_stringify : Extract.json → string := λ _, "".

(** Pages that are a footer with a tagline. *)
Definition footer_page (tagline : string) : string :=
  Str.q "<footer class='footer'><p class='footer-tagline'>" +:+ tagline +:+
  "</p></footer>".

Definition tagline : string := "Independent Tesla mattress reviews".

Definition two_pages : list (string * option string) :=
  [("home", Some (footer_page tagline)); ("about", Some (footer_page "Sleep well"))].

(** A dictionary that has the tagline, and the result of a run from it. *)
Definition tagged : Extract.dict := Extract.addShared "footer_tagline" tagline Extract.locale0.

Definition two_pages_out : list (string * string) * Extract.dict :=
  default ([], tagged) (Extract.run no_parse no_stringify two_pages tagged).

(** The text stored under the shared key [footer_tagline] after a run. *)
Definition tagline_after (pages : list (string * option string)) (d : Extract.dict)
    : option string :=
  out ← Extract.run no_parse no_stringify pages d;
  Extract.section_of out.2 "shared" !! "footer_tagline".

(** A dictionary whose heading is itself a placeholder. *)
Definition nested : Build.dict := {[ "home" := {[ "h1" := "{{t.home.h2}}"; "h2" := "Hello" ]} ]}.

(** A dictionary with a section of a page that the run does not have. *)
Definition legal : Extract.dict := <["legal" := {[ "h1" := "Imprint" ]}]> tagged.

Definition two_pages_legal : list (string * string) * Extract.dict :=
  default ([], legal) (Extract.run no_parse no_stringify two_pages legal).

(** A registry, a dictionary with one page entry, and a run over the
    redirect page and a page behind it. *)
Definition registry : list string := ["home"; "about"; "discount_tesery"].

Definition with_home : Extract.dict := Extract.addString "home" "h1" "Best Mattress" Extract.locale0.

Definition redirect_pages : list (string * option string) :=
  [("discount_tesery", Some (Str.q "<html lang='en'><a href='/discounts/novapads'>Go</a></html>"));
   ("home", Some "<h1>Best Mattress</h1>")].

Definition redirect_out : list (string * string) * Extract.dict :=
  default ([], Extract.locale0) (Extract.run no_parse no_stringify redirect_pages Extract.locale0).

End Scenarios.

(** * Properties *)

(** ** Strings and the matcher *)

Module StrFacts.

Lemma s_app_cons (a : ascii) (s t : string) : String a s +:+ t = String a (s +:+ t).
Proof. done. Qed.

Lemma s_app_nil_l (s : string) : "" +:+ s = s.
Proof. done. Qed.

Lemma s_app_nil_r (s : string) : s +:+ "" = s.
Proof. induction s as [|a s IH]; [done | by rewrite s_app_cons, IH]. Qed.

Lemma s_app_assoc (s t u : string) : s +:+ (t +:+ u) = (s +:+ t) +:+ u.
Proof. induction s as [|a s IH]; [done | by rewrite !s_app_cons, IH]. Qed.

Lemma s_length_app (s t : string) :
  String.length (s +:+ t) = String.length s + String.length t.
Proof. induction s as [|a s IH]; [done | rewrite s_app_cons; cbn; by rewrite IH]. Qed.

Lemma s_take_app (s t : string) : Str.take (String.length s) (s +:+ t) = s.
Proof. induction s as [|a s IH]; [done | rewrite s_app_cons; cbn; by rewrite IH]. Qed.

Lemma s_drop_app (s t : string) : Str.drop (String.length s) (s +:+ t) = t.
Proof. induction s as [|a s IH]; [done | by rewrite s_app_cons]. Qed.

Lemma startsWith_app (p s : string) : Str.startsWith p (p +:+ s) = true.
Proof.
  induction p as [|a p IH]; [done |].
  rewrite s_app_cons; cbn. by rewrite Ascii.eqb_refl, IH.
Qed.

Lemma startsWith_inv (p s : string) :
  Str.startsWith p s = true → s = p +:+ Str.drop (String.length p) s.
Proof.
  revert s. induction p as [|a p IH]; intros s H.
  - done.
  - destruct s as [|b s]; [done |]. cbn in H.
    apply andb_true_iff in H as [Hab Hp]. apply Ascii.eqb_eq in Hab as ->.
    rewrite s_app_cons. cbn. by rewrite <- IH.
Qed.


Lemma run_drop (p : ascii → bool) (s : string) :
  s = Str.run p s +:+ Str.drop (String.length (Str.run p s)) s.
Proof.
  induction s as [|a s IH]; [done |]. cbn.
  destruct (p a); [| done]. rewrite s_app_cons. cbn. by rewrite <- IH.
Qed.

Lemma run_length_le (p : ascii → bool) (s : string) :
  String.length (Str.run p s) ≤ String.length s.
Proof. induction s as [|a s IH]; cbn; [lia |]. destruct (p a); cbn; lia. Qed.


Lemma run_app_stop (p : ascii → bool) (x y : string) :
  Str.all p x = true →
  match y with String a _ => p a = false | "" => True end →
  Str.run p (x +:+ y) = x.
Proof.
  intros Hx Hy. induction x as [|a x IH].
  - destruct y as [|b y]; [done |]. rewrite s_app_nil_l. cbn. by rewrite Hy.
  - cbn in Hx. apply andb_true_iff in Hx as [Ha Hx].
    rewrite s_app_cons. cbn. by rewrite Ha, IH.
Qed.

Lemma run_app_out (p : ascii → bool) (x y : string) (a : ascii) :
  p a = false → Str.run p (x +:+ String a y) = Str.run p x.
Proof.
  intros Ha. induction x as [|b x IH].
  - rewrite s_app_nil_l. cbn. by rewrite Ha.
  - rewrite s_app_cons. cbn. by rewrite IH.
Qed.

Lemma s_drop_app_le (n : nat) (x y : string) :
  n ≤ String.length x → Str.drop n (x +:+ y) = Str.drop n x +:+ y.
Proof.
  revert x. induction n as [|n IH]; intros x Hn.
  - by destruct x.
  - destruct x as [|a x]; [cbn in Hn; lia |].
    rewrite s_app_cons. cbn. apply IH. cbn in Hn. lia.
Qed.

Lemma startsWith_app_l (p x y : string) :
  Str.startsWith p x = true → Str.startsWith p (x +:+ y) = true.
Proof.
  intros H. apply startsWith_inv in H. rewrite H, <- s_app_assoc.
  apply startsWith_app.
Qed.

Lemma startsWith_length (p s : string) :
  Str.startsWith p s = true → String.length p ≤ String.length s.
Proof.
  intros H. apply startsWith_inv in H. rewrite H, s_length_app. lia.
Qed.

(** *** Occurrences *)

Lemma includes_here (p s : string) : Str.includes p (p +:+ s) = true.
Proof.
  pose proof (startsWith_app p s) as H.
  destruct (p +:+ s); cbn [Str.includes]; by rewrite H.
Qed.

Lemma includes_app_r (p a s : string) :
  Str.includes p s = true → Str.includes p (a +:+ s) = true.
Proof.
  intros H. induction a as [|c a IH]; [done |].
  rewrite s_app_cons. cbn [Str.includes]. rewrite IH. apply orb_true_r.
Qed.

Lemma includes_app_l (p s b : string) :
  Str.includes p s = true → Str.includes p (s +:+ b) = true.
Proof.
  induction s as [|c s IH]; cbn [Str.includes].
  - rewrite orb_false_r. intros H. destruct p; [by destruct b | done].
  - intros [H | H]%orb_true_iff.
    + pose proof (startsWith_app_l _ _ b H) as H'. rewrite s_app_cons in H' |- *.
      cbn [Str.includes]. by rewrite H'.
    + rewrite s_app_cons. cbn [Str.includes]. rewrite (IH H). apply orb_true_r.
Qed.

Lemma includes_mid (p a b : string) : Str.includes p (a +:+ p +:+ b) = true.
Proof. apply includes_app_r, includes_here. Qed.

Lemma includes_refl (p : string) : Str.includes p p = true.
Proof. rewrite <- (s_app_nil_r p) at 2. apply includes_here. Qed.

Lemma includes_join (sep x : string) (l : list string) :
  x ∈ l → Str.includes x (Str.join sep l) = true.
Proof.
  induction l as [|y l IH]; [by intros ?%elem_of_nil |].
  intros [-> | H]%elem_of_cons.
  - destruct l; cbn [Str.join]; [apply includes_refl | apply includes_here].
  - destruct l as [|z l]; [by apply elem_of_nil in H |].
    change (Str.join sep (y :: z :: l)) with (y +:+ sep +:+ Str.join sep (z :: l)).
    by apply includes_app_r, includes_app_r, IH.
Qed.

Lemma includes_concat (x : string) (l : list string) :
  x ∈ l → Str.includes x (foldr String.append "" l) = true.
Proof.
  induction l as [|y l IH]; [by intros ?%elem_of_nil |].
  intros [-> | H]%elem_of_cons; cbn [foldr].
  - apply includes_here.
  - by apply (includes_app_r x y), IH.
Qed.

End StrFacts.

Module ReFacts.
Import Re StrFacts.

Section Equations.
Context {A : Type} (k : kont A) (pos : nat) (s : string) (c : caps).

Lemma rmatch_seq r1 r2 :
  rmatch (Seq r1 r2) k pos s c = rmatch r1 (rmatch r2 k) pos s c.
Proof. done. Qed.

Lemma rmatch_chr a :
  rmatch (Chr a) k pos s c =
  match s with
  | String b s' => if Ascii.eqb a b then k (S pos) s' c else None
  | "" => None
  end.
Proof. done. Qed.

Lemma rmatch_cls p :
  rmatch (Cls p) k pos s c =
  match s with
  | String b s' => if p b then k (S pos) s' c else None
  | "" => None
  end.
Proof. done. Qed.

Lemma rmatch_star g r :
  rmatch (Star g r) k pos s c =
  star_loop g (rmatch r) k (String.length s) pos s c.
Proof. done. Qed.

Lemma rmatch_grp i r :
  rmatch (Grp i r) k pos s c =
  rmatch r (λ pos' s' c', k pos' s' ((i, Str.take (pos' - pos) s) :: c')) pos s c.
Proof. done. Qed.
End Equations.

Lemma rmatch_lit {A} (p : string) (k : kont A) pos s c :
  rmatch (lit p) k pos s c =
  if Str.startsWith p s
  then k (pos + String.length p) (Str.drop (String.length p) s) c else None.
Proof.
  revert pos s. induction p as [|a p IH]; intros pos s.
  - cbn. by rewrite Nat.add_0_r.
  - destruct p as [|b p].
    + cbn. destruct s as [|x s]; [done |]. cbn.
      destruct (Ascii.eqb a x); [| done]. cbn. by rewrite Nat.add_1_r.
    + change (lit (String a (String b p))) with (Seq (Chr a) (lit (String b p))).
      cbn [rmatch]. destruct s as [|x s]; [done |].
      cbn [Str.startsWith]. destruct (Ascii.eqb a x); [| done].
      rewrite IH. cbn [andb String.length Str.drop].
      by replace (S pos + S (String.length p)) with (pos + S (S (String.length p))) by lia.
Qed.

(** Greedy repetition of a class in front of a continuation that refuses
    every text starting in the class: the repetition takes the whole run. *)
Lemma star_cls {A} (p : ascii → bool) (k : kont A) n pos s c :
  String.length s ≤ n →
  (∀ pos' a s' c', p a = true → k pos' (String a s') c' = None) →
  star_loop true (rmatch (Cls p)) k n pos s c =
  k (pos + String.length (Str.run p s))
    (Str.drop (String.length (Str.run p s)) s) c.
Proof.
  intros Hn Hk. revert pos s Hn. induction n as [|n IH]; intros pos s Hn.
  - destruct s; [| cbn in Hn; lia]. cbn. by rewrite Nat.add_0_r.
  - destruct s as [|a s].
    + cbn. by rewrite Nat.add_0_r.
    + cbn [star_loop Str.run]. rewrite rmatch_cls. destruct (p a) eqn:Hp.
      * cbn [String.length Str.drop].
        replace (String.length s <? S (String.length s)) with true
          by (symmetry; apply Nat.ltb_lt; lia).
        rewrite IH by (cbn in Hn; lia).
        replace (S pos + String.length (Str.run p s))
          with (pos + S (String.length (Str.run p s))) by lia.
        destruct (k _ _ _) eqn:Hres; [done |]. by apply Hk.
      * cbn. by rewrite Nat.add_0_r.
Qed.

Lemma plus_cls {A} (p : ascii → bool) (k : kont A) pos s c :
  (∀ pos' a s' c', p a = true → k pos' (String a s') c' = None) →
  rmatch (plus (Cls p)) k pos s c =
  match Str.run p s with
  | "" => None
  | String _ _ =>
      k (pos + String.length (Str.run p s))
        (Str.drop (String.length (Str.run p s)) s) c
  end.
Proof.
  intros Hk. unfold plus. rewrite rmatch_seq, rmatch_cls.
  destruct s as [|a s]; [done |].
  cbn [Str.run]. destruct (p a) eqn:Hp; [| done].
  rewrite rmatch_star, star_cls by (done || lia).
  cbn [String.length Str.drop]. f_equal. lia.
Qed.


Lemma take_run (p : ascii → bool) (s : string) n :
  n = String.length (Str.run p s) → Str.take n s = Str.run p s.
Proof.
  intros ->. rewrite (run_drop p s) at 2. apply s_take_app.
Qed.

End ReFacts.

Module BuildFacts.
Import Re Build StrFacts ReFacts Scenarios.

Lemma placeholder_length section key :
  String.length (placeholder section key) =
  4 + String.length section + 1 + String.length key + 2.
Proof. unfold placeholder. rewrite !s_length_app. cbn. lia. Qed.

Lemma section_chr_not_dot a : section_chr a = true → Ascii.eqb "." a = false.
Proof.
  intros H. destruct (Ascii.eqb_spec "."%char a) as [<- |]; [| done].
  by vm_compute in H.
Qed.

Lemma key_chr_not_brace a : key_chr a = true → Ascii.eqb "}" a = false.
Proof.
  intros H. destruct (Ascii.eqb_spec "}"%char a) as [<- |]; [| done].
  by vm_compute in H.
Qed.

Lemma rmatch_placeholder {A} (k : kont A) pos s c :
  rmatch placeholder_re k pos s c =
  match placeholder_at s with
  | Some (section, key, rest) =>
      k (pos + String.length (placeholder section key)) rest
        ((2, key) :: (1, section) :: c)
  | None => None
  end.
Proof.
  unfold placeholder_re, placeholder_at. cbn [seqs].
  rewrite rmatch_seq, rmatch_lit.
  destruct (Str.startsWith "{{t." s); [| done].
  change (String.length "{{t.") with 4.
  set (s1 := Str.drop 4 s).
  rewrite rmatch_seq, rmatch_grp, plus_cls; cycle 1.
  { intros pos' a s' c' Ha. rewrite rmatch_seq, rmatch_chr.
    by rewrite (section_chr_not_dot a Ha). }
  destruct (Str.run section_chr s1) as [|x sec'] eqn:Hsec; [done |].
  rewrite rmatch_seq, rmatch_chr.
  destruct (Str.drop _ s1) as [|d s2] eqn:Hs2; [done |].
  destruct (Ascii.eqb_spec "."%char d) as [<- | Hd]; cycle 1.
  { destruct d as [[] [] [] [] [] [] [] []]; try done. }
  rewrite rmatch_seq, rmatch_grp, plus_cls; cycle 1.
  { intros pos' a s' c' Ha. rewrite rmatch_lit. cbn [Str.startsWith].
    by rewrite (key_chr_not_brace a Ha). }
  destruct (Str.run key_chr s2) as [|y key'] eqn:Hkey; [done |].
  rewrite rmatch_lit.
  destruct (Str.startsWith "}}" _); [| done].
  rewrite placeholder_length. change (String.length "}}") with 2.
  f_equal; [lia |]. f_equal; [f_equal | f_equal; f_equal].
  - rewrite <- Hkey. apply take_run. rewrite Hkey. lia.
  - rewrite <- Hsec. apply take_run. rewrite Hsec. lia.
Qed.


Lemma placeholder_at_inv s section key rest :
  placeholder_at s = Some (section, key, rest) →
  s = placeholder section key +:+ rest.
Proof.
  unfold placeholder_at, placeholder. intros H.
  destruct (Str.startsWith "{{t." s) eqn:H1; [| done].
  apply startsWith_inv in H1. change (String.length "{{t.") with 4 in H1.
  remember (Str.drop 4 s) as s1 eqn:E1. clear E1. subst s.
  pose proof (run_drop section_chr s1) as H2.
  remember (Str.run section_chr s1) as sec eqn:E2. clear E2.
  destruct sec as [|x sec']; [done |].
  remember (Str.drop _ s1) as t1 eqn:E3 in H, H2. clear E3. subst s1.
  destruct t1 as [|d s2]; [done |].
  destruct (Ascii.eqb_spec "."%char d) as [<- | Hd]; cycle 1.
  { destruct d as [[] [] [] [] [] [] [] []]; try done. }
  pose proof (run_drop key_chr s2) as H3.
  remember (Str.run key_chr s2) as ky eqn:E4. clear E4.
  destruct ky as [|y key']; [done |].
  remember (Str.drop _ s2) as t2 eqn:E5 in H, H3. clear E5. subst s2.
  destruct (Str.startsWith "}}" t2) eqn:H4; [| done].
  apply startsWith_inv in H4. change (String.length "}}") with 2 in H4.
  remember (Str.drop 2 t2) as t3 eqn:E6. clear E6. subst t2.
  injection H as <- <- <-.
  rewrite <- !s_app_assoc. done.
Qed.

Lemma match_here_placeholder pos s :
  match_here placeholder_re pos s =
  match placeholder_at s with
  | Some (section, key, rest) =>
      Some (Found pos (placeholder section key) [(2, key); (1, section)] rest)
  | None => None
  end.
Proof.
  unfold match_here. rewrite rmatch_placeholder.
  destruct (placeholder_at s) as [[[section key] rest]|] eqn:H; [| done].
  apply placeholder_at_inv in H as ->.
  replace (pos + _ - pos) with (String.length (placeholder section key)) by lia.
  by rewrite s_take_app.
Qed.


Lemma placeholder_at_here section key post :
  section ≠ "" → Str.all section_chr section = true →
  key ≠ "" → Str.all key_chr key = true →
  placeholder_at (placeholder section key +:+ post) = Some (section, key, post).
Proof.
  intros Hs1 Hs2 Hk1 Hk2. unfold placeholder_at, placeholder.
  rewrite <- !s_app_assoc. rewrite startsWith_app.
  change 4 with (String.length "{{t."). rewrite s_drop_app.
  rewrite run_app_stop by done.
  destruct section as [|x sec']; [done |]. rewrite s_drop_app.
  rewrite s_app_cons.
  rewrite s_app_nil_l, run_app_stop by done.
  destruct key as [|y key']; [done |]. rewrite s_drop_app.
  rewrite startsWith_app.
  change 2 with (String.length "}}"). by rewrite s_drop_app.
Qed.

(** A match attempted in front of a text that opens with two braces never
    reaches into that text. *)
Lemma placeholder_at_ext x Y :
  x ≠ "" →
  placeholder_at (x +:+ "{{" +:+ Y) =
  match placeholder_at x with
  | Some (section, key, rest) => Some (section, key, rest +:+ "{{" +:+ Y)
  | None => None
  end.
Proof.
  intros Hx. unfold placeholder_at.
  destruct (Str.startsWith "{{t." x) eqn:H1.
  - rewrite (startsWith_app_l _ _ _ H1).
    pose proof (startsWith_length _ _ H1) as Hlen.
    change (String.length "{{t.") with 4 in Hlen.
    rewrite s_drop_app_le by done.
    remember (Str.drop 4 x) as s1 eqn:E1. clear E1 H1 Hlen Hx x.
    change ("{{" +:+ Y) with (String "{" (String "{" Y)).
    rewrite run_app_out by done.
    pose proof (run_length_le section_chr s1) as Hle.
    destruct (Str.run section_chr s1) as [|a sec'] eqn:Hsec; [done |].
    rewrite s_drop_app_le by done.
    destruct (Str.drop _ s1) as [|d s2] eqn:Hs2; [done |].
    rewrite s_app_cons.
    destruct (Ascii.eqb_spec "."%char d) as [<- | Hd]; cycle 1.
    { destruct d as [[] [] [] [] [] [] [] []]; try done. }
    rewrite run_app_out by done.
    pose proof (run_length_le key_chr s2) as Hle2.
    destruct (Str.run key_chr s2) as [|b key'] eqn:Hkey; [done |].
    rewrite s_drop_app_le by done.
    destruct (Str.startsWith "}}" (Str.drop _ s2)) eqn:H4.
    + rewrite (startsWith_app_l _ _ _ H4).
      pose proof (startsWith_length _ _ H4) as Hlen.
      change (String.length "}}") with 2 in Hlen.
      by rewrite s_drop_app_le by done.
    + destruct (Str.drop _ s2) as [|c1 [|c2 t]]; [done | |].
      * rewrite s_app_cons, s_app_nil_l. cbn [Str.startsWith].
        change (Ascii.eqb "}" "{") with false.
        by rewrite andb_false_r.
      * rewrite !s_app_cons. cbn [Str.startsWith] in *. by rewrite H4.
  - change ("{{" +:+ Y) with (String "{" (String "{" Y)).
    destruct x as [|c1 [|c2 [|c3 [|c4 x]]]]; [done | | | |];
      rewrite ?s_app_cons, ?s_app_nil_l; cbn [Str.startsWith] in *.
    + change (Ascii.eqb "t" "{") with false.
      by rewrite !andb_false_r.
    + change (Ascii.eqb "t" "{") with false.
      change (Ascii.eqb "." "{") with false.
      by rewrite !andb_false_r.
    + change (Ascii.eqb "." "{") with false.
      by rewrite !andb_false_r.
    + by rewrite H1.
Qed.


Lemma placeholder_cons section key :
  ∃ t, placeholder section key = String "{" (String "{" t).
Proof. by eexists. Qed.

Section Runtime.
Variable builtin : string → string → Js.member.

Local Abbreviation resolve := (Build.resolve builtin).
Local Abbreviation resolved := (Build.resolved builtin).
Local Abbreviation replaceTranslations := (Build.replaceTranslations builtin).

(** One step of the scan of [replaceTranslations]. *)
Lemma replace_go_step ld f pos s st :
  replace_go (S f) placeholder_re (resolve ld) pos s st =
  match placeholder_at s with
  | Some (section, key, rest) =>
      let '(rep, st1) :=
        resolve ld
          (Found pos (placeholder section key) [(2, key); (1, section)] rest) st in
      let '(out, st2) :=
        replace_go f placeholder_re (resolve ld)
          (pos + String.length (placeholder section key)) rest st1 in
      (rep +:+ out, st2)
  | None =>
      match s with
      | "" => ("", st)
      | String a s' =>
          let '(out, st1) :=
            replace_go f placeholder_re (resolve ld) (S pos) s' st in
          (String a out, st1)
      end
  end.
Proof.
  cbn [replace_go]. rewrite match_here_placeholder.
  destruct (placeholder_at s) as [[[section key] rest]|]; [| done].
  destruct (Build.resolve builtin ld _ st) as [rep st1]. cbn [f_match f_rest].
  destruct (placeholder_cons section key) as [t ->]. done.
Qed.

Lemma resolve_index ld pos pos' m cs rest st :
  resolve ld (Found pos m cs rest) st = resolve ld (Found pos' m cs rest) st.
Proof. done. Qed.

Lemma resolve_rest ld pos pos' m cs rest rest' st :
  resolve ld (Found pos m cs rest) st = resolve ld (Found pos' m cs rest') st.
Proof. done. Qed.

Lemma behind_nil l : behind (Some []) l = l.
Proof. by destruct l. Qed.

Lemma behind_assoc st l1 l2 : behind (behind st l1) l2 = behind st (behind l1 l2).
Proof.
  destruct st as [log|], l1 as [a|], l2 as [b|]; cbn; try done.
  by rewrite app_assoc.
Qed.

Lemma resolve_log ld f st :
  resolve ld f st = let '(rep, l) := resolve ld f (Some []) in (rep, behind st l).
Proof.
  unfold Build.resolve. destruct (lookup _ _ _ _); destruct st; cbn; try done.
  by rewrite app_nil_r.
Qed.

(** The scan depends neither on the fuel, once it exceeds the length of
    the text, nor on the index at which the text starts. *)
Lemma replace_go_indep ld f f' pos pos' s st :
  String.length s < f → String.length s < f' →
  replace_go f placeholder_re (resolve ld) pos s st =
  replace_go f' placeholder_re (resolve ld) pos' s st.
Proof.
  revert f' pos pos' s st.
  induction f as [|f IH]; intros f' pos pos' s st Hf Hf'; [lia |].
  destruct f' as [|f']; [lia |]. rewrite !replace_go_step.
  destruct (placeholder_at s) as [[[section key] rest]|] eqn:Hs.
  - apply placeholder_at_inv in Hs as ->.
    rewrite s_length_app, placeholder_length in Hf, Hf'.
    rewrite (resolve_index ld pos pos').
    destruct (Build.resolve builtin ld _ st) as [rep st1].
    by rewrite (IH f' _ (pos' + String.length (placeholder section key))) by lia.
  - destruct s as [|a s]; [done |]. cbn in Hf, Hf'.
    by rewrite (IH f' _ (S pos')) by lia.
Qed.

Lemma replace_go_log ld f pos s st :
  replace_go f placeholder_re (resolve ld) pos s st =
  let '(out, l) := replace_go f placeholder_re (resolve ld) pos s (Some []) in
  (out, behind st l).
Proof.
  revert pos s st. induction f as [|f IH]; intros pos s st.
  - cbn [replace_go]. destruct st; cbn; [by rewrite app_nil_r | done].
  - rewrite !replace_go_step.
    destruct (placeholder_at s) as [[[section key] rest]|].
    + rewrite (resolve_log ld _ st).
      destruct (Build.resolve builtin ld _ (Some [])) as [rep l1].
      rewrite (IH _ _ (behind st l1)), (IH _ _ l1).
      destruct (replace_go f _ _ _ rest (Some [])) as [out l2].
      by rewrite behind_assoc.
    + destruct s as [|a s]; [destruct st; cbn; [by rewrite app_nil_r | done] |].
      rewrite (IH _ _ st).
      by destruct (replace_go f _ _ _ s (Some [])) as [out l2].
Qed.

(** The scan of a text in front of two opening braces stops at the braces
    and resumes there. *)
Lemma replace_go_app ld f1 f2 f3 x Y pos st :
  String.length x < f1 →
  String.length (x +:+ "{{" +:+ Y) < f2 →
  String.length ("{{" +:+ Y) < f3 →
  replace_go f2 placeholder_re (resolve ld) pos (x +:+ "{{" +:+ Y) st =
  let '(o1, l1) := replace_go f1 placeholder_re (resolve ld) pos x st in
  let '(o2, l2) :=
    replace_go f3 placeholder_re (resolve ld) (pos + String.length x)
      ("{{" +:+ Y) l1 in
  (o1 +:+ o2, l2).
Proof.
  revert f2 x pos st.
  induction f1 as [|f1 IH]; intros f2 x pos st H1 H2 H3; [lia |].
  destruct x as [|a x].
  - rewrite s_app_nil_l in *. rewrite (replace_go_step ld f1 pos "").
    cbn [placeholder_at Str.startsWith].
    rewrite (replace_go_indep ld f2 f3 pos (pos + 0)) by done.
    by destruct (replace_go f3 _ _ _ _ st) as [o2 l2].
  - destruct f2 as [|f2]; [lia |]. rewrite !replace_go_step.
    rewrite placeholder_at_ext by done.
    destruct (placeholder_at (String a x)) as [[[section key] rest]|] eqn:Hs.
    + apply placeholder_at_inv in Hs. rewrite Hs in H1, H2 |- *.
      rewrite <- !s_app_assoc in H2. rewrite !s_length_app, placeholder_length in H1, H2.
      destruct (Build.resolve builtin ld _ st) as [rep st1].
      rewrite (IH f2 rest) by (done || lia).
      destruct (replace_go f1 _ _ _ rest st1) as [o1 l1].
      rewrite s_length_app, Nat.add_assoc.
      destruct (replace_go f3 _ _ _ _ l1) as [o2 l2].
      by rewrite s_app_assoc.
    + rewrite s_app_cons. rewrite s_app_cons in H2. cbn in H1, H2.
      rewrite (IH f2 x) by lia.
      destruct (replace_go f1 _ _ _ x st) as [o1 l1].
      cbn [String.length]. replace (S pos + String.length x) with (pos + S (String.length x)) by lia.
      by destruct (replace_go f3 _ _ _ _ l1) as [o2 l2].
Qed.

Lemma placeholder_app section key post :
  placeholder section key +:+ post =
  "{{" +:+ "t." +:+ section +:+ "." +:+ key +:+ "}}" +:+ post.
Proof. unfold placeholder. by rewrite <- !s_app_assoc. Qed.

(** Rendering is compositional at a well-formed placeholder: the text
    before it and the text behind it are rendered on their own, and a
    throw on either side or at the placeholder is one of the whole. *)
Lemma replaceTranslations_at ld pre section key post :
  section ≠ "" → Str.all section_chr section = true →
  key ≠ "" → Str.all key_chr key = true →
  replaceTranslations (pre +:+ placeholder section key +:+ post) ld =
  '(o1, l1) ← replaceTranslations pre ld;
  '(rep, l) ← resolved ld section key;
  '(o2, l2) ← replaceTranslations post ld;
  Some (o1 +:+ rep +:+ o2, l1 ++ l ++ l2).
Proof.
  intros Hs1 Hs2 Hk1 Hk2. unfold Build.replaceTranslations, Build.resolved, replace_all.
  rewrite placeholder_app.
  rewrite (replace_go_app ld (S (String.length pre)) _
             (S (String.length (placeholder section key +:+ post))))
    by (rewrite <- ?placeholder_app; lia).
  destruct (replace_go _ _ _ 0 pre (Some [])) as [o1 l1].
  rewrite <- placeholder_app, replace_go_step, placeholder_at_here by done.
  rewrite (resolve_log ld _ l1).
  rewrite (resolve_rest ld _ 0 _ _ post "").
  destruct (Build.resolve builtin ld _ (Some [])) as [rep l].
  rewrite (replace_go_indep ld _ (S (String.length post)) _ 0)
    by (rewrite ?s_length_app, ?placeholder_length; lia).
  rewrite (replace_go_log ld _ _ _ (behind l1 l)).
  destruct (replace_go _ _ _ 0 post (Some [])) as [o2 l2].
  destruct l1 as [l1|], l as [l|], l2 as [l2|]; cbn; try done.
  by rewrite <- app_assoc.
Qed.

(** The dictionary has no entry for the section and the key, and neither
    has [Object.prototype] for the name that is then looked up: the key
    where the section is there, the section where it is not. *)
Lemma lookup_undefined (ld : dict) section key :
  ld !! section ≫= (.!! key) = None →
  Js.inherited (if ld !! section then key else section) = false →
  lookup builtin ld section key = Js.Undefined.
Proof.
  unfold lookup. destruct (ld !! section) as [sec|]; cbn; [| by intros _ ->].
  by intros -> ->.
Qed.

Lemma resolved_missing (ld : dict) section key :
  ld !! section ≫= (.!! key) = None →
  Js.inherited (if ld !! section then key else section) = false →
  resolved ld section key =
  Some (placeholder section key, ["    Missing: " +:+ section +:+ "." +:+ key]).
Proof.
  intros H1 H2. unfold Build.resolved, Build.resolve.
  cbn [f_caps f_match group Nat.eqb]. by rewrite lookup_undefined.
Qed.

Lemma resolved_present (ld : dict) section key sec v :
  ld !! section = Some sec → sec !! key = Some v →
  resolved ld section key = Some (v, []).
Proof.
  unfold Build.resolved, Build.resolve, lookup. cbn [f_caps f_match group Nat.eqb].
  by intros -> ->.
Qed.

Lemma resolved_inherited (ld : dict) section key sec :
  ld !! section = Some sec → sec !! key = None → Js.inherited key = true →
  resolved ld section key = Some (Js.inherited_text key, []).
Proof.
  unfold Build.resolved, Build.resolve, lookup. cbn [f_caps f_match group Nat.eqb].
  by intros -> -> ->.
Qed.

(** Rendering throws only where the runtime does. *)
Lemma replace_go_some ld f pos s st :
  (∀ name key, builtin name key ≠ Js.Throws) →
  is_Some st → is_Some (replace_go f placeholder_re (resolve ld) pos s st).2.
Proof.
  intros Hb. revert pos s st. induction f as [|f IH]; intros pos s st Hst; [done |].
  rewrite replace_go_step.
  destruct (placeholder_at s) as [[[section key] rest]|].
  - destruct (Build.resolve builtin ld _ st) as [rep st1] eqn:E.
    assert (is_Some st1) as H1.
    { revert E. unfold Build.resolve, lookup. cbn [f_caps f_match group Nat.eqb].
      destruct Hst as [log ->].
      destruct (ld !! section) as [sec|].
      - destruct (sec !! key); [by intros [= <- <-] |].
        by destruct (Js.inherited key); intros [= <- <-].
      - destruct (Js.inherited section); [| by intros [= <- <-]].
        pose proof (Hb section key) as Hn.
        by destruct (builtin section key); intros [= <- <-]. }
    specialize (IH (pos + String.length (placeholder section key)) rest st1 H1).
    by destruct (replace_go f _ _ _ rest st1).
  - destruct s as [|a s]; [done |].
    specialize (IH (S pos) s st Hst). by destruct (replace_go f _ _ _ s st).
Qed.

Lemma replaceTranslations_total ld html :
  (∀ name key, builtin name key ≠ Js.Throws) →
  is_Some (replaceTranslations html ld).
Proof.
  intros Hb. unfold Build.replaceTranslations, replace_all.
  pose proof (replace_go_some ld (S (String.length html)) 0 html (Some []) Hb
                ltac:(done)) as H.
  destruct (replace_go _ _ _ _ _ _) as [out [log|]]; [done | by destruct H].
Qed.


(** C10. A translation placeholder whose entry is present in the locale
    dictionary and is the empty text is replaced by the empty text: it
    leaves no trace in the rendered text, and no diagnostic is printed for
    it. *)
Theorem empty_translation_renders_empty
    (localeData : dict) (pre section key post : string) (sec : gmap string string) :
  section ≠ "" → Str.all section_chr section = true →
  key ≠ "" → Str.all key_chr key = true →
  localeData !! section = Some sec → sec !! key = Some "" →
  replaceTranslations (pre +:+ placeholder section key +:+ post) localeData =
  '(o1, l1) ← replaceTranslations pre localeData;
  '(o2, l2) ← replaceTranslations post localeData;
  Some (o1 +:+ o2, l1 ++ l2).
Proof.
  intros Hs1 Hs2 Hk1 Hk2 Hsec Hkey.
  rewrite replaceTranslations_at by done.
  rewrite (resolved_present _ _ _ _ _ Hsec Hkey).
  by destruct (Build.replaceTranslations builtin pre _) as [[o1 l1]|].
Qed.

End Runtime.



Lemma empty_translation_witness :
  replaceTranslations bare ("<h1>" +:+ placeholder "home" "h1" +:+ "</h1>") de_with_empty =
  Some ("<h1></h1>", []).
Proof.
  exact (empty_translation_renders_empty bare de_with_empty "<h1>" "home" "h1" "</h1>"
           {[ "h1" := "" ]}
           ltac:(discriminate) ltac:(reflexivity)
           ltac:(discriminate) ltac:(reflexivity)
           ltac:(reflexivity) ltac:(reflexivity)).
Defined.

End BuildFacts.

(** ** Text that holds no match *)

Module ScanFacts.
Import Re Build StrFacts ReFacts BuildFacts.

Lemma includes_drop (q s : string) (n : nat) :
  Str.includes q s = false → Str.includes q (Str.drop n s) = false.
Proof.
  revert n. induction s as [|a s IH]; intros [|n] H; try done.
  cbn in H. apply orb_false_iff in H as [_ H]. by apply IH.
Qed.

Lemma includes_startsWith (q s : string) :
  Str.includes q s = false → Str.startsWith q s = false.
Proof. destruct s; cbn; intros H; by apply orb_false_iff in H as [H _]. Qed.

Lemma startsWith_trans (q p s : string) :
  Str.startsWith q p = true → Str.startsWith p s = true → Str.startsWith q s = true.
Proof.
  revert p s. induction q as [|a q IH]; intros [|b p] [|c s]; cbn; try done.
  intros [Hab Hq]%andb_true_iff [Hbc Hp]%andb_true_iff.
  apply Ascii.eqb_eq in Hab as ->. rewrite Hbc. cbn. by apply (IH p).
Qed.

(** A pattern that matches at no suffix of the subject leaves it as it is. *)
Lemma replace_go_none {T} fuel r (fn : found → T → string * T) pos s st :
  String.length s < fuel →
  (∀ n pos', match_here r pos' (Str.drop n s) = None) →
  replace_go fuel r fn pos s st = (s, st).
Proof.
  revert fuel pos. induction s as [|a s IH]; intros [|fuel] pos Hf Hn; cbn in Hf; try lia.
  - pose proof (Hn 0 pos) as H0. cbn [Str.drop] in H0. cbn [replace_go]. by rewrite H0.
  - pose proof (Hn 0 pos) as H0. cbn [Str.drop] in H0. cbn [replace_go]. rewrite H0.
    rewrite IH; [done | lia |]. intros n pos'. apply (Hn (S n)).
Qed.

Lemma match_here_lit p pos s :
  match_here (lit p) pos s =
  if Str.startsWith p s
  then Some (Found pos (Str.take (String.length p) s) [] (Str.drop (String.length p) s))
  else None.
Proof.
  unfold match_here. rewrite rmatch_lit. destruct (Str.startsWith p s); [| done].
  by replace (pos + String.length p - pos) with (String.length p) by lia.
Qed.

Lemma replace_all_tpl_lit_none (q p v s : string) :
  Str.startsWith q p = true → Str.includes q s = false →
  replace_all_tpl (lit p) v s = s.
Proof.
  intros Hq Hs. unfold replace_all_tpl, replace_all_with, replace_all.
  rewrite replace_go_none; [done | lia |].
  intros n pos'. rewrite match_here_lit.
  destruct (Str.startsWith p (Str.drop n s)) eqn:E; [| done].
  pose proof (startsWith_trans _ _ _ Hq E) as H.
  by rewrite (includes_startsWith _ _ (includes_drop _ _ n Hs)) in H.
Qed.

Lemma placeholder_at_none s : Str.startsWith "{{t." s = false → placeholder_at s = None.
Proof. unfold placeholder_at. by intros ->. Qed.

Lemma replaceTranslations_none builtin (html : string) (ld : dict) :
  Str.includes "{{t." html = false →
  replaceTranslations builtin html ld = Some (html, []).
Proof.
  intros H. unfold replaceTranslations, replace_all.
  rewrite replace_go_none; [done | lia |].
  intros n pos'. rewrite match_here_placeholder, placeholder_at_none; [done |].
  apply includes_startsWith, includes_drop, H.
Qed.

Lemma includes_prefix (q p s : string) :
  Str.startsWith q p = true → Str.includes q s = false → Str.includes p s = false.
Proof.
  intros Hq. induction s as [|a s IH]; cbn.
  - intros H. apply orb_false_iff in H as [H _]. apply orb_false_iff. split; [| done].
    destruct (Str.startsWith p "") eqn:E; [| done].
    by rewrite (startsWith_trans _ _ _ Hq E) in H.
  - intros H. apply orb_false_iff in H as [H1 H2]. apply orb_false_iff. split; [| by apply IH].
    destruct (Str.startsWith p (String a s)) eqn:E; [| done].
    by rewrite (startsWith_trans _ _ _ Hq E) in H1.
Qed.

Lemma includes_char_app (c : ascii) (a b : string) :
  Str.includes (String c "") (a +:+ b) =
  Str.includes (String c "") a || Str.includes (String c "") b.
Proof.
  induction a as [|x a IH].
  - rewrite s_app_nil_l. cbn. by destruct b.
  - rewrite s_app_cons. cbn [Str.includes Str.startsWith].
    by rewrite IH, !andb_true_r, orb_assoc.
Qed.

(** A replacement text without a dollar sign stands for itself. *)
Lemma expand_plain (m : nat) (before : string) (f : found) (t : string) :
  Str.includes "$" t = false → expand m before f t = t.
Proof.
  induction t as [|a t IH]; [done |].
  cbn [Str.includes Str.startsWith]. rewrite andb_true_r.
  intros [Ha Ht]%orb_false_iff.
  destruct a as [[] [] [] [] [] [] [] []]; try done; cbn [expand]; by rewrite IH.
Qed.

End ScanFacts.

(** ** Rendering: the blocks that depend on the locale set *)

Module RenderFacts.
Import Re Build StrFacts ReFacts BuildFacts ScanFacts Scenarios.

(** The text of an alternate link of the hreflang block, of an entry of
    the Open Graph block, of an entry of the language switcher and of an
    alternate link of the sitemap, as the templates of the source spell
    them. *)
Local Abbreviation link_of lang target :=
  (Str.q "<link rel='alternate' hreflang='" +:+ lang +:+ Str.q "' href='" +:+
   target +:+ Str.q "'>").

Local Abbreviation og_of loc :=
  (Str.q "<meta property='og:locale:alternate' content='" +:+
   og_locale (LOCALE_CONFIG loc) +:+ Str.q "'>").

Local Abbreviation li_of pagePath loc current :=
  (Str.q "<li><a href='/" +:+ locale_path (LOCALE_CONFIG loc) +:+ pagePath +:+
   Str.q "'" +:+ (if locale_eqb loc current then Str.q " class='lang-active'" else "") +:+
   ">" +:+ flag (LOCALE_CONFIG loc) +:+ " " +:+ name (LOCALE_CONFIG loc) +:+ "</a></li>").

Local Abbreviation xlink_of lang target :=
  (Str.q "      <xhtml:link rel='alternate' hreflang='" +:+ lang +:+ Str.q "' href='" +:+
   target +:+ Str.q "'/>").

Local Abbreviation site path := ("https://teslamattress.com/" +:+ path).

(** The block holds a character only if the page path or the fixed text
    of the links does. *)
Lemma hreflang_block_free (c : ascii) (pagePath : string) :
  Str.includes (String c "") (generateHreflangTags "") = false →
  Str.includes (String c "") pagePath = false →
  Str.includes (String c "") (generateHreflangTags pagePath) = false.
Proof.
  intros H0 Hp. revert H0.
  change (generateHreflangTags pagePath) with
    (Str.join (Str.nl +:+ "    ")
       [link_of "en" (site pagePath);
        link_of "de" (site ("de/" +:+ pagePath));
        link_of "fr" (site ("fr/" +:+ pagePath));
        link_of "nb" (site ("no/" +:+ pagePath));
        link_of "da" (site ("da/" +:+ pagePath));
        link_of "sv" (site ("sv/" +:+ pagePath));
        link_of "x-default" (site pagePath)]).
  change (generateHreflangTags "") with
    (Str.join (Str.nl +:+ "    ")
       [link_of "en" (site ""); link_of "de" (site ("de/" +:+ ""));
        link_of "fr" (site ("fr/" +:+ "")); link_of "nb" (site ("no/" +:+ ""));
        link_of "da" (site ("da/" +:+ "")); link_of "sv" (site ("sv/" +:+ ""));
        link_of "x-default" (site "")]).
  cbn [Str.join]. rewrite !includes_char_app, Hp.
  change (Str.includes (String c "") "") with false.
  by rewrite !orb_false_r.
Qed.

(** C3. For every page path the hreflang block that is written is seven
    lines, each one link: for each of the six configured locales one
    alternate link with the language tag of the locale, to the page
    under the path prefix of that locale, and behind them one
    [x-default] link to the page without a prefix. The block is a
    function of the page path alone: for a page whose path holds no
    dollar sign and no brace, the build of the hreflang placeholder
    writes this block in every rendering locale, whatever the
    dictionary. *)
Theorem hreflang_cardinality (pagePath : string) :
  generateHreflangTags pagePath =
    Str.join (Str.nl +:+ "    ")
      [link_of "en" (site pagePath);
       link_of "de" (site ("de/" +:+ pagePath));
       link_of "fr" (site ("fr/" +:+ pagePath));
       link_of "nb" (site ("no/" +:+ pagePath));
       link_of "da" (site ("da/" +:+ pagePath));
       link_of "sv" (site ("sv/" +:+ pagePath));
       link_of "x-default" (site pagePath)] ∧
  ∀ (builtin : string → string → Js.member) (p : page) (l : locale) (localeData : dict),
    Build.pagePath p = pagePath →
    Str.includes "$" pagePath = false → Str.includes "{" pagePath = false →
    buildPage builtin "{{hreflangTags}}" p l localeData =
    Some (generateHreflangTags pagePath, []).
Proof.
  split; [reflexivity |]. intros builtin p l localeData Hp Hdollar Hbrace.
  pose proof (hreflang_block_free "$" pagePath eq_refl Hdollar) as H1.
  pose proof (hreflang_block_free "{" pagePath eq_refl Hbrace) as H2.
  unfold buildPage. cbv zeta. rewrite Hp.
  rewrite (replace_all_tpl_lit_none "{{htmlLang}}" "{{htmlLang}}") by reflexivity.
  rewrite (replace_all_tpl_lit_none "{{ogLocale}}" "{{ogLocale}}") by reflexivity.
  rewrite (replace_all_tpl_lit_none "{{localePath}}" "{{localePath}}") by reflexivity.
  rewrite (replace_all_tpl_lit_none "{{canonicalUrl}}" "{{canonicalUrl}}") by reflexivity.
  rewrite (replace_all_tpl_lit_none "{{pageUrl}}" "{{pageUrl}}") by reflexivity.
  assert (replace_all_tpl (lit "{{hreflangTags}}") (generateHreflangTags pagePath)
            "{{hreflangTags}}" = generateHreflangTags pagePath) as ->.
  { unfold replace_all_tpl, replace_all_with, replace_all.
    remember (S (String.length "{{hreflangTags}}")) as fuel eqn:Hfuel.
    destruct fuel as [|fuel]; [done |].
    cbn [replace_go]. rewrite match_here_lit.
    change (Str.startsWith "{{hreflangTags}}" "{{hreflangTags}}") with true.
    cbv iota. cbn [f_match f_rest f_index].
    change (Str.take (String.length "{{hreflangTags}}") "{{hreflangTags}}")
      with "{{hreflangTags}}".
    change (Str.drop (String.length "{{hreflangTags}}") "{{hreflangTags}}") with "".
    rewrite expand_plain by done.
    destruct fuel as [|fuel]; [done |]. cbn [replace_go]. rewrite match_here_lit.
    change (Str.startsWith "{{hreflangTags}}" "") with false.
    cbn [fst]. apply s_app_nil_r. }
  assert (Hbb : Str.includes "{{" (generateHreflangTags pagePath) = false)
    by (apply (includes_prefix "{"); [reflexivity | done]).
  rewrite (replace_all_tpl_lit_none "{{" "{{ogLocaleAlternates}}") by done.
  rewrite (replace_all_tpl_lit_none "{{" "{{langSwitcher}}") by done.
  apply replaceTranslations_none.
  apply (includes_prefix "{{"); [reflexivity | done].
Qed.

Lemma hreflang_witness :
  buildPage bare "{{hreflangTags}}" (Page "" "reviews/snuuzu.html" "snuuzu") de
    de_without_home =
  Some (generateHreflangTags "reviews/snuuzu", []).
Proof.
  exact (proj2 (hreflang_cardinality "reviews/snuuzu") bare
           (Page "" "reviews/snuuzu.html" "snuuzu") de de_without_home
           ltac:(reflexivity) ltac:(reflexivity) ltac:(reflexivity)).
Defined.

(** The block as the verifier reads it. *)
Example hreflang_values_of_block :
  Verify.hreflangValues (generateHreflangTags "reviews/snuuzu") =
  ["en"; "de"; "fr"; "nb"; "da"; "sv"; "x-default"].
Proof. vm_compute. reflexivity. Qed.

Lemma all_locales (loc : locale) : loc ∈ ALL_LOCALES.
Proof. destruct loc; unfold ALL_LOCALES; set_solver. Qed.

Lemma link_tag_alternate pagePath loc :
  link_tag (alternate pagePath loc) =
  link_of (hreflang (LOCALE_CONFIG loc))
          (site (locale_path (LOCALE_CONFIG loc) +:+ pagePath)).
Proof. by destruct loc. Qed.

Lemma url_tag_entry today p built :
  url_tag (sitemap_entry today p built) =
  "  <url>" +:+ Str.nl +:+
  "    <loc>" +:+ site (locale_path (LOCALE_CONFIG built) +:+ Build.pagePath p) +:+
  "</loc>" +:+ Str.nl +:+
  "    <lastmod>" +:+ today +:+ "</lastmod>" +:+ Str.nl +:+
  "    <changefreq>" +:+ u_changefreq (sitemap_entry today p built) +:+
  "</changefreq>" +:+ Str.nl +:+
  "    <priority>" +:+ u_priority (sitemap_entry today p built) +:+
  "</priority>" +:+ Str.nl +:+
  Str.join Str.nl
    [xlink_of "en" (site (Build.pagePath p));
     xlink_of "de" (site ("de/" +:+ Build.pagePath p));
     xlink_of "fr" (site ("fr/" +:+ Build.pagePath p));
     xlink_of "nb" (site ("no/" +:+ Build.pagePath p));
     xlink_of "da" (site ("da/" +:+ Build.pagePath p));
     xlink_of "sv" (site ("sv/" +:+ Build.pagePath p))] +:+ Str.nl +:+
  xlink_of "x-default" (site (Build.pagePath p)) +:+ Str.nl +:+
  "  </url>" +:+ Str.nl.
Proof. by destruct built. Qed.

(** C8. Whatever the locales loaded for a build, the blocks that are
    written name every configured locale: the hreflang block holds the
    alternate link of the locale, the Open Graph block of every other
    locale holds its entry, the language switcher holds its entry, marked
    active exactly for the current locale, and the sitemap holds, for
    every page and every loaded locale, an entry with the alternate links
    of all six configured locales and the [x-default] link. *)
Theorem blocks_enumerate_all_locales
    (today : string) (PAGES : list page) (loaded : list locale)
    (pagePath : string) (current loc : locale) :
  Str.includes
    (link_of (hreflang (LOCALE_CONFIG loc))
             (site (locale_path (LOCALE_CONFIG loc) +:+ pagePath)))
    (generateHreflangTags pagePath) = true ∧
  (loc ≠ current →
   Str.includes (og_of loc) (generateOgLocaleAlternates current) = true) ∧
  Str.includes (li_of pagePath loc current) (generateLangSwitcher pagePath current) = true ∧
  (∀ p built, p ∈ PAGES → built ∈ loaded →
     ∃ changefreq priority,
       Str.includes
         ("  <url>" +:+ Str.nl +:+
          "    <loc>" +:+ site (locale_path (LOCALE_CONFIG built) +:+ Build.pagePath p) +:+
          "</loc>" +:+ Str.nl +:+
          "    <lastmod>" +:+ today +:+ "</lastmod>" +:+ Str.nl +:+
          "    <changefreq>" +:+ changefreq +:+ "</changefreq>" +:+ Str.nl +:+
          "    <priority>" +:+ priority +:+ "</priority>" +:+ Str.nl +:+
          Str.join Str.nl
            [xlink_of "en" (site (Build.pagePath p));
             xlink_of "de" (site ("de/" +:+ Build.pagePath p));
             xlink_of "fr" (site ("fr/" +:+ Build.pagePath p));
             xlink_of "nb" (site ("no/" +:+ Build.pagePath p));
             xlink_of "da" (site ("da/" +:+ Build.pagePath p));
             xlink_of "sv" (site ("sv/" +:+ Build.pagePath p))] +:+ Str.nl +:+
          xlink_of "x-default" (site (Build.pagePath p)) +:+ Str.nl +:+
          "  </url>" +:+ Str.nl)
         (generateSitemap today PAGES loaded) = true).
Proof.
  pose proof (all_locales loc) as Hloc. repeat split.
  - rewrite <- link_tag_alternate. unfold generateHreflangTags.
    apply includes_join, list_elem_of_fmap_2. unfold hreflang_links.
    apply elem_of_app. left.
    apply (list_elem_of_fmap_2 (alternate pagePath)), Hloc.
  - intros Hne. by destruct loc, current.
  - unfold generateLangSwitcher. cbv zeta.
    do 11 apply includes_app_r. apply includes_app_l, includes_join.
    apply list_elem_of_fmap.
    exists (Item ("/" +:+ locale_path (LOCALE_CONFIG loc) +:+ pagePath)
                 (locale_eqb loc current)
                 (flag (LOCALE_CONFIG loc) +:+ " " +:+ name (LOCALE_CONFIG loc))).
    split; [by destruct loc, current |].
    unfold switcher_items.
    by apply (list_elem_of_fmap_2
             (λ loc, Item ("/" +:+ locale_path (LOCALE_CONFIG loc) +:+ pagePath)
                       (locale_eqb loc current)
                       (flag (LOCALE_CONFIG loc) +:+ " " +:+ name (LOCALE_CONFIG loc)))).
  - intros p built Hp Hb.
    exists (u_changefreq (sitemap_entry today p built)),
           (u_priority (sitemap_entry today p built)).
    rewrite <- url_tag_entry. unfold generateSitemap.
    do 6 apply includes_app_r. apply includes_app_l, includes_concat.
    apply list_elem_of_fmap_2. unfold sitemap_entries.
    apply list_elem_of_bind. exists p. split; [| done].
    by apply list_elem_of_fmap_2.
Qed.

Lemma blocks_enumerate_witness :
  let p := Page "index.html" "index.html" "home" in
  Str.includes (og_of de) (generateOgLocaleAlternates en) = true ∧
  ∃ changefreq priority,
    Str.includes
      ("  <url>" +:+ Str.nl +:+
       "    <loc>" +:+ site (locale_path (LOCALE_CONFIG en) +:+ Build.pagePath p) +:+
       "</loc>" +:+ Str.nl +:+
       "    <lastmod>" +:+ "2025-01-01" +:+ "</lastmod>" +:+ Str.nl +:+
       "    <changefreq>" +:+ changefreq +:+ "</changefreq>" +:+ Str.nl +:+
       "    <priority>" +:+ priority +:+ "</priority>" +:+ Str.nl +:+
       Str.join Str.nl
         [xlink_of "en" (site (Build.pagePath p));
          xlink_of "de" (site ("de/" +:+ Build.pagePath p));
          xlink_of "fr" (site ("fr/" +:+ Build.pagePath p));
          xlink_of "nb" (site ("no/" +:+ Build.pagePath p));
          xlink_of "da" (site ("da/" +:+ Build.pagePath p));
          xlink_of "sv" (site ("sv/" +:+ Build.pagePath p))] +:+ Str.nl +:+
       xlink_of "x-default" (site (Build.pagePath p)) +:+ Str.nl +:+
       "  </url>" +:+ Str.nl)
      (generateSitemap "2025-01-01" [p] [en]) = true.
Proof.
  intros p.
  pose proof (blocks_enumerate_all_locales "2025-01-01" [p] [en] "" en de)
    as (_ & Hog & _ & Hmap).
  split; [apply Hog; discriminate |].
  apply (Hmap p en); apply list_elem_of_here.
Defined.

(** A build for English alone: the page still links to the German one. *)
Example english_build_links_german :
  (loadLocales (Some [en]) (λ l, Some en_dict)).*1 = [en] ∧
  Str.includes (link_of "de" (site "de/"))
    (built (buildPage bare home_tpl (Page "index.html" "index.html" "home") en en_dict)) = true.
Proof. vm_compute. done. Qed.

End RenderFacts.

(** ** Refreshing a locale *)

Module TranslateFacts.
Import Translate Scenarios.

Lemma assign_lookup_ne ld pr k r k' :
  k' ≠ k → (assign ld pr k r).1 !! k' = ld !! k'.
Proof.
  intros Hne. unfold assign. destruct (_ && _); cbn [fst]; [done |].
  by rewrite lookup_insert_ne.
Qed.

Lemma assign_plain ld pr k r :
  k ≠ "__proto__" → assign ld pr k r = (<[k := Obj r]> ld, pr).
Proof.
  intros Hne. unfold assign. apply String.eqb_neq in Hne. by rewrite Hne.
Qed.

Lemma copy_ext ld ld' pr k : ld !! k = ld' !! k → copy ld pr k = copy ld' pr k.
Proof. unfold copy. by intros ->. Qed.

Section Loop.
Variable translateSection : string → held → string → answer.

Local Abbreviation step := (Translate.step translateSection).
Local Abbreviation translateLocale := (Translate.translateLocale translateSection).

(** One round in full: nothing, or one request and what it ends in. *)
Lemma step_cases en locale st k :
  step en locale st k = st ∨
  ∃ src, thrown st = false ∧ source en k = Some src ∧ upToDate st k src = false ∧
    step en locale st k =
    match translateSection k src locale with
    | Thrown =>
        State (localeData st) (proto st) (translated st) (failed st)
          (calls st ++ [(k, src)]) (writes st) true
    | Null =>
        State (localeData st) (proto st) (translated st) (S (failed st))
          (calls st ++ [(k, src)]) (writes st ++ [written (localeData st)]) false
    | Answer r =>
        State (assign (localeData st) (proto st) k r).1
          (assign (localeData st) (proto st) k r).2
          (S (translated st)) (failed st) (calls st ++ [(k, src)])
          (writes st ++ [written (assign (localeData st) (proto st) k r).1]) false
    end.
Proof.
  unfold Translate.step. destruct (thrown st) eqn:Ht; [by left |].
  destruct (source en k) as [src|]; [| by left].
  destruct (upToDate st k src) eqn:Hu; [by left |].
  right. exists src. repeat split; try done.
  destruct (translateSection k src locale); try done.
  by destruct (assign _ _ _ _).
Qed.

Lemma step_thrown en locale st k : thrown st = true → step en locale st k = st.
Proof. unfold Translate.step. by intros ->. Qed.

Lemma foldl_thrown en locale l st :
  thrown st = true → foldl (step en locale) st l = st.
Proof.
  induction l as [|k l IH]; intros Ht; [done |]. cbn [foldl].
  by rewrite step_thrown, IH.
Qed.

Lemma foldl_not_thrown en locale l st :
  thrown (foldl (step en locale) st l) = false → thrown st = false.
Proof.
  destruct (thrown st) eqn:Ht; [| done]. by rewrite foldl_thrown, Ht.
Qed.

Lemma foldl_step_inv (J : state → Prop) en locale l st :
  (∀ st k, k ∈ l → J st → J (step en locale st k)) → J st →
  J (foldl (step en locale) st l).
Proof.
  revert st. induction l as [|k l IH]; intros st HJ Hst; [done |].
  cbn [foldl]. apply IH.
  - intros st' k' Hk'. apply HJ. by apply list_elem_of_further.
  - apply HJ; [apply list_elem_of_here | done].
Qed.

Lemma step_frame en locale st k k' :
  k' ≠ k → localeData (step en locale st k) !! k' = localeData st !! k'.
Proof.
  intros Hne.
  destruct (step_cases en locale st k) as [-> | (src & _ & _ & _ & ->)]; [done |].
  destruct (translateSection k src locale); cbn [localeData]; try done.
  by apply assign_lookup_ne.
Qed.

Lemma foldl_step_frame en locale l st k' :
  k' ∉ l → localeData (foldl (step en locale) st l) !! k' = localeData st !! k'.
Proof.
  revert st. induction l as [|k l IH]; intros st Hk; [done |].
  apply not_elem_of_cons in Hk as [Hne Hk]. cbn [foldl].
  rewrite IH by done. by apply step_frame.
Qed.

Lemma step_proto en locale st k :
  k ≠ "__proto__" → proto (step en locale st k) = proto st.
Proof.
  intros Hne.
  destruct (step_cases en locale st k) as [-> | (src & _ & _ & _ & ->)]; [done |].
  destruct (translateSection k src locale); cbn [proto]; try done.
  by rewrite assign_plain.
Qed.

Lemma foldl_step_proto en locale l st :
  "__proto__" ∉ l → proto (foldl (step en locale) st l) = proto st.
Proof.
  intros Hl. apply (foldl_step_inv (λ s, proto s = proto st)); [| done].
  intros s k Hk <-. apply step_proto. by intros ->.
Qed.

Lemma step_calls en locale st k x :
  x ∈ calls (step en locale st k) → x ∈ calls st ∨ x.1 = k.
Proof.
  destruct (step_cases en locale st k) as [-> | (src & _ & _ & _ & ->)]; [by left |].
  destruct (translateSection k src locale); cbn [calls];
    intros [H | ->%list_elem_of_singleton]%elem_of_app; auto.
Qed.

Lemma foldl_step_calls en locale l st x :
  x ∈ calls (foldl (step en locale) st l) → x ∈ calls st ∨ x.1 ∈ l.
Proof.
  revert st. induction l as [|k l IH]; intros st; [by left |]. cbn [foldl].
  intros [H | H]%IH.
  - apply step_calls in H as [H | <-]; [by left | right; apply list_elem_of_here].
  - right. by apply list_elem_of_further.
Qed.

Lemma step_calls_mono en locale st k x :
  x ∈ calls st → x ∈ calls (step en locale st k).
Proof.
  intros Hx.
  destruct (step_cases en locale st k) as [-> | (src & _ & _ & _ & ->)]; [done |].
  destruct (translateSection k src locale); cbn [calls]; apply elem_of_app; by left.
Qed.

Lemma foldl_step_calls_mono en locale l st x :
  x ∈ calls st → x ∈ calls (foldl (step en locale) st l).
Proof.
  intros Hx. apply (foldl_step_inv (λ s, x ∈ calls s)); [| done].
  intros s k _. apply step_calls_mono.
Qed.

(** C4. In a round that no exception ends, over sections that are each
    listed once and none of which is [__proto__], a listed section that
    the source neither has nor inherits is passed over whatever the
    locale file holds. For a section of the source the translator is not
    asked exactly when the locale data has a copy with as many keys as
    the source section; then the copy stays as it is. In every other case
    the whole source section is sent; an answer replaces the copy as a
    whole, and after the answer [null] the copy stays as it is. *)
Theorem refresh_is_wholesale
    (en : dict) (sections : list string) (locale : string) (file : option dict)
    (k : string) :
  NoDup sections → "__proto__" ∉ sections → k ∈ sections →
  let ld0 := <["_meta" := metaOf locale]> (Obj <$> default ∅ file) in
  let st := translateLocale en sections locale file in
  let same src :=
    ∃ h, copy ld0 None k = Some (Held h) ∧ keyCount (Held h) = keyCount (Held src) in
  thrown st = false →
  match source en k with
  | None => (∀ x, (k, x) ∉ calls st) ∧ localeData st !! k = ld0 !! k
  | Some src =>
      (same src ↔ ∀ x, (k, x) ∉ calls st) ∧
      (same src → localeData st !! k = ld0 !! k) ∧
      (¬ same src →
       (k, src) ∈ calls st ∧
       match translateSection k src locale with
       | Answer r => localeData st !! k = Some (Obj r)
       | Null => localeData st !! k = ld0 !! k
       | Thrown => False
       end)
  end.
Proof.
  intros Hnd Hproto Hk ld0 st same Hthrown.
  apply list_elem_of_split in Hk as (l1 & l2 & Hsplit).
  rewrite Hsplit in Hnd, Hproto.
  apply NoDup_app in Hnd as (_ & Hl1 & [Hl2 _]%NoDup_cons).
  assert (k ∉ l1) as Hk1.
  { intros Hin. apply (Hl1 k Hin), list_elem_of_here. }
  apply not_elem_of_app in Hproto as [Hp1 [Hpk Hp2]%not_elem_of_cons].
  set (st0 := State ld0 None 0 0 [] [] false).
  set (stA := foldl (step en locale) st0 l1).
  set (stB := step en locale stA k).
  assert (Hst : st = foldl (step en locale) stB l2).
  { unfold st, Translate.translateLocale. fold ld0 st0. by rewrite Hsplit, foldl_app. }
  assert (HtB : thrown stB = false).
  { rewrite Hst in Hthrown. by apply foldl_not_thrown in Hthrown. }
  assert (HldA : localeData stA !! k = ld0 !! k) by (by apply foldl_step_frame).
  assert (HprA : proto stA = None) by (by apply foldl_step_proto).
  assert (HcA : ∀ x, (k, x) ∉ calls stA).
  { intros x Hx. apply foldl_step_calls in Hx as [Hx | Hx]; [by apply elem_of_nil in Hx | done]. }
  assert (Hld : localeData st !! k = localeData stB !! k).
  { rewrite Hst. by apply foldl_step_frame. }
  assert (Hc : ∀ x, (k, x) ∈ calls st → (k, x) ∈ calls stB).
  { intros x Hx. rewrite Hst in Hx. by apply foldl_step_calls in Hx as [Hx | Hx]. }
  assert (Hup : ∀ src, upToDate stA k src = true ↔ same src).
  { intros src. unfold upToDate, same. rewrite HprA, (copy_ext _ ld0 None k HldA).
    destruct (copy ld0 None k) as [[h|t]|] eqn:Hcopy.
    - cbn [truthy andb]. rewrite Nat.eqb_eq. split; [by exists h | by intros (? & [= <-] & ?)].
    - exfalso. revert Hcopy. unfold copy. destruct (ld0 !! k); [done |].
      by destruct (Js.inherited k).
    - split; [done | by intros (? & ? & _)]. }
  destruct (source en k) as [src|] eqn:Hsrc.
  - destruct (step_cases en locale stA k) as [HB | (src' & _ & Hs' & Hu & HB)].
    + (* no request *)
      fold stB in HB.
      assert (Hno : ∀ x, (k, x) ∉ calls st).
      { intros x Hx%Hc. rewrite HB in Hx. by apply (HcA x). }
      assert (Hsame : same src).
      { apply Hup. unfold stB, Translate.step in HB.
        rewrite (foldl_not_thrown en locale [k] stA) in HB
          by (cbn [foldl]; by fold stB).
        rewrite Hsrc in HB. destruct (upToDate stA k src) eqn:Hu; [done |].
        exfalso.
        assert (Hlen : length (calls stA) = length (calls stA ++ [(k, src)])).
        { destruct (translateSection k src locale);
            [| | destruct (assign _ _ _ _)];
            by apply (f_equal calls) in HB; cbn [calls] in HB; rewrite HB at 1. }
        rewrite length_app in Hlen. cbn in Hlen. lia. }
      split; [done |]. split; [intros _; by rewrite Hld, HB |]. done.
    + (* a request *)
      fold stB in HB. rewrite Hsrc in Hs'. injection Hs' as <-.
      assert (Hnot : ¬ same src).
      { intros Hs%Hup. congruence. }
      assert (Hin : (k, src) ∈ calls st).
      { rewrite Hst. apply foldl_step_calls_mono. rewrite HB.
        destruct (translateSection k src locale); cbn [calls]; set_solver. }
      split; [split; [done | intros Hno; by destruct (Hno _ Hin)] |].
      split; [done |]. intros _. split; [done |].
      rewrite Hld, HB. rewrite HB in HtB.
      destruct (translateSection k src locale); cbn [localeData thrown] in *; try done.
      rewrite assign_plain by (by intros ->). cbn [fst]. apply lookup_insert_eq.
  - assert (HB : stB = stA).
    { unfold stB, Translate.step. rewrite Hsrc. by destruct (thrown stA). }
    split; [| by rewrite Hld, HB].
    intros x Hx%Hc. rewrite HB in Hx. by apply (HcA x).
Qed.

End Loop.

(** Twelve source keys against a copy of ten: the section is sent and
    comes back with twelve keys. *)
Lemma refresh_witness :
  let st := translateLocale german en12 ["home"] "de" (Some stale) in
  ("home", Obj source12) ∈ calls st ∧
  localeData st !! "home" = Some (Obj ((λ v, "[de] " +:+ v) <$> source12)) ∧
  size source12 = 12 ∧ size copy10 = 10.
Proof.
  pose proof (refresh_is_wholesale german en12 ["home"] "de" (Some stale) "home"
                ltac:(apply NoDup_singleton) ltac:(set_solver) ltac:(set_solver)
                ltac:(reflexivity)) as H.
  cbv zeta in H. change (source en12 "home") with (Some (Obj source12)) in H.
  destruct H as (_ & _ & Hfull).
  assert (Hstale : ¬ ∃ h,
            copy (<["_meta" := metaOf "de"]> (Obj <$> default ∅ (Some stale))) None "home"
              = Some (Held h) ∧
            keyCount (Held h) = keyCount (Held (Obj source12))).
  { intros (h & Hh & Hsize). vm_compute in Hh. injection Hh as <-.
    vm_compute in Hsize. discriminate Hsize. }
  destruct (Hfull Hstale) as (Hcalls & Hres).
  split; [exact Hcalls |]. split; [exact Hres |]. split; by vm_compute.
Defined.

(** What the claim says of every selected section fails for one that the
    source does not have: the locale file has a copy of ten keys, the
    source has no such section, and the section is passed over without a
    request. *)
Lemma missing_source_section_is_skipped :
  let st := translateLocale german en12 ["ghost"] "de" (Some ghost) in
  en12 !! "ghost" = None ∧
  size <$> ghost !! "ghost" = Some 10 ∧
  calls st = [] ∧ writes st = [] ∧
  localeData st !! "ghost" = Some (Obj copy10).
Proof. by vm_compute. Qed.

End TranslateFacts.

(** ** The verifier *)

Module VerifyFacts.
Import Re Verify Scenarios.

Section Checks.
Variable w : world.

Local Abbreviation join := (w_join w).
Local Abbreviation existsSync := (w_existsSync w).
Local Abbreviation readFileSync := (w_readFileSync w).
Local Abbreviation PAGES := (w_PAGES w).
Local Abbreviation LOCALES := (w_LOCALES w).
Local Abbreviation locFile := (locFile w).
Local Abbreviation present := (present w).
Local Abbreviation content := (content w).
Local Abbreviation pairs := (pairs w).
Local Abbreviation count := (count w).

Lemma eachFile_pairs {T} (f : locale → page → string → T → T) (st : T) :
  eachFile w f st =
  foldl (λ st x, f x.1 x.2 (content x) st) st (List.filter present pairs).
Proof.
  unfold Verify.eachFile, Verify.pairs. revert st.
  induction LOCALES as [|loc locs IH]; intros st; [done |].
  cbn [foldl mbind list_bind]. rewrite List.filter_app, foldl_app, <- IH. f_equal.
  clear IH. revert st. induction PAGES as [|p ps IHp]; intros st; [done |].
  cbn [foldl fmap list_fmap List.filter]. unfold Verify.present at 1. cbn [fst snd].
  destruct (existsSync (locFile loc (output p))) eqn:He.
  - cbn [foldl]. unfold Verify.content at 1. cbn [fst snd]. apply IHp.
  - apply IHp.
Qed.

(** A loop whose round counts one error for a bad item and none
    otherwise, and never a warning. *)
Lemma foldl_errors {T X} (F : T → X → T) (rep : T → report) (bad : X → bool) :
  (∀ st x, errors (rep (F st x)) = errors (rep st) + (if bad x then 1 else 0) ∧
           warnings (rep (F st x)) = warnings (rep st)) →
  ∀ l st, errors (rep (foldl F st l)) =
            errors (rep st) + length (List.filter bad l) ∧
          warnings (rep (foldl F st l)) = warnings (rep st).
Proof.
  intros HF l. induction l as [|x l IH]; intros st; cbn [foldl].
  - cbn. lia.
  - destruct (IH (F st x)) as [IHe IHw]. destruct (HF st x) as [He Hw].
    rewrite IHe, IHw, He, Hw. cbn [List.filter]. split; [| done].
    destruct (bad x); cbn; lia.
Qed.

(** The same for warnings. *)
Lemma foldl_warnings {T X} (F : T → X → T) (rep : T → report) (bad : X → bool) :
  (∀ st x, warnings (rep (F st x)) = warnings (rep st) + (if bad x then 1 else 0) ∧
           errors (rep (F st x)) = errors (rep st)) →
  ∀ l st, warnings (rep (foldl F st l)) =
            warnings (rep st) + length (List.filter bad l) ∧
          errors (rep (foldl F st l)) = errors (rep st).
Proof.
  intros HF l. induction l as [|x l IH]; intros st; cbn [foldl].
  - cbn. lia.
  - destruct (IH (F st x)) as [IHe IHw]. destruct (HF st x) as [He Hw].
    rewrite IHe, IHw, He, Hw. cbn [List.filter]. split; [| done].
    destruct (bad x); cbn; lia.
Qed.

Lemma foldl_preserves {T X} (F : T → X → T) (g : T → nat) :
  (∀ st x, g (F st x) = g st) → ∀ l st, g (foldl F st l) = g st.
Proof.
  intros HF l. induction l as [|x l IH]; intros st; [done |].
  cbn [foldl]. by rewrite IH, HF.
Qed.

Lemma checkFileCount_counts r :
  errors (checkFileCount w r) = errors r + (missingFiles w) ∧
  warnings (checkFileCount w r) = warnings r.
Proof.
  unfold checkFileCount, missingFiles, Verify.pairs.
  change (errors r) with (errors (log (Str.nl +:+ "--- File count per locale ---") r)).
  change (warnings r) with (warnings (log (Str.nl +:+ "--- File count per locale ---") r)).
  generalize (log (Str.nl +:+ "--- File count per locale ---") r). clear r.
  induction LOCALES as [|loc locs IH]; intros r.
  - cbn. lia.
  - cbn [foldl mbind list_bind]. rewrite List.filter_app, length_app.
    match goal with |- context [foldl ?F (0, r) PAGES] =>
      pose proof (foldl_errors F snd
                    (λ p, negb (existsSync (locFile loc (output p))))) as Hin
    end.
    destruct (Hin (λ st p, ltac:(destruct st as [c r0]; cbn;
                     destruct (existsSync _); cbn; lia)) PAGES (0, r)) as [He Hw].
    clear Hin. destruct (foldl _ (0, r) PAGES) as [c r1]. cbn [snd] in He, Hw.
    assert (Hlen : length (List.filter (λ p, negb (existsSync (locFile loc (output p)))) PAGES)
                   = length (List.filter (λ x, negb (present x)) (pair loc <$> PAGES))).
    { clear. induction PAGES as [|p ps IHp]; [done |].
      cbn [fmap list_fmap List.filter]. unfold Verify.present at 1. cbn [fst snd].
      destruct (existsSync _); cbn; by rewrite IHp. }
    destruct (c =? length PAGES).
    + destruct (IH (pass (Build.code loc +:+ ": " +:+ Str.of_nat c +:+ "/" +:+
                          Str.of_nat (length PAGES) +:+ " files") r1)) as [IHe IHw].
      rewrite IHe, IHw. cbn [errors warnings pass]. lia.
    + destruct (IH r1) as [IHe IHw]. rewrite IHe, IHw. lia.
Qed.

(** The rounds of a check over the files: [tac] shows that a round counts
    one error exactly for a file that is [bad]. *)
Ltac count_errors bad tac :=
  match goal with
  | |- context [foldl ?F ?init ?l] =>
      let HF := fresh "HF" in
      assert (HF : ∀ st x,
                errors (snd (F st x)) =
                  errors (snd st) + (if bad x then 1 else 0) ∧
                warnings (snd (F st x)) = warnings (snd st)) by tac;
      destruct (foldl_errors F snd bad HF l init) as [He Hw]; clear HF;
      destruct (foldl F init l)
  end.

Lemma checkPlaceholders_counts r :
  let r' := checkPlaceholders w r in
  errors r' = errors r + count (λ x, unresolved (content x)) ∧
  warnings r' = warnings r.
Proof.
  unfold checkPlaceholders, Verify.count, files. rewrite eachFile_pairs.
  count_errors (λ x, unresolved (content x))
    ltac:(intros [c r1] x; unfold unresolved; cbn [fst snd];
          destruct (match_all placeholder_re (content x)); cbn; lia).
  cbn [snd errors warnings log] in He, Hw.
  destruct (_ =? 0); cbn [errors warnings pass]; lia.
Qed.

Lemma checkUndefined_counts r :
  let r' := checkUndefined w r in
  errors r' = errors r + count (λ x, leaked (content x)) ∧
  warnings r' = warnings r.
Proof.
  unfold checkUndefined, Verify.count, files. rewrite eachFile_pairs.
  count_errors (λ x, leaked (content x))
    ltac:(intros [c r1] x; unfold leaked; cbn [fst snd];
          destruct (match_all undefined_re (content x)); cbn; lia).
  cbn [snd errors warnings log] in He, Hw.
  destruct (_ =? 0); cbn [errors warnings pass]; lia.
Qed.

Lemma checkHtmlLang_counts r :
  let r' := checkHtmlLang w r in
  errors r' = errors r + count (λ x, wrongLang x.1 (content x)) ∧
  warnings r' = warnings r.
Proof.
  unfold checkHtmlLang, Verify.count, files. rewrite eachFile_pairs.
  count_errors (λ x, wrongLang x.1 (content x))
    ltac:(intros [c r1] x; unfold wrongLang; cbn [fst snd];
          destruct (exec html_lang_re (content x)); [destruct (String.eqb _ _) |];
          cbn; lia).
  cbn [snd errors warnings log] in He, Hw. cbn [errors warnings pass]. done.
Qed.

Lemma checkHreflang_counts r :
  let r' := checkHreflang w r in
  errors r' = errors r + count (λ x, incomplete x.2 (content x)) ∧
  warnings r' = warnings r.
Proof.
  unfold checkHreflang, Verify.count, files. rewrite eachFile_pairs.
  count_errors (λ x, incomplete x.2 (content x))
    ltac:(intros [[ok issues] r1] x; unfold incomplete; cbn [fst snd];
          destruct (String.eqb _ "discount_tesery"); cbn [negb andb snd]; [cbn; lia |];
          destruct (_ <? 7); cbn [orb snd]; [cbn; lia |];
          destruct (existsb _ _); cbn; lia).
  cbn [snd errors warnings log] in He, Hw. destruct p as [ok issues]. cbn [errors warnings pass]. done.
Qed.

Lemma checkSitemap_counts r :
  let r' := checkSitemap w r in
  errors r' =
    errors r + (if negb (sitemapPresent w) || sitemapLinkless w then 1 else 0) ∧
  warnings r' =
    warnings r + (if sitemapPresent w && sitemapCountOff w then 1 else 0).
Proof.
  unfold checkSitemap, sitemapPresent, sitemapCountOff, sitemapLinkless.
  destruct (existsSync (join ["sitemap.xml"])); cbn [negb orb andb].
  - destruct (_ =? _); destruct (0 <? _); cbn; lia.
  - cbn. lia.
Qed.

Lemma checkInternalLinks_counts r :
  warnings (checkInternalLinks w r) = warnings r + linkWarnings w ∧
  errors (checkInternalLinks w r) = errors r.
Proof.
  unfold checkInternalLinks. rewrite eachFile_pairs.
  match goal with
  | |- context [foldl ?F ?init ?l0] =>
      assert (HF : ∀ l st W,
                warnings st.2 = W + Nat.min st.1.2 10 →
                (foldl F st l).1.2 =
                  st.1.2 + list_sum ((λ x, brokenIn w (content x)) <$> l) ∧
                warnings (foldl F st l).2 = W + Nat.min (foldl F st l).1.2 10 ∧
                errors (foldl F st l).2 = errors st.2);
      [| destruct (HF l0 init (warnings r) ltac:(cbn; lia)) as (Hb & Hw & He);
         destruct (foldl F init l0) as [[checked broken] r1]]
  end.
  - clear. intros l. induction l as [|x l IH]; intros st W HW.
    { cbn. repeat split; (done || lia). }
    rewrite fmap_cons. cbn [foldl].
    change (list_sum (?h :: ?t)) with (h + list_sum t).
    match goal with
    | |- context [foldl ?F ?a l] =>
        assert (Hx : a.1.2 = st.1.2 + brokenIn w (content x) ∧
                     warnings a.2 = W + Nat.min a.1.2 10 ∧
                     errors a.2 = errors st.2);
        [| destruct Hx as (Hb & Hw & He);
           destruct (IH a W Hw) as (Hb' & Hw' & He');
           rewrite Hb', Hw', He', Hb, He; repeat split; try done; lia]
    end.
    cbn beta. unfold brokenIn. generalize (match_all href_re (content x)).
    intros links. revert st HW. induction links as [|link links IHl]; intros st HW.
    { cbn. repeat split; (done || lia). }
    cbn [foldl List.filter].
    match goal with
    | |- context [foldl ?F ?a links] =>
        assert (Hx : a.1.2 = st.1.2 + (if brokenLink w link then 1 else 0) ∧
                     warnings a.2 = W + Nat.min a.1.2 10 ∧
                     errors a.2 = errors st.2);
        [| destruct Hx as (Hb & Hw & He);
           destruct (IHl a Hw) as (Hb' & Hw' & He');
           rewrite Hb', Hw', He', Hb, He; repeat split; try done;
           destruct (brokenLink w link); cbn [length]; lia]
    end.
    destruct st as [[checked broken] r1]. cbn [fst snd] in *. unfold brokenLink.
    destruct (Str.includes "#" (quoted link)); cbn [negb andb fst snd];
      [repeat split; try done; lia |].
    destruct (test asset_re (quoted link)); cbn [negb andb fst snd];
      [repeat split; try done; lia |].
    destruct (Str.startsWith "/_vercel" (quoted link)); cbn [negb andb fst snd];
      [repeat split; try done; lia |].
    destruct (missing w (quoted link)); cbn [negb andb fst snd];
      [| repeat split; try done; lia].
    destruct (S broken <=? 10) eqn:E; cbn [warnings errors warn];
      [apply Nat.leb_le in E | apply Nat.leb_gt in E]; repeat split; lia.
  - cbn [fst snd] in *. unfold linkWarnings.
    assert (Hbr : brokenLinks w = broken) by (unfold brokenLinks, Verify.files; lia).
    rewrite Hbr.
    cbn [errors log] in He.
    destruct (broken =? 0) eqn:E; cbn [warnings errors warn pass];
      [apply Nat.eqb_eq in E | apply Nat.eqb_neq in E]; split; lia.
Qed.

Lemma checkNoindex_counts r :
  let r' := checkNoindex w r in
  warnings r' = warnings r + (noindexMissing w) ∧ errors r' = errors r.
Proof.
  unfold checkNoindex, noindexMissing.
  match goal with
  | |- context [foldl ?F ?init LOCALES] =>
      assert (HF : ∀ st loc,
                warnings (id (F st loc)) =
                  warnings (id st) +
                  (if existsSync (locFile loc "disclosure.html") &&
                      negb (Str.includes "noindex"
                              (readFileSync (locFile loc "disclosure.html")))
                   then 1 else 0) ∧
                errors (id (F st loc)) = errors (id st));
      [| destruct (foldl_warnings F id _ HF LOCALES init) as [Hw He]]
  end.
  - intros st loc. unfold id. destruct (existsSync _); cbn; [| lia].
    destruct (Str.includes _ _); cbn; lia.
  - unfold id in *. cbn [errors warnings log] in Hw, He. done.
Qed.

(** C5, amended. The errors counted by a run are the failures of the file
    count, placeholder, undefined-marker, language-attribute and hreflang
    checks and a sitemap that is missing or has no alternate link. The
    warnings counted are those of the broken internal links, one for each
    of the first ten and one for their summary, one for each disclosure
    page without the no-index directive, and one for a sitemap whose
    count is off. The exit status is 1 exactly when an error was counted,
    whatever the warnings. *)
Theorem exit_contract :
  let r := runChecks w in
  errors r =
    (missingFiles w) +
    count (λ x, unresolved (content x)) +
    count (λ x, leaked (content x)) +
    count (λ x, wrongLang x.1 (content x)) +
    count (λ x, incomplete x.2 (content x)) +
    (if negb (sitemapPresent w) || sitemapLinkless w then 1 else 0) ∧
  warnings r =
    (if sitemapPresent w && sitemapCountOff w then 1 else 0) +
    (Nat.min (brokenLinks w) 10 + (if brokenLinks w =? 0 then 0 else 1)) +
    noindexMissing w ∧
  (verify w = 1 ↔ errors r ≠ 0) ∧
  (verify w = 0 ↔ errors r = 0).
Proof.
  unfold verify, exitCode, runChecks.
  set (r0 := Report 0 0 _).
  destruct (checkFileCount_counts r0) as [E1 W1].
  set (r1 := checkFileCount w r0) in *.
  destruct (checkPlaceholders_counts r1) as [E2 W2].
  set (r2 := checkPlaceholders w r1) in *.
  destruct (checkUndefined_counts r2) as [E3 W3].
  set (r3 := checkUndefined w r2) in *.
  destruct (checkHtmlLang_counts r3) as [E4 W4].
  set (r4 := checkHtmlLang w r3) in *.
  destruct (checkHreflang_counts r4) as [E5 W5].
  set (r5 := checkHreflang w r4) in *.
  destruct (checkSitemap_counts r5) as [E6 W6].
  set (r6 := checkSitemap w r5) in *.
  destruct (checkInternalLinks_counts r6) as [W7 E7]. unfold linkWarnings in W7.
  set (r7 := checkInternalLinks w r6) in *.
  destruct (checkNoindex_counts r7) as [W8 E8].
  set (r8 := checkNoindex w r7) in *.
  assert (E0 : errors r0 = 0) by done. assert (W0 : warnings r0 = 0) by done.
  cbv zeta.
  destruct (0 <? errors r8) eqn:Hpos.
  - apply Nat.ltb_lt in Hpos. repeat split; try lia; try done.
  - apply Nat.ltb_ge in Hpos. repeat split; try lia; try done.
Qed.

End Checks.

(** C5 as stated fails: the disclosure page of the sample tree has no
    no-index directive, the check says so, and the run counts no error and
    ends with status 0. *)
Lemma noindex_failure_does_not_block :
  Str.includes "noindex" (readFileSync "disclosure.html") = false ∧
  noindexMissing rendered = 1 ∧
  errors (runChecks rendered) = 0 ∧
  warnings (runChecks rendered) = 1 ∧
  verify rendered = 0.
Proof. vm_compute. done. Qed.

End VerifyFacts.

(** ** Extraction *)

Module ExtractFacts.
Import Re Extract StrFacts ReFacts Scenarios.

(** *** Loops and replacers that keep a property of the state *)

Section Keeps.
Context {T : Type} (I : T → Prop).

Lemma replace1_keeps r (fn : found → T → string * T) s st :
  (∀ f st, I st → I (fn f st).2) → I st → I (replace1 r fn s st).2.
Proof.
  intros Hfn Hst. unfold replace1. destruct (exec r s) as [f|]; [| done].
  specialize (Hfn f st Hst). by destruct (fn f st).
Qed.

Lemma replace_go_keeps fuel r (fn : found → T → string * T) pos s st :
  (∀ f st, I st → I (fn f st).2) → I st → I (replace_go fuel r fn pos s st).2.
Proof.
  intros Hfn. revert pos s st.
  induction fuel as [|fuel IH]; intros pos s st Hst; [done |].
  cbn [replace_go]. destruct (match_here r pos s) as [f|].
  - specialize (Hfn f st Hst). destruct (fn f st) as [rep st1]. cbn [snd] in Hfn.
    destruct (f_match f), s;
      try (specialize (IH (S pos) s st1 Hfn); by destruct (replace_go fuel _ _ _ s st1));
      try done;
      match goal with
      | |- context [replace_go fuel r fn ?p ?x st1] =>
          specialize (IH p x st1 Hfn); by destruct (replace_go fuel r fn p x st1)
      end.
  - destruct s as [|a s]; [done |].
    specialize (IH (S pos) s st Hst). by destruct (replace_go fuel _ _ _ s st).
Qed.

Lemma replace_all_keeps r (fn : found → T → string * T) s st :
  (∀ f st, I st → I (fn f st).2) → I st → I (replace_all r fn s st).2.
Proof. apply replace_go_keeps. Qed.

Lemma while_exec_keeps fuel r (body : found → string → T → string * T)
    lastIndex line st out :
  (∀ f line st, I st → I (body f line st).2) → I st →
  while_exec fuel r body lastIndex line st = Some out → I out.2.
Proof.
  intros Hbody. revert lastIndex line st.
  induction fuel as [|fuel IH]; intros lastIndex line st Hst Hrun; [done |].
  cbn [while_exec] in Hrun. destruct (exec_from r lastIndex line) as [f|].
  - specialize (Hbody f line st Hst). destruct (body f line st) as [line' st'].
    by apply IH in Hrun.
  - by injection Hrun as <-.
Qed.

Lemma foldl_keeps {X S} (proj : S → T) (F : S → X → S) l st :
  (∀ st x, I (proj st) → I (proj (F st x))) → I (proj st) → I (proj (foldl F st l)).
Proof.
  intros HF. revert st. induction l as [|x l IH]; intros st Hst; [done |].
  cbn [foldl]. by apply IH, HF.
Qed.

End Keeps.


(** *** A shared text that is not empty stays *)

Section Kept.
Variables (key v : string).
Hypothesis Hv : v ≠ "".

Local Abbreviation kept := (kept key v).

Lemma section_of_insert_ne (d : dict) (s1 s2 : string) (m : gmap string string) :
  s1 ≠ s2 → section_of (<[s1 := m]> d) s2 = section_of d s2.
Proof using Type*. intros H. unfold section_of. by rewrite lookup_insert_ne. Qed.

Lemma section_of_insert (d : dict) (s1 : string) (m : gmap string string) :
  section_of (<[s1 := m]> d) s1 = m.
Proof using Type*. unfold section_of. by rewrite lookup_insert_eq. Qed.

Lemma addShared_kept k' v' d : kept d → kept (addShared k' v' d).
Proof using Type*.
  unfold Extract.kept, addShared. intros H.
  destruct (decide (k' = key)) as [-> | Hne].
  - rewrite H. by destruct v.
  - destruct (section_of d "shared" !! k') as [[|]|];
      rewrite ?section_of_insert, ?lookup_insert_ne; done.
Qed.

Lemma addString_kept pk k x d : pk ≠ "shared" → kept d → kept (addString pk k x d).
Proof using Type*. unfold Extract.kept, addString. intros Hpk H. by rewrite section_of_insert_ne. Qed.

Lemma reset_kept pk d : pk ≠ "shared" → kept d → kept (<[pk := ∅]> d).
Proof using Type*. unfold Extract.kept. intros Hpk H. by rewrite section_of_insert_ne. Qed.

Lemma toShared_kept k f d : kept d → kept (toShared k f d).2.
Proof using Type*. intros H. unfold toShared. cbn [snd]. by apply addShared_kept. Qed.

Section Page.
Variable pk : string.
Hypothesis Hpk : pk ≠ "shared".

Lemma extractMeta_kept html d : kept d → kept (extractMeta html pk d).2.
Proof using Type*.
  intros H. unfold extractMeta.
  pose proof (replace1_keeps kept title_re
    (λ f d, ("<title>" +:+ ph pk "meta_title" +:+ "</title>",
             addString pk "meta_title" (Str.trim (group 1 (f_caps f))) d)) html d) as H1.
  destruct (replace1 title_re _ html d) as [html1 d1]. cbn [snd] in H1.
  assert (Hd1 : kept d1).
  { apply H1; [| done]. intros f st Hst. cbn [snd]. by apply addString_kept. }
  clear H1. apply (foldl_keeps kept snd); [| done].
  intros [h st] [pattern k] Hst. cbn [snd] in *.
  apply replace1_keeps; [| done]. intros f st' Hst'.
  destruct (Str.trim _); cbn [snd]; [done |]. by apply addString_kept.
Qed.

Lemma extractField_kept prefix acc field :
  kept acc.2.2 → kept (extractField pk prefix acc field).2.2.
Proof using Type*.
  destruct acc as [ms [keyIdx d]]. cbn [snd]. intros H. unfold extractField.
  destruct (get field ms) as [[| | |value| |]|]; try done.
  destruct (_ && _); cbn [snd]; [| done]. by apply addString_kept.
Qed.

Lemma extractFields_kept prefix ms st :
  kept st.2 → kept (extractFields pk prefix ms st).2.2.
Proof using Type*.
  intros H. unfold extractFields.
  apply (foldl_keeps kept (λ acc, acc.2.2)); [| done].
  intros acc field. apply extractField_kept.
Qed.

Lemma walkItems_kept walk items :
  Forall (λ item, ∀ st, kept st.2 → kept (walk item st).2.2) items →
  ∀ st, kept st.2 → kept (walkItems walk items st).2.2.
Proof using Type*.
  induction 1 as [|item items Hitem _ IH]; intros st H; [exact H |].
  cbn [walkItems]. specialize (Hitem st H).
  destruct (walk item st) as [item' st1]. cbn [snd] in Hitem.
  specialize (IH st1 Hitem). by destruct (walkItems walk items st1).
Qed.

Lemma walkMembers_kept walk ms :
  Forall (λ m, ∀ st, kept st.2 → kept (walk m.2 st).2.2) ms →
  ∀ st, kept st.2 → kept (walkMembers walk ms st).2.2.
Proof using Type*.
  induction 1 as [|[k val] ms Hval _ IH]; intros st H; [exact H |].
  cbn [walkMembers]. cbn [snd] in Hval.
  assert (H1 : kept (if is_object val then walk val st else (val, st)).2.2).
  { destruct (is_object val); [by apply Hval | exact H]. }
  destruct (if is_object val then _ else _) as [val' st1]. cbn [snd] in H1.
  specialize (IH st1 H1). by destruct (walkMembers walk ms st1).
Qed.

Lemma walkAndExtract_kept prefix obj :
  ∀ st, kept st.2 → kept (walkAndExtract pk prefix obj st).2.2.
Proof using Type*.
  revert obj. fix IH 1. intros obj st H.
  destruct obj as [| b | n | s | items | ms]; try exact H.
  - cbn [walkAndExtract].
    assert (Hall : Forall (λ item, ∀ st, kept st.2 →
                             kept (walkAndExtract pk prefix item st).2.2) items).
    { induction items as [|item items IHitems]; constructor; [apply IH | exact IHitems]. }
    pose proof (walkItems_kept _ _ Hall st H) as H1.
    by destruct (walkItems _ items st).
  - cbn [walkAndExtract].
    pose proof (extractFields_kept prefix ms st H) as H1.
    destruct (extractFields pk prefix ms st) as [ms1 st1]. cbn [snd] in H1.
    assert (Hall : Forall (λ m, ∀ st, kept st.2 →
                             kept (walkAndExtract pk prefix m.2 st).2.2) ms).
    { induction ms as [|[k val] ms IHms]; constructor; [apply IH | exact IHms]. }
    pose proof (walkMembers_kept _ _ Hall st1 H1) as H2.
    by destruct (walkMembers _ ms st1).
Qed.

Variable JSON_parse : string → option json.
Variable JSON_stringify : json → string.

Lemma extractJsonLd_kept html d :
  kept d → kept (extractJsonLd JSON_parse JSON_stringify html pk d).2.
Proof using Type*.
  intros H. unfold extractJsonLd.
  match goal with |- context [replace_all jsonld_re ?fn html (0, d)] =>
    pose proof (replace_all_keeps (λ st : nat * dict, kept st.2) jsonld_re fn html (0, d))
      as H1;
    destruct (replace_all jsonld_re fn html (0, d)) as [html1 [idx d1]]
  end.
  cbn [snd] in *. apply H1; [| done]. clear H H1.
  intros f [i d0] Hd. cbn [snd] in *.
  destruct (JSON_parse _) as [json|]; [| done].
  pose proof (walkAndExtract_kept ("jsonld_" +:+ Str.of_nat (S i)) json (0, d0) Hd) as H.
  by destruct (walkAndExtract _ _ json (0, d0)) as [json' [k d']].
Qed.

Lemma templateNav_kept html d : kept d → kept (templateNav html d).2.
Proof using Type*.
  intros H. unfold templateNav. cbn [snd].
  apply (foldl_keeps kept id); [| done].
  intros st [text k] Hst. by apply addShared_kept.
Qed.

Lemma extractElement_kept re prefix checked subject cur st :
  kept st.2 → kept (extractElement pk re prefix checked subject cur st).2.2.
Proof using Type*.
  intros H. unfold extractElement. destruct (exec re subject) as [f|]; [| done].
  destruct (_ && _); [| done].
  destruct (nextKey prefix st.1) as [k cnt]. cbn [snd]. by apply addString_kept.
Qed.

Lemma elements_kept (re : string → regex) (prefix : string → string) checked l cur st :
  kept st.2 →
  kept (foldl (λ '(cur, st) cls,
                 extractElement pk (re cls) (prefix cls) checked cur cur st)
          (cur, st) l).2.2.
Proof using Type*.
  intros H. apply (foldl_keeps kept (λ acc, acc.2.2)); [| done].
  intros [c s] cls Hs. by apply extractElement_kept.
Qed.

Lemma tableHeader_kept f line d : kept d → kept (tableHeader f line d).2.
Proof using Type*.
  intros H. unfold tableHeader. destruct (Str.trim _); [done |].
  destruct (shouldSkip _); [done |]. cbn [snd]. by apply addShared_kept.
Qed.

Lemma dataLabel_kept f line d : kept d → kept (dataLabel f line d).2.
Proof using Type*.
  intros H. unfold dataLabel. destruct (Str.startsWith _ _); [done |].
  cbn [snd]. by apply addShared_kept.
Qed.

Lemma button_kept cur st : kept st.2 → kept (button pk cur st).2.2.
Proof using Type*.
  intros H. unfold button. destruct (exec btn_re cur) as [f|]; [| done].
  destruct (_ && _); [| done].
  destruct (find _ sharedBtns) as [[t k]|].
  - cbn [snd]. by apply addShared_kept.
  - destruct (nextKey "btn" st.1) as [k cnt]. cbn [snd]. by apply addString_kept.
Qed.

(** The next loop over a list of classes in the goal keeps the text. *)
Ltac keep_loop :=
  match goal with
  | |- context [foldl ?F ?init ?l] =>
      let Hk := fresh "Hk" in
      assert (Hk : kept (foldl F init l).2.2) by
        (apply (foldl_keeps kept (λ acc : string * body_state, acc.2.2));
         [ intros [? ?] ? ?; by apply extractElement_kept | assumption ]);
      destruct (foldl F init l) as [? ?]; cbn [snd] in Hk
  end.

Lemma bodyLine_kept line st out :
  kept st.2 → bodyLine pk line st = Some out → kept out.2.2.
Proof using Type*.
  intros H. unfold bodyLine.
  keep_loop.
  match goal with |- context [extractElement pk p_re "p" false ?c ?c ?s] =>
    pose proof (extractElement_kept p_re "p" false c c s Hk) as H2;
    destruct (extractElement pk p_re "p" false c c s) as [cur2 st2]
  end.
  cbn [snd] in H2.
  destruct (while_exec _ th_re tableHeader 0 cur2 st2.2) as [[cur3 d3]|] eqn:E3;
    [| done].
  pose proof (while_exec_keeps kept _ _ _ _ _ _ _ tableHeader_kept H2 E3) as H3.
  cbn [mbind option_bind snd] in *.
  destruct (while_exec _ data_label_re dataLabel 0 cur3 d3) as [[cur4 d4]|] eqn:E4;
    [| done].
  pose proof (while_exec_keeps kept _ _ _ _ _ _ _ dataLabel_kept H3 E4) as H4.
  cbn [mbind option_bind snd] in *.
  assert (H5 : kept (st2.1, d4).2) by done.
  keep_loop. keep_loop.
  match goal with |- context [button pk ?c ?s] =>
    pose proof (button_kept c s ltac:(assumption)) as H7;
    destruct (button pk c s) as [cur7 st7]
  end.
  cbn [snd] in H7.
  keep_loop.
  by intros [= <-].
Qed.

Lemma bodyLines_kept lines fl st out :
  kept st.2 → bodyLines pk lines fl st = Some out → kept out.2.2.
Proof using Type*.
  revert fl st out. induction lines as [|line lines IH]; intros fl st out H Hrun.
  - by injection Hrun as <-.
  - cbn [bodyLines] in Hrun.
    assert (Hskip : ∀ fl',
      ('(rest, st') ← bodyLines pk lines fl' st; Some (line :: rest, st')) = Some out →
      kept out.2.2).
    { intros fl' Hs. destruct (bodyLines pk lines fl' st) as [[rest st']|] eqn:E; [| done].
      injection Hs as <-. by apply (IH _ _ _ H E). }
    repeat (match type of Hrun with
            | context [if ?b then _ else _] => destruct b
            end; try by eapply Hskip).
    all: destruct (bodyLine pk line st) as [[cur st1]|] eqn:E1; [| done].
    all: pose proof (bodyLine_kept _ _ _ H E1) as H1.
    all: cbn [mbind option_bind] in Hrun.
    all: destruct (bodyLines pk lines _ st1) as [[rest st2]|] eqn:E2; [| done].
    all: injection Hrun as <-; by apply (IH _ _ _ H1 E2).
Qed.

Lemma extractBodyText_kept html d out :
  kept d → extractBodyText html pk d = Some out → kept out.2.
Proof using Type*.
  intros H. unfold extractBodyText.
  destruct (bodyLines pk _ _ (∅, d)) as [[lines st]|] eqn:E; [| done].
  intros [= <-]. by apply (bodyLines_kept _ _ (∅, d) _ H E).
Qed.

Lemma footerContent_kept content d : kept d → kept (footerContent content d).2.
Proof using Type*.
  intros H. unfold footerContent.
  pose proof (replace1_keeps kept (p_class_re "footer-tagline")
                (toShared "footer_tagline") content d (toShared_kept _) H) as H1.
  destruct (replace1 _ (toShared "footer_tagline") content d) as [c1 d1].
  cbn [snd] in H1.
  pose proof (replace1_keeps kept (div_re "footer-logo") (λ f d, (f_match f, d))
                c1 d1 (λ _ _ h, h) H1) as H2.
  destruct (replace1 (div_re "footer-logo") _ c1 d1) as [c2 d2]. cbn [snd] in H2.
  pose proof (foldl_keeps kept (λ acc : string * dict, acc.2)
    (λ '(content, d) '(text, k),
       (replace_str ("<h4>" +:+ text +:+ "</h4>")
          ("<h4>" +:+ ph "shared" k +:+ "</h4>") content, addShared k text d))
    h4Map (c2, d2)) as H3.
  destruct (foldl _ (c2, d2) h4Map) as [c3 d3]. cbn [snd] in H3.
  assert (Hd3 : kept d3).
  { apply H3; [| done]. intros [c dd] [text k] Hd. by apply addShared_kept. }
  clear H3.
  pose proof (foldl_keeps kept (λ acc : string * dict, acc.2)
    (λ '(content, d) '(text, k),
       (templateLinkText content (text, k), addShared k text d))
    footerLinks (c3, d3)) as H4.
  destruct (foldl _ (c3, d3) footerLinks) as [c4 d4]. cbn [snd] in H4.
  assert (Hd4 : kept d4).
  { apply H4; [| done]. intros [c dd] [text k] Hd. by apply addShared_kept. }
  clear H4.
  pose proof (replace1_keeps kept (p_class_re "disclaimer")
                (toShared "footer_disclaimer") c4 d4 (toShared_kept _) Hd4) as H5.
  destruct (replace1 _ (toShared "footer_disclaimer") c4 d4) as [c5 d5].
  cbn [snd] in H5.
  apply replace1_keeps; [| done].
  intros f st Hst. cbn [snd]. by apply addShared_kept.
Qed.

Lemma templateFooter_kept html d : kept d → kept (templateFooter html d).2.
Proof using Type*.
  intros H. unfold templateFooter. apply replace1_keeps; [| done].
  intros f st Hst. pose proof (footerContent_kept (group 2 (f_caps f)) st Hst) as H1.
  by destruct (footerContent _ st).
Qed.

Lemma regionName_kept name k html d : kept d → kept (regionName name k html d).2.
Proof using Type*.
  intros H. unfold regionName. apply replace_all_keeps; [| done].
  intros f st Hst. cbn [snd]. by apply addShared_kept.
Qed.

Lemma templateRegionPopup_kept html d : kept d → kept (templateRegionPopup html d).2.
Proof using Type*.
  intros H. unfold templateRegionPopup.
  pose proof (replace1_keeps kept region_title_re (toShared "region_title") html d
                (toShared_kept _) H) as H1.
  destruct (replace1 region_title_re _ html d) as [h1 d1]. cbn [snd] in H1.
  pose proof (replace1_keeps kept (p_class_re "region-popup-subtitle")
                (toShared "region_subtitle") h1 d1 (toShared_kept _) H1) as H2.
  destruct (replace1 (p_class_re _) _ h1 d1) as [h2 d2]. cbn [snd] in H2.
  pose proof (replace1_keeps kept region_discount_re (toShared "region_discount_text")
                h2 d2 (toShared_kept _) H2) as H3.
  destruct (replace1 region_discount_re _ h2 d2) as [h3 d3]. cbn [snd] in H3.
  pose proof (regionName_kept "Europe" "region_europe" h3 d3 H3) as H4.
  destruct (regionName "Europe" _ h3 d3) as [h4 d4]. cbn [snd] in H4.
  by apply regionName_kept.
Qed.

Lemma processPage_kept html d out :
  kept d → processPage JSON_parse JSON_stringify pk html d = Some out → kept out.2.
Proof using Type*.
  intros H. unfold processPage.
  pose proof (reset_kept pk d Hpk H) as H0.
  destruct (String.eqb pk "discount_tesery"); [by intros [= <-] |].
  pose proof (extractMeta_kept html _ H0) as H1.
  destruct (extractMeta html pk _) as [h1 d1]. cbn [snd] in H1.
  pose proof (extractJsonLd_kept (templateStructural h1) d1 H1) as H2.
  destruct (extractJsonLd _ _ _ pk d1) as [h2 d2]. cbn [snd] in H2.
  pose proof (templateNav_kept h2 d2 H2) as H3.
  destruct (templateNav h2 d2) as [h3 d3]. cbn [snd] in H3.
  destruct (extractBodyText h3 pk d3) as [[h4 d4]|] eqn:E4; [| done].
  pose proof (extractBodyText_kept _ _ _ H3 E4) as H4.
  cbn [mbind option_bind snd] in *.
  pose proof (templateFooter_kept h4 d4 H4) as H5.
  destruct (templateFooter h4 d4) as [h5 d5]. cbn [snd] in H5.
  pose proof (templateRegionPopup_kept h5 d5 H5) as H6.
  destruct (templateRegionPopup h5 d5) as [h6 d6]. cbn [snd] in H6.
  by intros [= <-].
Qed.

End Page.

Lemma run_kept JSON_parse JSON_stringify pages d out :
  Forall (λ p : string * option string, p.1 ≠ "shared") pages →
  kept d → run JSON_parse JSON_stringify pages d = Some out → kept out.2.
Proof using Type*.
  intros Hpages. revert d out.
  induction Hpages as [|[pk [html|]] pages Hpk _ IH]; intros d out H Hrun.
  - by injection Hrun as <-.
  - cbn [run] in Hrun.
    destruct (processPage _ _ pk html d) as [[t d1]|] eqn:E1; [| done].
    pose proof (processPage_kept pk Hpk _ _ _ _ _ H E1) as H1.
    cbn [mbind option_bind snd] in *.
    destruct (run _ _ pages d1) as [[ts d2]|] eqn:E2; [| done].
    injection Hrun as <-. by apply (IH _ _ H1 E2).
  - cbn [run] in Hrun. by apply (IH _ _ H Hrun).
Qed.

End Kept.

(** A pattern anchored at the start matches at index 0 or nowhere. *)
Lemma search_from_bol r pos s :
  pos ≠ 0 → search_from (Seq Bol r) pos s = None.
Proof.
  revert pos. induction s as [|a s IH]; intros pos Hpos.
  - cbn [search_from]. unfold match_here. rewrite rmatch_seq. cbn [rmatch].
    by destruct pos.
  - cbn [search_from]. unfold match_here. rewrite rmatch_seq. cbn [rmatch].
    destruct pos; [done |]. cbn [Nat.eqb]. by apply IH.
Qed.

Lemma test_bol r s :
  test (Seq Bol r) s = match match_here (Seq Bol r) 0 s with Some _ => true | None => false end.
Proof.
  unfold test, exec. destruct s as [|a s]; cbn [search_from].
  - by destruct (match_here _ 0 "").
  - destruct (match_here _ 0 _); [done |]. by rewrite search_from_bol.
Qed.

Lemma iso_date_length value :
  10 < String.length value → test iso_date_re value = false.
Proof.
  intros H. unfold iso_date_re. cbn [seqs]. rewrite test_bol.
  do 11 (destruct value as [|? value]; [cbn in H; lia |]).
  unfold match_here, digit. cbn [times].
  rewrite rmatch_seq. cbn [rmatch Nat.eqb].
  repeat (first [ rewrite rmatch_seq | rewrite rmatch_cls | rewrite rmatch_chr
                | progress cbn [rmatch] ];
          try match goal with
              | |- context [if ?b then _ else _] =>
                  match type of b with bool => destruct b; [| done] end
              end).
  repeat match goal with
         | |- context [if ?b then _ else _] =>
             match type of b with bool => destruct b end
         end; done.
Qed.


(** *** The claims about extraction *)

Lemma default_Some {A} (o : option A) (x : A) :
  (if o is Some _ then true else false) = true → o = Some (default x o).
Proof. by destruct o. Qed.

(** C1. Extraction is run on a page and then on the template it wrote.
    The second run appends a second block placeholder behind the
    canonical link and behind the navigation list, stores the placeholder
    of the title as the title text, and loses the heading. *)
Theorem extraction_not_idempotent
    (JSON_parse : string → option json) (JSON_stringify : json → string) :
  let once := processPage JSON_parse JSON_stringify "home" raw_home locale0 in
  let twice := out ← once; processPage JSON_parse JSON_stringify "home" out.1 out.2 in
  fst <$> once = Some template1 ∧
  fst <$> twice = Some template2 ∧
  template2 ≠ template1 ∧
  (out ← once; entry out.2 "home" "meta_title") = Some "Home" ∧
  (out ← twice; entry out.2 "home" "meta_title") = Some "{{t.home.meta_title}}" ∧
  (out ← once; entry out.2 "home" "h1") = Some "Best Mattress" ∧
  (out ← twice; entry out.2 "home" "h1") = None.
Proof.
  repeat split; try (vm_compute; reflexivity).
  intros H. apply (f_equal String.length) in H. vm_compute in H. discriminate H.
Qed.

(** C6. A title of blanks is taken out of the page and stored as the
    empty text, where a meta description of blanks is left alone. *)
Theorem blank_title_is_stored
    (JSON_parse : string → option json) (JSON_stringify : json → string) :
  let title := extractMeta "<title>   </title>" "home" locale0 in
  let meta := extractMeta (Str.q "<meta name='description' content='   '>") "home" locale0 in
  title.1 = "<title>{{t.home.meta_title}}</title>" ∧
  entry title.2 "home" "meta_title" = Some "" ∧
  meta.1 = Str.q "<meta name='description' content='   '>" ∧
  entry meta.2 "home" "meta_description" = None ∧
  (out ← processPage JSON_parse JSON_stringify "home" "<title>   </title>" locale0;
   entry out.2 "home" "meta_title") = Some "".
Proof. repeat split; vm_compute; reflexivity. Qed.

Lemma skipField_name_exempt value ms :
  get "@type" ms = Some (JStr "Brand") → skipField "name" value ms = true.
Proof.
  intros H. unfold skipField. rewrite H.
  change (String.eqb "name" "name") with true.
  change (truthy (Some (JStr "Brand"))) with true.
  change (existsb (String.eqb "Brand") exemptTypes) with true.
  cbn [andb]. by rewrite !orb_true_r.
Qed.

Lemma startsWith_https value :
  Str.startsWith "http" value = false → Str.startsWith "https" value = false.
Proof.
  destruct value as [|c1 [|c2 [|c3 [|c4 value]]]]; try done;
    cbn [Str.startsWith];
    destruct (Ascii.eqb "h" c1), (Ascii.eqb "t" c2), (Ascii.eqb "t" c3); try done.
  by destruct (Ascii.eqb "p" c4).
Qed.

(** C7, amended. In the field loop of the JSON-LD pass, the [name] of an
    object whose type is Brand is never taken out, whatever its length;
    a [description] longer than ten code units that does not start with
    http and does not contain schema.org is stored under the next
    numbered key of the block and replaced by its placeholder. *)
Theorem jsonld_brand_and_description
    (pk prefix : string) (brand product : list (string * json))
    (keyIdx : nat) (d : dict) (value : string) :
  get "@type" brand = Some (JStr "Brand") →
  get "description" product = Some (JStr value) →
  10 < String.length value →
  Str.startsWith "http" value = false →
  Str.includes "schema.org" value = false →
  let k := prefix +:+ "_description_" +:+ Str.of_nat (S keyIdx) in
  extractField pk prefix (brand, (keyIdx, d)) "name" = (brand, (keyIdx, d)) ∧
  extractField pk prefix (product, (keyIdx, d)) "description" =
    (set "description" (JStr (ph pk k)) product, (S keyIdx, addString pk k value d)).
Proof.
  intros Hty Hget Hlen Hhttp Hschema k. split.
  - unfold extractField.
    destruct (get "name" brand) as [[| | |name| |]|]; try done.
    rewrite (skipField_name_exempt _ _ Hty). by rewrite andb_false_r.
  - unfold extractField. rewrite Hget.
    apply Nat.ltb_lt in Hlen as Hlt. rewrite Hlt.
    assert (Hskip : skipField "description" value product = false).
    { unfold skipField.
      by rewrite Hhttp, (startsWith_https _ Hhttp), (iso_date_length _ Hlen), Hschema. }
    by rewrite Hskip.
Qed.

(** The scenario of the specification. *)
Lemma jsonld_scenario :
  let out := walkAndExtract "review" "jsonld_1" (reviewed twelve_words) (0, locale0) in
  out.1 = reviewed "{{t.review.jsonld_1_description_1}}" ∧
  out.2.1 = 1 ∧
  entry out.2.2 "review" "jsonld_1_description_1" = Some twelve_words ∧
  size (section_of out.2.2 "review") = 1.
Proof. repeat split; vm_compute; reflexivity. Qed.

Lemma jsonld_witness :
  extractField "review" "jsonld_1" (brand, (0, locale0)) "name" = (brand, (0, locale0)) ∧
  extractField "review" "jsonld_1" (product twelve_words, (0, locale0)) "description" =
    (product "{{t.review.jsonld_1_description_1}}",
     (1, addString "review" "jsonld_1_description_1" twelve_words locale0)).
Proof.
  exact (jsonld_brand_and_description "review" "jsonld_1" brand (product twelve_words)
           0 locale0 twelve_words
           ltac:(reflexivity) ltac:(reflexivity) ltac:(vm_compute; lia)
           ltac:(reflexivity) ltac:(vm_compute; reflexivity)).
Defined.

(** C7 as stated fails: a description that is longer than ten code units
    and starts like a URL stays in the block, and no key is made. *)
Lemma url_description_not_extracted :
  let url := "https://acme.example/comfort-and-quality" in
  let out := walkAndExtract "review" "jsonld_1" (reviewed url) (0, locale0) in
  10 < String.length url ∧
  out.1 = reviewed url ∧ out.2.1 = 0 ∧ out.2.2 !! "review" = None.
Proof. repeat split; vm_compute; (reflexivity || lia). Qed.

(** C9, amended. A shared key that holds a text that is not empty keeps
    it: adding the key again is a no-op, and after a run over any pages,
    none of them keyed [shared], the key still holds that text. *)
Theorem shared_nonempty_first_wins
    (JSON_parse : string → option json) (JSON_stringify : json → string)
    (key v : string) (pages : list (string * option string))
    (d : dict) (out : list (string * string) * dict) :
  v ≠ "" →
  section_of d "shared" !! key = Some v →
  Forall (λ p : string * option string, p.1 ≠ "shared") pages →
  run JSON_parse JSON_stringify pages d = Some out →
  (∀ v', addShared key v' d = d) ∧
  section_of out.2 "shared" !! key = Some v.
Proof.
  intros Hv Hd Hpages Hrun. split.
  - intros v'. unfold addShared. rewrite Hd. by destruct v.
  - by apply (run_kept key v Hv JSON_parse JSON_stringify pages d out).
Qed.

Lemma two_pages_run : run no_parse no_stringify two_pages tagged = Some two_pages_out.
Proof. apply default_Some. vm_compute. reflexivity. Qed.

Lemma shared_nonempty_witness :
  (∀ v', addShared "footer_tagline" v' tagged = tagged) ∧
  section_of two_pages_out.2 "shared" !! "footer_tagline" = Some tagline.
Proof.
  exact (shared_nonempty_first_wins no_parse no_stringify "footer_tagline" tagline
           two_pages tagged two_pages_out
           ltac:(discriminate) ltac:(vm_compute; reflexivity)
           ltac:(repeat constructor; discriminate) two_pages_run).
Defined.

(** C9 as stated fails: a tagline of blanks is stored as the empty text
    under its shared key, and the tagline of the next page replaces it. *)
Lemma empty_shared_value_is_overwritten :
  tagline_after [("home", Some (footer_page "  "))] locale0 = Some "" ∧
  tagline_after [("home", Some (footer_page "  ")); ("about", Some (footer_page tagline))]
    locale0 = Some tagline ∧
  section_of (addShared "footer_tagline" "" locale0) "shared" !! "footer_tagline"
    = Some "" ∧
  section_of (addShared "footer_tagline" tagline (addShared "footer_tagline" "" locale0))
    "shared" !! "footer_tagline" = Some tagline.
Proof. repeat split; vm_compute; reflexivity. Qed.

End ExtractFacts.

(** ** Further properties of rendering *)

Module Rendering.
Import Re Build StrFacts ReFacts BuildFacts ScanFacts RenderFacts Scenarios.

(** X2. A template that holds no double opening brace is rendered as it is
    for every page, locale and dictionary, with no diagnostic. *)
Theorem text_without_placeholders_renders_unchanged
    (builtin : string → string → Js.member)
    (tpl : string) (p : page) (l : locale) (localeData : dict) :
  Str.includes "{{" tpl = false →
  buildPage builtin tpl p l localeData = Some (tpl, []).
Proof.
  intros H. unfold buildPage.
  repeat (rewrite (replace_all_tpl_lit_none "{{" _ _ tpl) by done).
  apply replaceTranslations_none. by apply (includes_prefix "{{").
Qed.

Lemma text_without_placeholders_witness :
  buildPage bare "<p>a { b } c</p>" (Page "x.html" "x.html" "x") de de_without_home =
  Some ("<p>a { b } c</p>", []).
Proof.
  exact (text_without_placeholders_renders_unchanged bare "<p>a { b } c</p>"
           (Page "x.html" "x.html" "x") de de_without_home ltac:(reflexivity)).
Defined.

(** *** A literal at the end of the subject *)

Lemma s_take_all (s : string) : Str.take (String.length s) s = s.
Proof. rewrite <- (s_app_nil_r s) at 2. apply s_take_app. Qed.

Lemma s_drop_all (s : string) : Str.drop (String.length s) s = "".
Proof. rewrite <- (s_app_nil_r s) at 2. apply s_drop_app. Qed.

Lemma match_here_suffix p pos s :
  match_here (Seq (lit p) Eol) pos s =
  if String.eqb s p then Some (Found pos p [] "") else None.
Proof.
  unfold match_here. rewrite rmatch_seq, rmatch_lit.
  destruct (String.eqb s p) eqn:E.
  - apply String.eqb_eq in E as ->.
    pose proof (startsWith_app p "") as Hp. rewrite s_app_nil_r in Hp.
    rewrite Hp, s_drop_all. cbn.
    replace (pos + String.length p - pos) with (String.length p) by lia.
    by rewrite s_take_all.
  - destruct (Str.startsWith p s) eqn:Hp; [| done].
    apply startsWith_inv in Hp.
    destruct (Str.drop (String.length p) s) eqn:Hd; [| done].
    rewrite s_app_nil_r in Hp. subst s. by rewrite String.eqb_refl in E.
Qed.

Lemma search_suffix_found p x pos :
  search_from (Seq (lit p) Eol) pos (x +:+ p) =
  Some (Found (pos + String.length x) p [] "").
Proof.
  revert pos. induction x as [|a x IH]; intros pos.
  - rewrite s_app_nil_l. destruct p; cbn [search_from]; rewrite match_here_suffix, String.eqb_refl;
      by rewrite Nat.add_0_r.
  - rewrite s_app_cons. cbn [search_from]. rewrite match_here_suffix.
    destruct (String.eqb (String a (x +:+ p)) p) eqn:E.
    + apply String.eqb_eq, (f_equal String.length) in E.
      cbn in E. rewrite s_length_app in E. lia.
    + rewrite IH. cbn. do 2 f_equal. lia.
Qed.

Lemma search_suffix_none p s pos :
  (∀ x, s ≠ x +:+ p) → search_from (Seq (lit p) Eol) pos s = None.
Proof.
  revert pos. induction s as [|a s IH]; intros pos H.
  - cbn [search_from]. rewrite match_here_suffix.
    destruct (String.eqb "" p) eqn:E; [| done].
    apply String.eqb_eq in E. subst p. by destruct (H "").
  - cbn [search_from]. rewrite match_here_suffix.
    destruct (String.eqb (String a s) p) eqn:E.
    + apply String.eqb_eq in E. destruct (H ""). by rewrite s_app_nil_l.
    + apply IH. intros x ->. destruct (H (String a x)). by rewrite s_app_cons.
Qed.

Lemma strip_suffix_found p x : replace1_tpl (Seq (lit p) Eol) "" (x +:+ p) = x.
Proof.
  unfold replace1_tpl, exec. rewrite search_suffix_found. cbn.
  by rewrite s_take_app, s_app_nil_l, s_app_nil_r.
Qed.

Lemma strip_suffix_none p s :
  (∀ x, s ≠ x +:+ p) → replace1_tpl (Seq (lit p) Eol) "" s = s.
Proof. intros H. unfold replace1_tpl, exec. by rewrite search_suffix_none. Qed.

Lemma s_take_drop (n : nat) (s : string) : Str.take n s +:+ Str.drop n s = s.
Proof.
  revert n. induction s as [|a s IH]; intros [|n]; cbn; try done.
  by rewrite s_app_cons, IH.
Qed.

Lemma endsWith_app (q x : string) : Str.endsWith q (x +:+ q) = true.
Proof.
  unfold Str.endsWith. rewrite s_length_app.
  replace (String.length x + String.length q - String.length q) with (String.length x) by lia.
  rewrite s_drop_app, String.eqb_refl, andb_true_r. apply Nat.leb_le. lia.
Qed.

Lemma endsWith_inv (q s : string) :
  Str.endsWith q s = true →
  s = Str.take (String.length s - String.length q) s +:+ q.
Proof.
  unfold Str.endsWith. intros [_ H]%andb_true_iff. apply String.eqb_eq in H.
  set (n := String.length s - String.length q) in *.
  rewrite <- H. by rewrite s_take_drop.
Qed.

Lemma strip_suffix_spec (q s : string) :
  replace1_tpl (Seq (lit q) Eol) "" s = strip_suffix q s.
Proof.
  unfold strip_suffix. destruct (Str.endsWith q s) eqn:E.
  - rewrite (endsWith_inv _ _ E) at 1. apply strip_suffix_found.
  - apply strip_suffix_none. intros x ->. by rewrite endsWith_app in E.
Qed.

(** X3. The page path of a page is its output path without the file name
    [index.html] at its end, and then without the extension [.html] at
    the end of what is left. *)
Theorem pagePath_strips_index_then_extension (p : page) :
  pagePath p = strip_suffix ".html" (strip_suffix "index.html" (output p)).
Proof. unfold pagePath. by rewrite !strip_suffix_spec. Qed.

Example pagePath_samples :
  pagePath (Page "" "index.html" "home") = "" ∧
  pagePath (Page "" "reviews/index.html" "reviews") = "reviews/" ∧
  pagePath (Page "" "reviews/snuuzu.html" "snuuzu") = "reviews/snuuzu" ∧
  pagePath (Page "" "robots.txt" "robots") = "robots.txt".
Proof. by vm_compute. Qed.

(** *** What the build leaves, the verifier finds *)

Lemma matches_go_found r fuel pos pre X :
  (∀ pos', match_here r pos' X ≠ None) →
  String.length (pre +:+ X) < fuel →
  matches_go fuel r pos (pre +:+ X) ≠ [].
Proof.
  intros HX. revert fuel pos. induction pre as [|a pre IH]; intros [|fuel] pos Hf;
    try (cbn in Hf; lia).
  - rewrite s_app_nil_l. cbn [matches_go].
    destruct (match_here r pos X) as [f|] eqn:E; [| by destruct (HX pos)].
    by destruct (f_match f), X.
  - rewrite s_app_cons in *. cbn [matches_go].
    destruct (match_here r pos (String a (pre +:+ X))) as [f|] eqn:E.
    + by destruct (f_match f).
    + apply IH. cbn in Hf. lia.
Qed.

Lemma all_app (p : ascii → bool) (x y : string) :
  Str.all p (x +:+ y) = Str.all p x && Str.all p y.
Proof.
  induction x as [|a x IH]; [by rewrite s_app_nil_l |].
  rewrite s_app_cons. cbn. by rewrite IH, andb_assoc.
Qed.

Lemma all_impl (p q : ascii → bool) (s : string) :
  (∀ a, p a = true → q a = true) → Str.all p s = true → Str.all q s = true.
Proof.
  intros H. induction s as [|a s IH]; [done |]. cbn.
  intros [Ha Hs]%andb_true_iff. by rewrite (H _ Ha), IH.
Qed.

Lemma none_of_one (b a : ascii) : none_of (String b "") a = negb (Ascii.eqb a b).
Proof.
  unfold none_of, one_of. cbn [String.list_ascii_of_string existsb].
  by rewrite orb_false_r.
Qed.

Lemma verify_placeholder_here (body post : string) pos :
  body ≠ "" → Str.all (none_of "}") body = true →
  match_here Verify.placeholder_re pos ("{{t." +:+ body +:+ "}}" +:+ post) ≠ None.
Proof.
  intros Hb Hall. unfold match_here, Verify.placeholder_re. cbn [seqs].
  rewrite rmatch_seq, rmatch_lit, startsWith_app, s_drop_app.
  rewrite rmatch_seq, plus_cls.
  2:{ intros pos' a s' c' Ha. rewrite rmatch_lit. cbn [Str.startsWith].
      rewrite none_of_one in Ha.
      rewrite Ascii.eqb_sym. by destruct (Ascii.eqb a "}"). }
  rewrite (run_app_stop _ body ("}}" +:+ post)); [| done | done].
  destruct body as [|b body]; [done |].
  rewrite s_drop_app, rmatch_lit, startsWith_app. done.
Qed.

Lemma key_chr_not_close a : key_chr a = true → none_of "}" a = true.
Proof.
  intros H%key_chr_not_brace. by rewrite none_of_one, Ascii.eqb_sym, H.
Qed.

Lemma section_chr_key_chr a : section_chr a = true → key_chr a = true.
Proof. unfold key_chr. by intros ->. Qed.

Lemma verify_finds_placeholder (pre section key post : string) :
  section ≠ "" → Str.all section_chr section = true →
  key ≠ "" → Str.all key_chr key = true →
  Verify.unresolved (pre +:+ placeholder section key +:+ post) = true.
Proof.
  intros Hs Hsa Hk Hka. unfold Verify.unresolved, match_all.
  destruct (matches_go _ _ _ _) eqn:E. 2:{ done. }
  exfalso. revert E. apply matches_go_found; [| lia].
  intros pos'. unfold placeholder.
  replace ("{{t." +:+ section +:+ "." +:+ key +:+ "}}" +:+ post)
    with ("{{t." +:+ (section +:+ "." +:+ key) +:+ "}}" +:+ post)
    by (by rewrite <- !s_app_assoc).
  replace (("{{t." +:+ section +:+ "." +:+ key +:+ "}}") +:+ post)
    with ("{{t." +:+ (section +:+ "." +:+ key) +:+ "}}" +:+ post)
    by (by rewrite <- !s_app_assoc).
  apply verify_placeholder_here.
  - destruct section; [done |]. by rewrite s_app_cons.
  - rewrite !all_app, !andb_true_iff. repeat split.
    + apply (all_impl section_chr); [| done].
      intros a Ha. by apply key_chr_not_close, section_chr_key_chr.
    + apply (all_impl key_chr); [apply key_chr_not_close | done].
Qed.

(** X9. A well-formed placeholder that has no entry in the dictionary,
    and whose name is none that every object inherits, makes the built
    page fail the placeholder check of the verifier, whatever stands
    around it; and the build of the text gives a page exactly when the
    builds of the text before and behind the placeholder do. *)
Theorem missing_translation_is_caught_by_verify
    (builtin : string → string → Js.member)
    (localeData : dict) (pre section key post : string) :
  section ≠ "" → Str.all section_chr section = true →
  key ≠ "" → Str.all key_chr key = true →
  localeData !! section ≫= (.!! key) = None →
  Js.inherited (if localeData !! section then key else section) = false →
  (is_Some (replaceTranslations builtin (pre +:+ placeholder section key +:+ post) localeData) ↔
   is_Some (replaceTranslations builtin pre localeData) ∧
   is_Some (replaceTranslations builtin post localeData)) ∧
  ∀ page log,
    replaceTranslations builtin (pre +:+ placeholder section key +:+ post) localeData =
      Some (page, log) →
    Verify.unresolved page = true.
Proof.
  intros Hs Hsa Hk Hka Hm Hown.
  rewrite (replaceTranslations_at _ _ _ _ _ _ Hs Hsa Hk Hka), (resolved_missing _ _ _ _ Hm Hown).
  destruct (replaceTranslations builtin pre localeData) as [[o1 l1]|],
           (replaceTranslations builtin post localeData) as [[o2 l2]|]; cbn.
  - split; [done |]. intros page log [= <- <-]. by apply verify_finds_placeholder.
  - split; [| done]. split; [by intros [? ?] | by intros [_ [? ?]]].
  - split; [| done]. split; [by intros [? ?] | by intros [[? ?] _]].
  - split; [| done]. split; [by intros [? ?] | by intros [[? ?] _]].
Qed.

Lemma missing_translation_is_caught_witness :
  Verify.unresolved "<h1>{{t.home.h1}}</h1>" = true.
Proof.
  exact (proj2 (missing_translation_is_caught_by_verify bare de_without_home
                  "<h1>" "home" "h1" "</h1>"
                  ltac:(discriminate) ltac:(reflexivity) ltac:(discriminate)
                  ltac:(reflexivity) ltac:(reflexivity) ltac:(reflexivity))
           "<h1>{{t.home.h1}}</h1>" ["    Missing: home.h1"] ltac:(reflexivity)).
Defined.

(** *** From the template to the language check *)

Lemma includes_app_false (h : ascii) (q' x y : string) :
  Str.includes (String h "") x = false → Str.includes (String h q') y = false →
  Str.includes (String h q') (x +:+ y) = false.
Proof.
  intros Hx Hy. induction x as [|a x IH]; [by rewrite s_app_nil_l |].
  rewrite s_app_cons. cbn [Str.includes Str.startsWith] in *.
  apply orb_false_iff in Hx as [Ha Hx]. rewrite andb_true_r in Ha.
  rewrite Ha. cbn. by apply IH.
Qed.

(** A pattern that can only match at an occurrence of the character [h]
    passes over text free of [h]. *)
Lemma replace_go_prefix {T} (r : regex) (h : ascii) (fn : found → T → string * T)
    (x y : string) fuel pos st :
  (∀ pos' s, Str.startsWith (String h "") s = false → match_here r pos' s = None) →
  Str.includes (String h "") x = false →
  String.length x ≤ fuel →
  replace_go fuel r fn pos (x +:+ y) st =
  let '(o, st') := replace_go (fuel - String.length x) r fn (pos + String.length x) y st in
  (x +:+ o, st').
Proof.
  intros Hr. revert fuel pos. induction x as [|a x IH]; intros fuel pos Hx Hf.
  - rewrite s_app_nil_l. cbn [String.length]. rewrite Nat.sub_0_r, Nat.add_0_r.
    by destruct (replace_go fuel r fn pos y st).
  - destruct fuel as [|fuel]; [cbn in Hf; lia |].
    rewrite s_app_cons. cbn [replace_go].
    cbn [Str.includes Str.startsWith] in Hx.
    apply orb_false_iff in Hx as [Ha Hx]. rewrite andb_true_r in Ha.
    rewrite Hr by (cbn [Str.startsWith]; by rewrite Ha).
    rewrite IH by (done || cbn in Hf; lia).
    cbn [String.length]. replace (S pos + String.length x) with (pos + S (String.length x)) by lia.
    replace (S fuel - S (String.length x)) with (fuel - String.length x) by lia.
    by destruct (replace_go _ r fn _ y st).
Qed.

Lemma lit_needs_head (h : ascii) (p' : string) pos s :
  Str.startsWith (String h "") s = false → match_here (lit (String h p')) pos s = None.
Proof.
  intros H. rewrite match_here_lit.
  destruct (Str.startsWith (String h p') s) eqn:E; [| done].
  assert (Str.startsWith (String h "") (String h p') = true) as Hq
    by (cbn; by rewrite Ascii.eqb_refl).
  by rewrite (startsWith_trans _ _ _ Hq E) in H.
Qed.

Lemma placeholder_needs_head pos s :
  Str.startsWith "{" s = false → match_here placeholder_re pos s = None.
Proof.
  intros H. rewrite match_here_placeholder, placeholder_at_none; [done |].
  destruct (Str.startsWith "{{t." s) eqn:E; [| done].
  assert (Str.startsWith "{" "{{t." = true) as Hq by reflexivity.
  by rewrite (startsWith_trans _ _ _ Hq E) in H.
Qed.

(** A structural pass leaves text free of braces at the head of the page
    as it is. *)
Lemma replace_all_tpl_prefix (p' v x y : string) :
  Str.includes "{" x = false →
  ∃ y', replace_all_tpl (lit (String "{" p')) v (x +:+ y) = x +:+ y'.
Proof.
  intros Hx. unfold replace_all_tpl, replace_all_with, replace_all.
  rewrite (replace_go_prefix _ "{");
    [| apply lit_needs_head | done | rewrite s_length_app; lia].
  destruct (replace_go _ _ _ _ y tt) as [o st']. by exists o.
Qed.

Lemma replaceTranslations_prefix builtin (x y : string) (ld : dict) page log :
  Str.includes "{" x = false →
  replaceTranslations builtin (x +:+ y) ld = Some (page, log) →
  ∃ y', page = x +:+ y'.
Proof.
  intros Hx. unfold replaceTranslations, replace_all.
  rewrite (replace_go_prefix _ "{");
    [| apply placeholder_needs_head | done | rewrite s_length_app; lia].
  destruct (replace_go _ _ _ _ y _) as [o [l|]]; [| done].
  intros [= <- <-]. by exists o.
Qed.

(** The first structural pass puts the language tag into the attribute. *)
Lemma htmlLang_pass (pre rest lang : string) :
  Str.includes "{" pre = false →
  (∀ before f, expand 0 before f lang = lang) →
  ∃ rest',
    replace_all_tpl (lit "{{htmlLang}}") lang
      (pre +:+ Str.q "<html lang='{{htmlLang}}'>" +:+ rest) =
    (pre +:+ Str.q "<html lang='" +:+ lang +:+ Str.q "'>") +:+ rest'.
Proof.
  intros Hpre Hexp. unfold replace_all_tpl, replace_all_with, replace_all.
  set (s := pre +:+ Str.q "<html lang='{{htmlLang}}'>" +:+ rest).
  assert (s = (pre +:+ Str.q "<html lang='") +:+ "{{htmlLang}}" +:+ (Str.q "'>" +:+ rest)) as Hs.
  { unfold s.
    change (Str.q "<html lang='{{htmlLang}}'>")
      with (Str.q "<html lang='" +:+ "{{htmlLang}}" +:+ Str.q "'>").
    by rewrite <- !s_app_assoc. }
  set (fn := λ (f : found) (_ : ()), (expand (ngroups (lit "{{htmlLang}}")) (Str.take (f_index f) s) f lang, ())).
  rewrite Hs.
  rewrite (replace_go_prefix _ "{");
    [| apply lit_needs_head | by apply includes_app_false
     | rewrite !s_length_app; lia].
  remember (S (String.length ((pre +:+ Str.q "<html lang='") +:+ "{{htmlLang}}" +:+
                              Str.q "'>" +:+ rest)) -
            String.length (pre +:+ Str.q "<html lang='")) as fuel eqn:Hfuel.
  destruct fuel as [|fuel]; [rewrite !s_length_app in Hfuel; lia |].
  cbn [replace_go]. rewrite match_here_lit, startsWith_app, s_take_app, s_drop_app.
  unfold fn at 1. cbn [f_match f_rest].
  change (ngroups (lit "{{htmlLang}}")) with 0. rewrite Hexp.
  change (Str.q "'>" +:+ rest) with (String Str.dquote (String ">" rest)).
  destruct fuel as [|fuel]; [rewrite !s_length_app in Hfuel; cbn in Hfuel; lia |].
  cbn [replace_go]. rewrite lit_needs_head by done.
  destruct fuel as [|fuel]; [rewrite !s_length_app in Hfuel; cbn in Hfuel; lia |].
  cbn [replace_go]. rewrite lit_needs_head by done.
  destruct (replace_go fuel _ fn _ rest ()) as [o st']. cbn [fst].
  exists o. rewrite <- !s_app_assoc.
  by change (Str.q "'>" +:+ o) with (String Str.dquote (String ">" o)).
Qed.

Lemma search_from_skip r (h1 h2 : ascii) (pre T : string) pos :
  (∀ pos' s, Str.startsWith (String h1 (String h2 "")) s = false →
             match_here r pos' s = None) →
  Str.includes (String h1 (String h2 "")) pre = false →
  Str.startsWith (String h2 "") T = false →
  search_from r pos (pre +:+ T) = search_from r (pos + String.length pre) T.
Proof.
  intros Hr Hpre HT. revert pos. induction pre as [|a pre IH]; intros pos.
  - rewrite s_app_nil_l. cbn. by rewrite Nat.add_0_r.
  - rewrite s_app_cons. cbn [search_from]. rewrite Hr.
    + cbn [Str.includes] in Hpre. apply orb_false_iff in Hpre as [_ Hpre].
      rewrite IH by done. cbn. f_equal. lia.
    + cbn [Str.includes] in Hpre. apply orb_false_iff in Hpre as [Hpre _].
      destruct pre as [|b pre]; [| by rewrite s_app_cons].
      rewrite s_app_nil_l. cbn [Str.startsWith] in *.
      destruct T; [by rewrite andb_false_r |].
      cbn [Str.startsWith] in HT. rewrite andb_true_r in HT. rewrite HT.
      by rewrite andb_false_r.
Qed.

Lemma html_lang_needs_tag pos s :
  Str.startsWith "<h" s = false → match_here Verify.html_lang_re pos s = None.
Proof.
  intros H. unfold match_here, Verify.html_lang_re. cbn [seqs].
  rewrite rmatch_seq, rmatch_lit.
  destruct (Str.startsWith (Str.q "<html lang='") s) eqn:E; [| done].
  assert (Str.startsWith "<h" (Str.q "<html lang='") = true) as Hq by reflexivity.
  by rewrite (startsWith_trans _ _ _ Hq E) in H.
Qed.

Lemma html_lang_here pos (lang rest : string) :
  lang ≠ "" → Str.all (λ a, negb (Ascii.eqb a Str.dquote)) lang = true →
  ∃ f, match_here Verify.html_lang_re pos
         (Str.q "<html lang='" +:+ lang +:+ Str.q "'>" +:+ rest) = Some f ∧
       group 1 (f_caps f) = lang.
Proof.
  intros Hl Hall. unfold match_here, Verify.html_lang_re. cbn [seqs].
  rewrite rmatch_seq, rmatch_lit, startsWith_app, s_drop_app.
  rewrite rmatch_seq, rmatch_grp. unfold Verify.not_dquote. rewrite plus_cls.
  2:{ intros pos' a s' c' Ha. rewrite rmatch_lit.
      change (Str.q "'>") with (String Str.dquote ">"). cbn [Str.startsWith].
      rewrite Ascii.eqb_sym. by destruct (Ascii.eqb a Str.dquote). }
  assert (Hrun : Str.run (λ a, negb (Ascii.eqb a Str.dquote))
                   (lang +:+ Str.q "'>" +:+ rest) = lang).
  { apply run_app_stop; [done |].
    change (Str.q "'>") with (String Str.dquote ">"). by rewrite s_app_cons. }
  rewrite Hrun. destruct lang as [|b lang']; [done |].
  rewrite s_drop_app, rmatch_lit, startsWith_app.
  eexists. split; [done |]. cbn [f_caps group Nat.eqb].
  replace (_ + String.length (String b lang') - _) with (String.length (String b lang')) by lia.
  apply s_take_app.
Qed.

(** X10. A template whose language attribute is the placeholder, behind
    text without a brace and without the start of an [html] tag, and
    before any text whatever, is built for every locale into a page that
    passes the language check of the verifier for that locale; and the
    build gives a page in every runtime in which reading a property of a
    built-in value never throws. *)
Theorem rendered_language_passes_verify
    (builtin : string → string → Js.member)
    (pre rest : string) (p : page) (l : locale) (localeData : dict) :
  Str.includes "{" pre = false → Str.includes "<h" pre = false →
  (∀ page log,
     buildPage builtin (pre +:+ Str.q "<html lang='{{htmlLang}}'>" +:+ rest) p l localeData =
       Some (page, log) →
     Verify.wrongLang l page = false) ∧
  ((∀ name key, builtin name key ≠ Js.Throws) →
   is_Some (buildPage builtin (pre +:+ Str.q "<html lang='{{htmlLang}}'>" +:+ rest)
              p l localeData)).
Proof.
  intros Hpre Hh. split; [| intros Hb; apply replaceTranslations_total, Hb].
  intros page log.
  set (lang := html_lang (LOCALE_CONFIG l)).
  assert (Hlang : lang ≠ "" ∧ Str.all (λ a, negb (Ascii.eqb a Str.dquote)) lang = true ∧
                  Str.includes "{" lang = false ∧
                  (∀ before f, expand 0 before f lang = lang) ∧
                  Verify.HTML_LANGS l = lang)
    by (by destruct l).
  destruct Hlang as (Hne & Hall & Hbr & Hexp & Hlangs).
  set (head := pre +:+ Str.q "<html lang='" +:+ lang +:+ Str.q "'>").
  assert (Hhead : Str.includes "{" head = false).
  { unfold head. apply includes_app_false; [done |].
    apply includes_app_false; [done |]. by apply includes_app_false. }
  unfold buildPage. cbv zeta. fold lang.
  destruct (htmlLang_pass pre rest lang Hpre Hexp) as [r1 ->]. fold head.
  destruct (replace_all_tpl_prefix "{ogLocale}}" (og_locale (LOCALE_CONFIG l)) head r1 Hhead)
    as [r2 ->].
  destruct (replace_all_tpl_prefix "{localePath}}" (locale_path (LOCALE_CONFIG l)) head r2 Hhead)
    as [r3 ->].
  destruct (replace_all_tpl_prefix "{canonicalUrl}}"
              (BASE_URL +:+ "/" +:+ locale_path (LOCALE_CONFIG l) +:+ pagePath p)
              head r3 Hhead) as [r4 ->].
  destruct (replace_all_tpl_prefix "{pageUrl}}"
              (BASE_URL +:+ "/" +:+ locale_path (LOCALE_CONFIG l) +:+ pagePath p)
              head r4 Hhead) as [r5 ->].
  destruct (replace_all_tpl_prefix "{hreflangTags}}" (generateHreflangTags (pagePath p))
              head r5 Hhead) as [r6 ->].
  destruct (replace_all_tpl_prefix "{ogLocaleAlternates}}" (generateOgLocaleAlternates l)
              head r6 Hhead) as [r7 ->].
  destruct (replace_all_tpl_prefix "{langSwitcher}}" (generateLangSwitcher (pagePath p) l)
              head r7 Hhead) as [r8 ->].
  intros Hbuilt.
  destruct (replaceTranslations_prefix _ _ _ _ _ _ Hhead Hbuilt) as [r9 ->].
  unfold head. rewrite <- !s_app_assoc.
  unfold Verify.wrongLang, exec.
  rewrite (search_from_skip _ "<" "h"); [| apply html_lang_needs_tag | done | done].
  destruct (html_lang_here (0 + String.length pre) lang r9 Hne Hall) as (f & Hf & Hg).
  assert (search_from Verify.html_lang_re (0 + String.length pre)
            (Str.q "<html lang='" +:+ lang +:+ Str.q "'>" +:+ r9) = Some f) as ->.
  { change (Str.q "<html lang='") with (String "<" (Str.drop 1 (Str.q "<html lang='"))) in *.
    rewrite s_app_cons in *. cbn [search_from]. by rewrite Hf. }
  by rewrite Hg, Hlangs, String.eqb_refl.
Qed.

Lemma rendered_language_witness :
  Verify.wrongLang no
    (("<!DOCTYPE html>" +:+ Str.nl) +:+ Str.q "<html lang='nb'>" +:+
     "<body>{{t.home.h1}}</body></html>") = false.
Proof.
  exact (proj1 (rendered_language_passes_verify bare ("<!DOCTYPE html>" +:+ Str.nl)
                  "<body>{{t.home.h1}}</body></html>"
                  (Page "x.html" "x.html" "x") no de_without_home
                  ltac:(reflexivity) ltac:(reflexivity))
           _ ["    Missing: home.h1"] ltac:(reflexivity)).
Defined.

(** X1. A well-formed placeholder whose entry is in the dictionary is
    replaced by the text of the entry, whatever it is, with no diagnostic
    of its own, between the renderings of the text on its two sides. The
    text put in is not looked through again: a placeholder inside a
    translation stays. The whole throws exactly when one of the two
    sides does. *)
Theorem present_translation_is_inserted_verbatim
    (builtin : string → string → Js.member)
    (localeData : dict) (pre section key post v : string) (sec : gmap string string) :
  section ≠ "" → Str.all section_chr section = true →
  key ≠ "" → Str.all key_chr key = true →
  localeData !! section = Some sec → sec !! key = Some v →
  replaceTranslations builtin (pre +:+ placeholder section key +:+ post) localeData =
  '(o1, l1) ← replaceTranslations builtin pre localeData;
  '(o2, l2) ← replaceTranslations builtin post localeData;
  Some (o1 +:+ v +:+ o2, l1 ++ l2).
Proof.
  intros Hs Hsa Hk Hka Hsec Hv.
  rewrite (replaceTranslations_at _ _ _ _ _ _ Hs Hsa Hk Hka).
  rewrite (resolved_present _ _ _ _ _ _ Hsec Hv).
  by destruct (replaceTranslations builtin pre localeData) as [[o1 l1]|].
Qed.

Lemma present_translation_witness :
  replaceTranslations bare ("<h1>" +:+ placeholder "home" "h1" +:+ "</h1>") nested =
  Some ("<h1>{{t.home.h2}}</h1>", []).
Proof.
  exact (present_translation_is_inserted_verbatim bare nested "<h1>" "home" "h1" "</h1>"
           "{{t.home.h2}}" {[ "h1" := "{{t.home.h2}}"; "h2" := "Hello" ]}
           ltac:(discriminate) ltac:(reflexivity) ltac:(discriminate) ltac:(reflexivity)
           ltac:(reflexivity) ltac:(reflexivity)).
Defined.

Lemma locale_eqb_eq a b : locale_eqb a b = true ↔ a = b.
Proof. destruct a, b; cbv; split; congruence. Qed.

(** X4. The Open Graph block that is written for a locale has five
    entries: it names each of the other configured locales and does not
    name the locale itself. *)
Theorem og_alternates_are_the_other_five (current loc : locale) :
  length (match_all (lit "<meta ") (generateOgLocaleAlternates current)) = 5 ∧
  Str.includes
    (Str.q "<meta property='og:locale:alternate' content='" +:+
     og_locale (LOCALE_CONFIG loc) +:+ Str.q "'>")
    (generateOgLocaleAlternates current) = negb (locale_eqb loc current).
Proof. split; [destruct current | destruct current, loc]; by vm_compute. Qed.

Lemma keys_spec seen l :
  NoDup (keys seen l) ∧ ∀ x, x ∈ keys seen l ↔ x ∈ l ∧ x ∉ seen.
Proof.
  revert seen. induction l as [|a l IH]; intros seen; cbn.
  - split; [constructor | set_solver].
  - destruct (existsb (locale_eqb a) seen) eqn:E.
    + apply existsb_exists in E as (y & Hy & ->%locale_eqb_eq).
      apply list_elem_of_In in Hy.
      destruct (IH seen) as [Hn Hm]. split; [done |].
      intros x. rewrite Hm. set_solver.
    + assert (a ∉ seen) as Ha.
      { intros Hin%list_elem_of_In. 
        assert (existsb (locale_eqb a) seen = true); [| congruence].
        apply existsb_exists. exists a. split; [done | by apply locale_eqb_eq]. }
      destruct (IH (a :: seen)) as [Hn Hm]. split.
      * constructor; [| done]. rewrite Hm. set_solver.
      * intros x. rewrite elem_of_cons, Hm.
        pose proof (locale_eqb_eq x a) as Hxa.
        destruct (locale_eqb x a); [assert (x = a) as -> by naive_solver |
                                    assert (x ≠ a) by (intros ?; naive_solver)];
          set_solver.
Qed.

(** X7. [loadLocales] loads a locale once however often it is named, and
    loads exactly the named locales (all the configured ones when none is
    named) whose locale file exists: a missing file is passed over. *)
Theorem loadLocales_loads_each_locale_once
    (selectedLocales : option (list locale)) (localeFile : locale → option dict) :
  NoDup (loadLocales selectedLocales localeFile).*1 ∧
  ∀ loc d, (loc, d) ∈ loadLocales selectedLocales localeFile ↔
           loc ∈ default ALL_LOCALES selectedLocales ∧ localeFile loc = Some d.
Proof.
  unfold loadLocales. set (toLoad := default ALL_LOCALES selectedLocales).
  destruct (keys_spec [] toLoad) as [Hn Hm].
  split.
  - revert Hn. generalize (keys [] toLoad). intros l. induction 1 as [|x l Hx Hn IH]; cbn.
    + constructor.
    + destruct (localeFile x) eqn:E; cbn; [| done].
      constructor; [| done].
      intros Hin. apply Hx. apply list_elem_of_fmap in Hin as ([y d] & -> & Hin).
      apply list_elem_of_omap in Hin as (z & Hz & Heq).
      destruct (localeFile z); cbn in Heq; [| done]. by simplify_eq.
  - intros loc d. rewrite list_elem_of_omap. split.
    + intros (x & Hx & Heq). destruct (localeFile x) eqn:E; cbn in Heq; [| done].
      simplify_eq. apply Hm in Hx. naive_solver.
    + intros [Hin Hf]. exists loc. split; [apply Hm; set_solver |]. by rewrite Hf.
Qed.

(** X8. The locale tables of the scripts agree: the path prefix and the
    language tag that the verifier expects are those of the build, the
    hreflang value of a locale is its language tag, the targets of the
    translator are the configured locales but English, and the [_meta]
    entry that the translator writes holds the values of the build. *)
Theorem locale_tables_agree (l : locale) :
  Verify.LOCALE_PATHS l = locale_path (LOCALE_CONFIG l) ∧
  Verify.HTML_LANGS l = html_lang (LOCALE_CONFIG l) ∧
  hreflang (LOCALE_CONFIG l) = html_lang (LOCALE_CONFIG l) ∧
  (code l ∈ Translate.TARGET_LOCALES ↔ l ≠ en) ∧
  (l ≠ en →
   Translate.LOCALE_META (code l) =
   Translate.meta (code l) (locale_path (LOCALE_CONFIG l)) (og_locale (LOCALE_CONFIG l))
     (html_lang (LOCALE_CONFIG l))).
Proof.
  repeat split; try (by destruct l).
  - intros H ->. cbv [code Translate.TARGET_LOCALES] in H. set_solver.
  - intros H. destruct l; try done; cbv [code Translate.TARGET_LOCALES]; set_solver.
Qed.

End Rendering.

(** ** Further properties of extraction *)

Module Extraction.
Import Re Extract StrFacts ReFacts Scenarios ExtractFacts ScanFacts Rendering.

(** *** Reversal and trimming *)

Lemma s_rev_app_spec (s acc : string) : String.rev_app s acc = String.rev s +:+ acc.
Proof.
  unfold String.rev. revert acc. induction s as [|a s IH]; intros acc; cbn.
  - by rewrite s_app_nil_l.
  - rewrite (IH (String a acc)), (IH (String a "")).
    by rewrite <- s_app_assoc, s_app_cons, s_app_nil_l.
Qed.

Lemma s_rev_cons (a : ascii) (s : string) :
  String.rev (String a s) = String.rev s +:+ String a "".
Proof. unfold String.rev at 1. cbn. apply s_rev_app_spec. Qed.

Lemma s_rev_snoc (a : ascii) (s : string) :
  String.rev (s +:+ String a "") = String a (String.rev s).
Proof.
  induction s as [|b s IH]; [done |].
  by rewrite s_app_cons, !s_rev_cons, IH, s_app_cons.
Qed.

Lemma s_rev_involutive (s : string) : String.rev (String.rev s) = s.
Proof. induction s as [|a s IH]; [done |]. by rewrite s_rev_cons, s_rev_snoc, IH. Qed.

Lemma trimStart_snoc (a : ascii) (s : string) :
  Str.is_space a = false →
  Str.trimStart (s +:+ String a "") = Str.trimStart s +:+ String a "".
Proof.
  intros Ha. induction s as [|b s IH].
  - rewrite s_app_nil_l. cbn. by rewrite Ha.
  - rewrite s_app_cons. cbn. destruct (Str.is_space b); [done |]. by rewrite s_app_cons.
Qed.

Lemma trimEnd_cons (a : ascii) (s : string) :
  Str.is_space a = false → Str.trimEnd (String a s) = String a (Str.trimEnd s).
Proof.
  intros Ha. unfold Str.trimEnd. by rewrite s_rev_cons, trimStart_snoc, s_rev_snoc.
Qed.

Lemma trim_cons (a : ascii) (s : string) :
  Str.is_space a = false → Str.trim (String a s) = String a (Str.trimEnd s).
Proof. intros Ha. unfold Str.trim. cbn. rewrite Ha. by apply trimEnd_cons. Qed.

Lemma trimEnd_all (p : ascii → bool) (s : string) :
  (∀ a, p a = true → Str.is_space a = false) → Str.all p s = true →
  Str.trimEnd s = s.
Proof.
  intros Hp. induction s as [|a s IH]; [done |]. intros Hall. cbn in Hall.
  apply andb_true_iff in Hall as [Ha Hs]. rewrite trimEnd_cons by (by apply Hp).
  by rewrite IH.
Qed.

Lemma trim_all (p : ascii → bool) (s : string) :
  (∀ a, p a = true → Str.is_space a = false) → Str.all p s = true →
  Str.trim s = s.
Proof.
  intros Hp Hs. destruct s as [|a s]; [done |].
  cbn in Hs. apply andb_true_iff in Hs as [Ha Hs].
  rewrite trim_cons by (by apply Hp). by rewrite (trimEnd_all p).
Qed.

(** *** [shouldSkip] *)

Lemma tag_needs_bracket pos s :
  Str.startsWith "<" s = false → match_here tag_re pos s = None.
Proof.
  unfold match_here, tag_re. cbn [seqs]. rewrite rmatch_seq, rmatch_chr.
  destruct s as [|b s]; [done |]. cbn [Str.startsWith]. rewrite andb_true_r.
  by intros ->.
Qed.

Lemma strip_tags_none (s : string) :
  Str.includes "<" s = false → replace_all_with tag_re (λ _, "") s = s.
Proof.
  intros H. unfold replace_all_with, replace_all.
  rewrite replace_go_none; [done | lia |].
  intros n pos'. apply tag_needs_bracket, includes_startsWith, includes_drop, H.
Qed.

Lemma all_not_includes (p : ascii → bool) (h : ascii) (s : string) :
  p h = false → Str.all p s = true → Str.includes (String h "") s = false.
Proof.
  intros Hh. induction s as [|a s IH]; [done |]. cbn.
  intros [Ha Hs]%andb_true_iff. rewrite andb_true_r, (IH Hs), orb_false_r.
  destruct (Ascii.eqb h a) eqn:E; [| done].
  apply Ascii.eqb_eq in E. subst. congruence.
Qed.

Lemma run_all (p : ascii → bool) (s : string) : Str.all p s = true → Str.run p s = s.
Proof.
  induction s as [|a s IH]; [done |]. cbn.
  intros [-> Hs]%andb_true_iff. by rewrite IH.
Qed.

(** A whole-subject pattern [^[class]+$]. *)
Lemma test_all_of (p : ascii → bool) (s : string) :
  s ≠ "" → Str.all p s = true → test (seqs [Bol; plus (Cls p); Eol]) s = true.
Proof.
  intros Hs Hall. cbn [seqs]. rewrite test_bol. unfold match_here.
  rewrite rmatch_seq.
  change (rmatch Bol ?k 0 ?s ?c) with (k 0 s c).
  rewrite rmatch_seq, plus_cls.
  2:{ by intros. }
  rewrite (run_all _ _ Hall). destruct s as [|a s]; [done |].
  by rewrite s_drop_all.
Qed.



(** *** The body pass *)

Lemma split_go_nonempty (sep : ascii) (cur s : string) : Str.split_go sep cur s ≠ [].
Proof.
  revert cur. induction s as [|a s IH]; intros cur; cbn; [done |].
  destruct (Ascii.eqb a sep); [done | apply IH].
Qed.

Lemma join_split_go (cur s : string) :
  Str.join Str.nl (Str.split_go "010" cur s) = String.rev cur +:+ s.
Proof.
  revert cur. induction s as [|a s IH]; intros cur.
  - cbn. by rewrite s_app_nil_r.
  - cbn [Str.split_go]. destruct (Ascii.eqb a "010") eqn:E.
    + apply Ascii.eqb_eq in E as ->.
      assert (∀ x l, l ≠ [] → Str.join Str.nl (x :: l) = x +:+ Str.nl +:+ Str.join Str.nl l)
        as Hj by (by intros x [|y l]).
      rewrite Hj, IH; [done | apply split_go_nonempty].
    + by rewrite IH, s_rev_cons, <- s_app_assoc.
Qed.

Lemma join_split (s : string) : Str.join Str.nl (Str.split "010" s) = s.
Proof. unfold Str.split. by rewrite join_split_go. Qed.

(** X13. Once a line has set the flag [inFooter] nothing clears it: all
    the lines behind it pass through the body loop as they are, and the
    counters and the dictionary with them. *)
Theorem body_pass_stops_at_footer
    (pk : string) (lines : list string) (fl : flags) (st : body_state) :
  inFooter fl = true → bodyLines pk lines fl st = Some (lines, st).
Proof.
  revert fl. induction lines as [|line rest IH]; intros fl Hf; [done |].
  cbn [bodyLines].
  destruct (test (lit_i "<script") line), (test (lit_i "</script>") line),
    (test (lit_i "<style") line), (test (lit_i "</style>") line),
    (test (lit (Str.q "class='footer'")) line);
    cbn [inScript inStyle inFooter]; rewrite ?Hf, ?orb_true_r;
    by rewrite IH.
Qed.

Lemma body_pass_stops_witness :
  bodyLines "home" ["<h1>Title</h1>"] (Flags false false true) (∅, locale0) =
  Some (["<h1>Title</h1>"], (∅, locale0)).
Proof.
  exact (body_pass_stops_at_footer "home" ["<h1>Title</h1>"] (Flags false false true)
           (∅, locale0) ltac:(reflexivity)).
Defined.

Lemma bodyLines_templated (pk : string) (lines : list string) (fl : flags) (st : body_state) :
  Forall (λ line, Str.includes "{{t." line = true) lines →
  bodyLines pk lines fl st = Some (lines, st).
Proof.
  intros H. revert fl. induction H as [|line rest Hl Hr IH]; intros fl; [done |].
  cbn [bodyLines]. rewrite Hl.
  destruct (test (lit_i "<script") line), (test (lit_i "</script>") line),
    (test (lit_i "<style") line), (test (lit_i "</style>") line),
    (test (lit (Str.q "class='footer'")) line);
    cbn [inScript inStyle inFooter];
    repeat match goal with
           | |- context [if ?c then _ else _] => destruct c
           end;
    by rewrite IH.
Qed.

(** X14. A page whose every line holds a translation placeholder passes
    through the body pass as it is, and so does the dictionary. *)
Theorem body_pass_skips_templated_lines (html pk : string) (d : dict) :
  Forall (λ line, Str.includes "{{t." line = true) (Str.split "010" html) →
  extractBodyText html pk d = Some (html, d).
Proof.
  intros H. unfold extractBodyText. rewrite bodyLines_templated by done.
  cbn. by rewrite join_split.
Qed.

Lemma body_pass_skips_witness :
  extractBodyText ("<h1>{{t.home.h1}}</h1>" +:+ Str.nl +:+ "<p>{{t.home.p}}</p>") "home" locale0
  = Some ("<h1>{{t.home.h1}}</h1>" +:+ Str.nl +:+ "<p>{{t.home.p}}</p>", locale0).
Proof.
  apply body_pass_skips_templated_lines. vm_compute. repeat constructor.
Defined.

(** *** The navigation pass *)

Lemma addShared_lookup (k v k' : string) (d : dict) :
  section_of (addShared k v d) "shared" !! k' =
  if String.eqb k k' then
    match section_of d "shared" !! k with
    | Some (String a s) => Some (String a s)
    | _ => Some v
    end
  else section_of d "shared" !! k'.
Proof.
  unfold addShared. destruct (String.eqb k k') eqn:E.
  - apply String.eqb_eq in E as <-.
    destruct (section_of d "shared" !! k) as [[|a s]|] eqn:El;
      rewrite ?section_of_insert, ?lookup_insert_eq; done.
  - apply String.eqb_neq in E.
    destruct (section_of d "shared" !! k) as [[|a s]|] eqn:El;
      rewrite ?section_of_insert, ?lookup_insert_ne; done.
Qed.

(** X15. After the navigation pass every navigation key has a text that
    is not empty, whatever the page: the text it had, or else the English
    label. *)
Theorem nav_pass_seeds_every_label (html : string) (d : dict) (text key : string) :
  (text, key) ∈ navTexts →
  section_of (templateNav html d).2 "shared" !! key =
  match section_of d "shared" !! key with
  | Some (String a s) => Some (String a s)
  | _ => Some text
  end.
Proof.
  intros Hin. unfold templateNav. cbn [snd]. unfold navTexts in *. cbn [foldl].
  repeat (apply elem_of_cons in Hin as [[= -> ->] | Hin]);
    [.. | by apply elem_of_nil in Hin];
    rewrite !addShared_lookup; cbn [String.eqb Ascii.eqb Bool.eqb];
    done.
Qed.

Lemma nav_pass_witness :
  section_of (templateNav "" locale0).2 "shared" !! "nav_about" = Some "About".
Proof.
  exact (nav_pass_seeds_every_label "" locale0 "About" "nav_about"
           ltac:(unfold navTexts; set_solver)).
Defined.

(** *** What every pass keeps

    A property of the dictionary that no write to the shared section and
    no write to the section of a page in [P] can break holds after every
    pass, after a page and after a run. *)

Section Invariant.
Variable I : dict → Prop.
Variable P : string → Prop.
Hypothesis I_shared : ∀ k v d, I d → I (addShared k v d).
Hypothesis I_string : ∀ pk k v d, P pk → I d → I (addString pk k v d).
Hypothesis I_reset : ∀ pk d, P pk → I d → I (<[pk := ∅]> d).

Lemma toShared_inv k f d : I d → I (toShared k f d).2.
Proof using Type*. intros H. unfold toShared. cbn [snd]. by apply I_shared. Qed.

Section OnePage.
Variable pk : string.
Hypothesis Hpk : P pk.

Lemma extractMeta_inv html d : I d → I (extractMeta html pk d).2.
Proof using Type*.
  intros H. unfold extractMeta.
  pose proof (replace1_keeps I title_re
    (λ f d, ("<title>" +:+ ph pk "meta_title" +:+ "</title>",
             addString pk "meta_title" (Str.trim (group 1 (f_caps f))) d)) html d) as H1.
  destruct (replace1 title_re _ html d) as [html1 d1]. cbn [snd] in H1.
  assert (Hd1 : I d1).
  { apply H1; [| done]. intros f st Hst. cbn [snd]. by apply I_string. }
  clear H1. apply (foldl_keeps I snd); [| done].
  intros [h st] [pattern k] Hst. cbn [snd] in *.
  apply replace1_keeps; [| done]. intros f st' Hst'.
  destruct (Str.trim _); cbn [snd]; [done |]. by apply I_string.
Qed.

Lemma extractField_inv prefix acc field :
  I acc.2.2 → I (extractField pk prefix acc field).2.2.
Proof using Type*.
  destruct acc as [ms [keyIdx d]]. cbn [snd]. intros H. unfold extractField.
  destruct (get field ms) as [[| | |value| |]|]; try done.
  destruct (_ && _); cbn [snd]; [| done]. by apply I_string.
Qed.

Lemma extractFields_inv prefix ms st :
  I st.2 → I (extractFields pk prefix ms st).2.2.
Proof using Type*.
  intros H. unfold extractFields.
  apply (foldl_keeps I (λ acc, acc.2.2)); [| done].
  intros acc field. apply extractField_inv.
Qed.

Lemma walkItems_inv walk items :
  Forall (λ item, ∀ st, I st.2 → I (walk item st).2.2) items →
  ∀ st, I st.2 → I (walkItems walk items st).2.2.
Proof using Type*.
  induction 1 as [|item items Hitem _ IH]; intros st H; [exact H |].
  cbn [walkItems]. specialize (Hitem st H).
  destruct (walk item st) as [item' st1]. cbn [snd] in Hitem.
  specialize (IH st1 Hitem). by destruct (walkItems walk items st1).
Qed.

Lemma walkMembers_inv walk ms :
  Forall (λ m, ∀ st, I st.2 → I (walk m.2 st).2.2) ms →
  ∀ st, I st.2 → I (walkMembers walk ms st).2.2.
Proof using Type*.
  induction 1 as [|[k val] ms Hval _ IH]; intros st H; [exact H |].
  cbn [walkMembers]. cbn [snd] in Hval.
  assert (H1 : I (if is_object val then walk val st else (val, st)).2.2).
  { destruct (is_object val); [by apply Hval | exact H]. }
  destruct (if is_object val then _ else _) as [val' st1]. cbn [snd] in H1.
  specialize (IH st1 H1). by destruct (walkMembers walk ms st1).
Qed.

Lemma walkAndExtract_inv prefix obj :
  ∀ st, I st.2 → I (walkAndExtract pk prefix obj st).2.2.
Proof using Type*.
  revert obj. fix IH 1. intros obj st H.
  destruct obj as [| b | n | s | items | ms]; try exact H.
  - cbn [walkAndExtract].
    assert (Hall : Forall (λ item, ∀ st, I st.2 →
                             I (walkAndExtract pk prefix item st).2.2) items).
    { induction items as [|item items IHitems]; constructor; [apply IH | exact IHitems]. }
    pose proof (walkItems_inv _ _ Hall st H) as H1.
    by destruct (walkItems _ items st).
  - cbn [walkAndExtract].
    pose proof (extractFields_inv prefix ms st H) as H1.
    destruct (extractFields pk prefix ms st) as [ms1 st1]. cbn [snd] in H1.
    assert (Hall : Forall (λ m, ∀ st, I st.2 →
                             I (walkAndExtract pk prefix m.2 st).2.2) ms).
    { induction ms as [|[k val] ms IHms]; constructor; [apply IH | exact IHms]. }
    pose proof (walkMembers_inv _ _ Hall st1 H1) as H2.
    by destruct (walkMembers _ ms st1).
Qed.

Variable JSON_parse : string → option json.
Variable JSON_stringify : json → string.

Lemma extractJsonLd_inv html d :
  I d → I (extractJsonLd JSON_parse JSON_stringify html pk d).2.
Proof using Type*.
  intros H. unfold extractJsonLd.
  match goal with |- context [replace_all jsonld_re ?fn html (0, d)] =>
    pose proof (replace_all_keeps (λ st : nat * dict, I st.2) jsonld_re fn html (0, d))
      as H1;
    destruct (replace_all jsonld_re fn html (0, d)) as [html1 [idx d1]]
  end.
  cbn [snd] in *. apply H1; [| done]. clear H H1.
  intros f [i d0] Hd. cbn [snd] in *.
  destruct (JSON_parse _) as [json|]; [| done].
  pose proof (walkAndExtract_inv ("jsonld_" +:+ Str.of_nat (S i)) json (0, d0) Hd) as H.
  by destruct (walkAndExtract _ _ json (0, d0)) as [json' [k d']].
Qed.

Lemma templateNav_inv html d : I d → I (templateNav html d).2.
Proof using Type*.
  intros H. unfold templateNav. cbn [snd].
  apply (foldl_keeps I id); [| done].
  intros st [text k] Hst. by apply I_shared.
Qed.

Lemma extractElement_inv re prefix checked subject cur st :
  I st.2 → I (extractElement pk re prefix checked subject cur st).2.2.
Proof using Type*.
  intros H. unfold extractElement. destruct (exec re subject) as [f|]; [| done].
  destruct (_ && _); [| done].
  destruct (nextKey prefix st.1) as [k cnt]. cbn [snd]. by apply I_string.
Qed.

Lemma elements_inv (re : string → regex) (prefix : string → string) checked l cur st :
  I st.2 →
  I (foldl (λ '(cur, st) cls,
                 extractElement pk (re cls) (prefix cls) checked cur cur st)
          (cur, st) l).2.2.
Proof using Type*.
  intros H. apply (foldl_keeps I (λ acc, acc.2.2)); [| done].
  intros [c s] cls Hs. by apply extractElement_inv.
Qed.

Lemma tableHeader_inv f line d : I d → I (tableHeader f line d).2.
Proof using Type*.
  intros H. unfold tableHeader. destruct (Str.trim _); [done |].
  destruct (shouldSkip _); [done |]. cbn [snd]. by apply I_shared.
Qed.

Lemma dataLabel_inv f line d : I d → I (dataLabel f line d).2.
Proof using Type*.
  intros H. unfold dataLabel. destruct (Str.startsWith _ _); [done |].
  cbn [snd]. by apply I_shared.
Qed.

Lemma button_inv cur st : I st.2 → I (button pk cur st).2.2.
Proof using Type*.
  intros H. unfold button. destruct (exec btn_re cur) as [f|]; [| done].
  destruct (_ && _); [| done].
  destruct (find _ sharedBtns) as [[t k]|].
  - cbn [snd]. by apply I_shared.
  - destruct (nextKey "btn" st.1) as [k cnt]. cbn [snd]. by apply I_string.
Qed.

(** The next loop over a list of classes in the goal keeps the invariant. *)
Ltac inv_loop :=
  match goal with
  | |- context [foldl ?F ?init ?l] =>
      let Hk := fresh "Hk" in
      assert (Hk : I (foldl F init l).2.2) by
        (apply (foldl_keeps I (λ acc : string * body_state, acc.2.2));
         [ intros [? ?] ? ?; by apply extractElement_inv | assumption ]);
      destruct (foldl F init l) as [? ?]; cbn [snd] in Hk
  end.

Lemma bodyLine_inv line st out :
  I st.2 → bodyLine pk line st = Some out → I out.2.2.
Proof using Type*.
  intros H. unfold bodyLine.
  inv_loop.
  match goal with |- context [extractElement pk p_re "p" false ?c ?c ?s] =>
    pose proof (extractElement_inv p_re "p" false c c s Hk) as H2;
    destruct (extractElement pk p_re "p" false c c s) as [cur2 st2]
  end.
  cbn [snd] in H2.
  destruct (while_exec _ th_re tableHeader 0 cur2 st2.2) as [[cur3 d3]|] eqn:E3;
    [| done].
  pose proof (while_exec_keeps I _ _ _ _ _ _ _ tableHeader_inv H2 E3) as H3.
  cbn [mbind option_bind snd] in *.
  destruct (while_exec _ data_label_re dataLabel 0 cur3 d3) as [[cur4 d4]|] eqn:E4;
    [| done].
  pose proof (while_exec_keeps I _ _ _ _ _ _ _ dataLabel_inv H3 E4) as H4.
  cbn [mbind option_bind snd] in *.
  assert (H5 : I (st2.1, d4).2) by done.
  inv_loop. inv_loop.
  match goal with |- context [button pk ?c ?s] =>
    pose proof (button_inv c s ltac:(assumption)) as H7;
    destruct (button pk c s) as [cur7 st7]
  end.
  cbn [snd] in H7.
  inv_loop.
  by intros [= <-].
Qed.

Lemma bodyLines_inv lines fl st out :
  I st.2 → bodyLines pk lines fl st = Some out → I out.2.2.
Proof using Type*.
  revert fl st out. induction lines as [|line lines IH]; intros fl st out H Hrun.
  - by injection Hrun as <-.
  - cbn [bodyLines] in Hrun.
    assert (Hskip : ∀ fl',
      ('(rest, st') ← bodyLines pk lines fl' st; Some (line :: rest, st')) = Some out →
      I out.2.2).
    { intros fl' Hs. destruct (bodyLines pk lines fl' st) as [[rest st']|] eqn:E; [| done].
      injection Hs as <-. by apply (IH _ _ _ H E). }
    repeat (match type of Hrun with
            | context [if ?b then _ else _] => destruct b
            end; try by eapply Hskip).
    all: destruct (bodyLine pk line st) as [[cur st1]|] eqn:E1; [| done].
    all: pose proof (bodyLine_inv _ _ _ H E1) as H1.
    all: cbn [mbind option_bind] in Hrun.
    all: destruct (bodyLines pk lines _ st1) as [[rest st2]|] eqn:E2; [| done].
    all: injection Hrun as <-; by apply (IH _ _ _ H1 E2).
Qed.

Lemma extractBodyText_inv html d out :
  I d → extractBodyText html pk d = Some out → I out.2.
Proof using Type*.
  intros H. unfold extractBodyText.
  destruct (bodyLines pk _ _ (∅, d)) as [[lines st]|] eqn:E; [| done].
  intros [= <-]. by apply (bodyLines_inv _ _ (∅, d) _ H E).
Qed.

Lemma footerContent_inv content d : I d → I (footerContent content d).2.
Proof using Type*.
  intros H. unfold footerContent.
  pose proof (replace1_keeps I (p_class_re "footer-tagline")
                (toShared "footer_tagline") content d (toShared_inv _) H) as H1.
  destruct (replace1 _ (toShared "footer_tagline") content d) as [c1 d1].
  cbn [snd] in H1.
  pose proof (replace1_keeps I (div_re "footer-logo") (λ f d, (f_match f, d))
                c1 d1 (λ _ _ h, h) H1) as H2.
  destruct (replace1 (div_re "footer-logo") _ c1 d1) as [c2 d2]. cbn [snd] in H2.
  pose proof (foldl_keeps I (λ acc : string * dict, acc.2)
    (λ '(content, d) '(text, k),
       (replace_str ("<h4>" +:+ text +:+ "</h4>")
          ("<h4>" +:+ ph "shared" k +:+ "</h4>") content, addShared k text d))
    h4Map (c2, d2)) as H3.
  destruct (foldl _ (c2, d2) h4Map) as [c3 d3]. cbn [snd] in H3.
  assert (Hd3 : I d3).
  { apply H3; [| done]. intros [c dd] [text k] Hd. by apply I_shared. }
  clear H3.
  pose proof (foldl_keeps I (λ acc : string * dict, acc.2)
    (λ '(content, d) '(text, k),
       (templateLinkText content (text, k), addShared k text d))
    footerLinks (c3, d3)) as H4.
  destruct (foldl _ (c3, d3) footerLinks) as [c4 d4]. cbn [snd] in H4.
  assert (Hd4 : I d4).
  { apply H4; [| done]. intros [c dd] [text k] Hd. by apply I_shared. }
  clear H4.
  pose proof (replace1_keeps I (p_class_re "disclaimer")
                (toShared "footer_disclaimer") c4 d4 (toShared_inv _) Hd4) as H5.
  destruct (replace1 _ (toShared "footer_disclaimer") c4 d4) as [c5 d5].
  cbn [snd] in H5.
  apply replace1_keeps; [| done].
  intros f st Hst. cbn [snd]. by apply I_shared.
Qed.

Lemma templateFooter_inv html d : I d → I (templateFooter html d).2.
Proof using Type*.
  intros H. unfold templateFooter. apply replace1_keeps; [| done].
  intros f st Hst. pose proof (footerContent_inv (group 2 (f_caps f)) st Hst) as H1.
  by destruct (footerContent _ st).
Qed.

Lemma regionName_inv name k html d : I d → I (regionName name k html d).2.
Proof using Type*.
  intros H. unfold regionName. apply replace_all_keeps; [| done].
  intros f st Hst. cbn [snd]. by apply I_shared.
Qed.

Lemma templateRegionPopup_inv html d : I d → I (templateRegionPopup html d).2.
Proof using Type*.
  intros H. unfold templateRegionPopup.
  pose proof (replace1_keeps I region_title_re (toShared "region_title") html d
                (toShared_inv _) H) as H1.
  destruct (replace1 region_title_re _ html d) as [h1 d1]. cbn [snd] in H1.
  pose proof (replace1_keeps I (p_class_re "region-popup-subtitle")
                (toShared "region_subtitle") h1 d1 (toShared_inv _) H1) as H2.
  destruct (replace1 (p_class_re _) _ h1 d1) as [h2 d2]. cbn [snd] in H2.
  pose proof (replace1_keeps I region_discount_re (toShared "region_discount_text")
                h2 d2 (toShared_inv _) H2) as H3.
  destruct (replace1 region_discount_re _ h2 d2) as [h3 d3]. cbn [snd] in H3.
  pose proof (regionName_inv "Europe" "region_europe" h3 d3 H3) as H4.
  destruct (regionName "Europe" _ h3 d3) as [h4 d4]. cbn [snd] in H4.
  by apply regionName_inv.
Qed.

Lemma processPage_inv html d out :
  I d → processPage JSON_parse JSON_stringify pk html d = Some out → I out.2.
Proof using Type*.
  intros H. unfold processPage.
  pose proof (I_reset pk d Hpk H) as H0.
  destruct (String.eqb pk "discount_tesery"); [by intros [= <-] |].
  pose proof (extractMeta_inv html _ H0) as H1.
  destruct (extractMeta html pk _) as [h1 d1]. cbn [snd] in H1.
  pose proof (extractJsonLd_inv (templateStructural h1) d1 H1) as H2.
  destruct (extractJsonLd _ _ _ pk d1) as [h2 d2]. cbn [snd] in H2.
  pose proof (templateNav_inv h2 d2 H2) as H3.
  destruct (templateNav h2 d2) as [h3 d3]. cbn [snd] in H3.
  destruct (extractBodyText h3 pk d3) as [[h4 d4]|] eqn:E4; [| done].
  pose proof (extractBodyText_inv _ _ _ H3 E4) as H4.
  cbn [mbind option_bind snd] in *.
  pose proof (templateFooter_inv h4 d4 H4) as H5.
  destruct (templateFooter h4 d4) as [h5 d5]. cbn [snd] in H5.
  pose proof (templateRegionPopup_inv h5 d5 H5) as H6.
  destruct (templateRegionPopup h5 d5) as [h6 d6]. cbn [snd] in H6.
  by intros [= <-].
Qed.
End OnePage.

Lemma run_inv JSON_parse JSON_stringify pages d out :
  Forall (λ p : string * option string, P p.1) pages →
  I d → run JSON_parse JSON_stringify pages d = Some out → I out.2.
Proof using Type*.
  intros Hpages. revert d out.
  induction Hpages as [|[pk [html|]] pages Hpk _ IH]; intros d out H Hrun.
  - by injection Hrun as <-.
  - cbn [run] in Hrun.
    destruct (processPage _ _ pk html d) as [[t d1]|] eqn:E1; [| done].
    pose proof (processPage_inv pk Hpk _ _ _ _ _ H E1) as H1.
    cbn [mbind option_bind snd] in *.
    destruct (run _ _ pages d1) as [[ts d2]|] eqn:E2; [| done].
    injection Hrun as <-. by apply (IH _ _ H1 E2).
  - cbn [run] in Hrun. by apply (IH _ _ H Hrun).
Qed.

End Invariant.

(** X16. A run writes to the shared section and to the sections of its
    own pages only: every other section of the dictionary is afterwards
    what it was before. *)
Theorem run_leaves_other_sections
    (JSON_parse : string → option json) (JSON_stringify : json → string)
    (s : string) (pages : list (string * option string))
    (d : dict) (out : list (string * string) * dict) :
  s ≠ "shared" →
  Forall (λ p : string * option string, p.1 ≠ s) pages →
  run JSON_parse JSON_stringify pages d = Some out →
  out.2 !! s = d !! s.
Proof.
  intros Hs Hpages Hrun.
  apply (run_inv (λ d', d' !! s = d !! s) (λ pk, pk ≠ s)) with (4 := Hpages) (6 := Hrun);
    [| | | done].
  - intros k v d' H. unfold addShared.
    destruct (_ !! k) as [[|]|]; rewrite ?lookup_insert_ne; done.
  - intros pk k v d' Hpk H. unfold addString. by rewrite lookup_insert_ne.
  - intros pk d' Hpk H. by rewrite lookup_insert_ne.
Qed.

Lemma two_pages_legal_run :
  run no_parse no_stringify two_pages legal = Some two_pages_legal.
Proof. apply default_Some. vm_compute. reflexivity. Qed.

Lemma run_leaves_other_sections_witness :
  two_pages_legal.2 !! "legal" = legal !! "legal".
Proof.
  exact (run_leaves_other_sections no_parse no_stringify "legal" two_pages legal
           two_pages_legal ltac:(discriminate)
           ltac:(repeat constructor; discriminate) two_pages_legal_run).
Defined.

Lemma star_cls_lazy {A} (p : ascii → bool) (k : kont A) n pos s c :
  String.length s ≤ n →
  (∀ pos' a s' c', p a = true → k pos' (String a s') c' = None) →
  star_loop false (rmatch (Cls p)) k n pos s c =
  k (pos + String.length (Str.run p s))
    (Str.drop (String.length (Str.run p s)) s) c.
Proof.
  intros Hn Hk. revert pos s Hn. induction n as [|n IH]; intros pos s Hn.
  - destruct s; [| cbn in Hn; lia]. cbn. by rewrite Nat.add_0_r.
  - destruct s as [|a s].
    + cbn. rewrite Nat.add_0_r. by destruct (k pos "" c).
    + cbn [star_loop Str.run]. rewrite rmatch_cls. destruct (p a) eqn:Hp.
      * rewrite (Hk _ _ _ _ Hp). cbn [String.length Str.drop].
        replace (String.length s <? S (String.length s)) with true
          by (symmetry; apply Nat.ltb_lt; lia).
        rewrite IH by (cbn in Hn; lia). f_equal. lia.
      * cbn. rewrite Nat.add_0_r. by destruct (k pos (String a s) c).
Qed.

Lemma all_run (p : ascii → bool) (s : string) : Str.all p (Str.run p s) = true.
Proof. induction s as [|a s IH]; [done |]. cbn. destruct (p a) eqn:E; [| done]. cbn. by rewrite E. Qed.

Lemma run_stops (p : ascii → bool) (s : string) (c : ascii) (rest : string) :
  Str.drop (String.length (Str.run p s)) s = String c rest → p c = false.
Proof.
  induction s as [|a s IH]; [done |]. cbn. destruct (p a) eqn:E.
  - cbn. apply IH.
  - cbn. by intros [= <- _].
Qed.

Lemma nq_false (c : ascii) : nq c = false → c = Str.dquote.
Proof. unfold nq. intros H. apply Ascii.eqb_eq. by destruct (Ascii.eqb c _). Qed.

Lemma href_at_inv s r rest :
  href_at s = Some (r, rest) →
  s = href r +:+ rest ∧ Str.all nq r = true.
Proof.
  unfold href_at, href. intros H.
  destruct (Str.startsWith _ s) eqn:H1; [| done].
  apply startsWith_inv in H1. change (String.length (Str.q "href='")) with 6 in H1.
  remember (Str.drop 6 s) as s0 eqn:E0. clear E0. subst s.
  destruct s0 as [|b s1]; [done |].
  destruct (Ascii.eqb_spec "/"%char b) as [<- | Hb]; [| done].
  pose proof (run_drop nq s1) as H2. pose proof (all_run nq s1) as H3.
  pose proof (run_stops nq s1) as H4.
  remember (Str.run nq s1) as r0 eqn:E2. clear E2.
  destruct (Str.drop _ s1) as [|c rest0] eqn:E3; [done |].
  specialize (H4 c rest0 eq_refl). apply nq_false in H4. subst c.
  injection H as <- <-. split; [| done]. rewrite H2.
  change (Str.q "href='/") with (Str.q "href='" +:+ "/").
  change (Str.q "'") with (String Str.dquote "").
  by rewrite <- !s_app_assoc.
Qed.

Lemma href_at_here r rest :
  Str.all nq r = true → href_at (href r +:+ rest) = Some (r, rest).
Proof.
  intros Hr. unfold href_at, href.
  change (Str.q "href='/") with (Str.q "href='" +:+ "/").
  change (Str.q "'") with (String Str.dquote "").
  rewrite <- !s_app_assoc, startsWith_app.
  change 6 with (String.length (Str.q "href='")). rewrite s_drop_app.
  rewrite s_app_cons, s_app_nil_l. cbn [Ascii.eqb Bool.eqb].
  rewrite s_app_cons, s_app_nil_l.
  rewrite (run_app_stop nq r (String Str.dquote rest)) by done.
  by rewrite s_drop_app.
Qed.

Lemma href_length r : String.length (href r) = 8 + String.length r.
Proof. unfold href. rewrite !s_length_app. cbn. lia. Qed.

Lemma rmatch_href {A} (k : kont A) pos s c :
  rmatch href_re k pos s c =
  match href_at s with
  | Some (r, rest) => k (pos + String.length (href r)) rest ((1, String "/" r) :: c)
  | None => None
  end.
Proof.
  unfold href_re, href_at. cbn [seqs].
  rewrite rmatch_seq, rmatch_lit.
  destruct (Str.startsWith _ s); [| done].
  change (String.length (Str.q "href='")) with 6.
  rewrite rmatch_seq, rmatch_grp, rmatch_seq, rmatch_chr.
  destruct (Str.drop 6 s) as [|b s1]; [done |].
  destruct (Ascii.eqb_spec "/"%char b) as [<- | Hb]; [| done].
  unfold star_lazy, not_dquote. rewrite rmatch_star.
  rewrite star_cls_lazy; [| lia |].
  2:{ intros pos' a s' c' Ha. rewrite rmatch_chr.
      rewrite Ascii.eqb_sym. by destruct (Ascii.eqb a Str.dquote). }
  fold nq. rewrite rmatch_chr.
  pose proof (run_stops nq s1) as Hstop.
  destruct (Str.drop (String.length (Str.run nq s1)) s1) as [|d rest]; [done |].
  rewrite (nq_false d (Hstop d rest eq_refl)), Ascii.eqb_refl.
  rewrite href_length. f_equal; [lia |]. f_equal. f_equal.
  replace (_ - _) with (S (String.length (Str.run nq s1))) by lia.
  cbn [Str.take]. f_equal. by apply take_run.
Qed.

Lemma match_here_href pos s :
  match_here href_re pos s =
  match href_at s with
  | Some (r, rest) => Some (Found pos (href r) [(1, String "/" r)] rest)
  | None => None
  end.
Proof.
  unfold match_here. rewrite rmatch_href.
  destruct (href_at s) as [[r rest]|] eqn:H; [| done].
  apply href_at_inv in H as [-> _].
  replace (pos + _ - pos) with (String.length (href r)) by lia.
  by rewrite s_take_app.
Qed.

(** The replacer of [templateInternalLinks]. *)
Lemma templateInternalLinks_unfold html :
  templateInternalLinks html =
  (replace_go (S (String.length html)) href_re (λ f (_ : unit), (linkFn f, tt)) 0 html tt).1.
Proof. reflexivity. Qed.

Lemma linkFn_relink pos r rest :
  linkFn (Found pos (href r) [(1, String "/" r)] rest) = relink r.
Proof.
  unfold linkFn, relink, keptLink. cbn [f_caps f_match group Nat.eqb].
  destruct (test asset_re _); [done |].
  destruct (_ || _); [done |]. destruct (_ || _); [done |].
  destruct (Str.includes _ _); [done |]. cbn [orb].
  unfold href. change (Str.q "href='/{{localePath}}") with (Str.q "href='/" +:+ "{{localePath}}").
  by rewrite <- !s_app_assoc.
Qed.

Lemma href_cons r : ∃ t, href r = String "h" t.
Proof. unfold href. change (Str.q "href='/") with (String "h" (Str.q "ref='/")).
  rewrite s_app_cons. by eexists. Qed.

Local Abbreviation fnl := (λ f (_ : unit), (linkFn f, tt)).

Lemma replace_go_match {T} fuel r (fn : found → T → string * T) pos s st f :
  match_here r pos s = Some f → f_match f ≠ "" →
  replace_go (S fuel) r fn pos s st =
  let '(rep, st1) := fn f st in
  let '(out, st2) :=
    replace_go fuel r fn (pos + String.length (f_match f)) (f_rest f) st1 in
  (rep +:+ out, st2).
Proof.
  intros H Hm. cbn [replace_go]. rewrite H. destruct (fn f st) as [rep st1].
  by destruct (f_match f) eqn:E.
Qed.

Lemma links_step fuel pos s :
  replace_go (S fuel) href_re fnl pos s tt =
  match href_at s with
  | Some (r, rest) =>
      let '(out, _) := replace_go fuel href_re fnl (pos + String.length (href r)) rest tt in
      (relink r +:+ out, tt)
  | None =>
      match s with
      | "" => ("", tt)
      | String a s' =>
          let '(out, _) := replace_go fuel href_re fnl (S pos) s' tt in
          (String a out, tt)
      end
  end.
Proof.
  destruct (href_at s) as [[r rest]|] eqn:E.
  - erewrite replace_go_match; [| by rewrite match_here_href, E |].
    + rewrite linkFn_relink. cbn [f_match f_rest].
      by destruct (replace_go _ _ _ _ _ _) as [? []].
    + cbn [f_match]. by destruct (href_cons r) as [t ->].
  - cbn [replace_go]. rewrite match_here_href, E.
    destruct s; [done |]. by destruct (replace_go _ _ _ _ _ _) as [? []].
Qed.

Lemma s_take_app_le (k : nat) (x y : string) :
  k ≤ String.length x → Str.take k (x +:+ y) = Str.take k x.
Proof.
  revert k. induction x as [|a x IH]; intros [|k] H; cbn in *; try done; try lia.
  rewrite s_app_cons. cbn. f_equal. apply IH. lia.
Qed.

Lemma href_take k r y : k ≤ 7 → Str.take k (href r +:+ y) = Str.take k (Str.q "href='/").
Proof.
  intros H. unfold href. rewrite <- !s_app_assoc. by apply s_take_app_le.
Qed.

Lemma relink_href r :
  ∃ r2, relink r = href r2 ∧ (Str.all nq r = true → Str.all nq r2 = true) ∧
        relink r2 = href r2.
Proof.
  unfold relink. destruct (keptLink (String "/" r)) eqn:E.
  - exists r. by rewrite E.
  - exists ("{{localePath}}" +:+ r). split; [done |]. split.
    + intros H. by rewrite all_app, H.
    + unfold keptLink. replace (Str.includes "{{" _) with true; [by rewrite !orb_true_r |].
      change ("{{localePath}}" +:+ r) with (String "{" (String "{" ("localePath}}" +:+ r))).
      done.
Qed.

(** The pass leaves the first seven code units as they are. *)
Lemma links_take fuel pos s k :
  k ≤ 7 → Str.take k (replace_go fuel href_re fnl pos s tt).1 = Str.take k s.
Proof.
  revert pos s k. induction fuel as [|fuel IH]; intros pos s k Hk; [done |].
  rewrite links_step. destruct (href_at s) as [[r rest]|] eqn:E.
  - apply href_at_inv in E as [-> _].
    destruct (replace_go _ _ _ _ _ _) as [out []]. cbn [fst].
    destruct (relink_href r) as (r2 & -> & _). by rewrite !href_take.
  - destruct s as [|a s]; [done |].
    specialize (IH (S pos) s). destruct (replace_go _ _ _ _ _ _) as [out []].
    cbn [fst] in *. destruct k as [|k]; [done |]. cbn. f_equal. apply IH. lia.
Qed.

Lemma startsWith_take (p s : string) :
  Str.startsWith p s = Str.startsWith p (Str.take (String.length p) s).
Proof.
  revert s. induction p as [|a p IH]; intros [|b s]; cbn; try done.
  by rewrite IH.
Qed.

Lemma href_at_needs s : Str.startsWith (Str.q "href='/") s = false → href_at s = None.
Proof.
  intros H. destruct (href_at s) as [[r rest]|] eqn:E; [| done].
  apply href_at_inv in E as [-> _]. unfold href in H.
  by rewrite <- !s_app_assoc, startsWith_app in H.
Qed.

Lemma nq_no_href s n : Str.all nq s = true → href_at (Str.drop n s) = None.
Proof.
  intros H. apply href_at_needs.
  destruct (Str.startsWith _ _) eqn:E; [| done].
  apply startsWith_inv in E.
  assert (Str.all nq (Str.drop n s) = true) as Hd.
  { clear E. revert n. induction s as [|a s IH]; intros [|n]; try done.
    cbn in H. apply andb_true_iff in H as [_ H]. by apply IH. }
  rewrite E, all_app in Hd. done.
Qed.

(** A link without its closing quote is left as it is. *)
Lemma links_open fuel pos s1 :
  Str.all nq s1 = true → String.length s1 + 6 < fuel →
  (replace_go fuel href_re fnl pos (Str.q "ref='/" +:+ s1) tt).1 = Str.q "ref='/" +:+ s1.
Proof.
  intros H Hf.
  change (Str.q "ref='/") with (String "r" (String "e" (String "f" (String "="
                                 (String Str.dquote (String "/" "")))))).
  rewrite !s_app_cons, s_app_nil_l.
  do 6 (destruct fuel as [|fuel]; [cbn in Hf; lia |]; rewrite links_step;
        match goal with |- context [href_at ?x] =>
          replace (href_at x) with (@None (string * string)) by done end;
        match goal with |- context [replace_go fuel ?r ?fn ?p ?x ?st] =>
          let E := fresh "E" in
          destruct (replace_go fuel r fn p x st) as [? []] eqn:E; cbn [fst];
          f_equal; apply (f_equal fst) in E; cbn [fst] in E; rewrite <- E; clear E
        end).
  rewrite replace_go_none; [done | lia |].
  intros n pos'. rewrite match_here_href. by rewrite nq_no_href.
Qed.

Lemma links_idem fuel1 :
  ∀ s pos1, String.length s < fuel1 →
  ∀ fuel2 pos2,
    String.length (replace_go fuel1 href_re fnl pos1 s tt).1 < fuel2 →
    (replace_go fuel2 href_re fnl pos2 (replace_go fuel1 href_re fnl pos1 s tt).1 tt).1 =
    (replace_go fuel1 href_re fnl pos1 s tt).1.
Proof.
  induction fuel1 as [|fuel1 IH]; intros s pos1 Hf1 fuel2 pos2; [lia |].
  rewrite links_step. destruct (href_at s) as [[r rest]|] eqn:E.
  - apply href_at_inv in E as [-> Hr].
    specialize (IH rest (pos1 + String.length (href r))).
    destruct (replace_go fuel1 _ _ _ rest tt) as [X []]. cbn [fst] in *.
    destruct (relink_href r) as (r2 & -> & Hr2 & Hre).
    intros Hf2. destruct fuel2 as [|fuel2]; [lia |].
    rewrite links_step, href_at_here by auto. rewrite Hre.
    rewrite s_length_app, href_length in Hf2. rewrite s_length_app, href_length in Hf1.
    specialize (IH ltac:(lia) fuel2 (pos2 + String.length (href r2)) ltac:(lia)).
    destruct (replace_go fuel2 _ _ _ X tt) as [Y []]. cbn [fst] in *. by rewrite IH.
  - destruct s as [|a s].
    + intros Hf2. destruct fuel2; [cbn in Hf2; lia | done].
    + pose proof (links_take fuel1 (S pos1) s 6 ltac:(lia)) as Htake.
      assert (Hopen : Str.startsWith (Str.q "href='/") (String a s) = true →
                      (replace_go fuel1 href_re fnl (S pos1) s tt).1 = s).
      { intros Hs. apply startsWith_inv in Hs.
        change (Str.drop (String.length (Str.q "href='/")) (String a s))
          with (Str.drop 6 s) in Hs.
        remember (Str.drop 6 s) as s1 eqn:E1 in Hs. clear E1.
        change (Str.q "href='/") with (String "h" (Str.q "ref='/")) in Hs.
        rewrite s_app_cons in Hs. injection Hs as -> ->.
        assert (Str.all nq s1 = true) as Hs1.
        { unfold href_at in E.
          change (Str.startsWith _ _) with true in E. cbn match in E.
          change (Str.drop 6 _) with (String "/" s1) in E. cbn [Ascii.eqb Bool.eqb] in E.
          cbn match in E. cbv zeta in E.
          pose proof (run_drop nq s1) as Hrd. pose proof (all_run nq s1) as Har.
          destruct (Str.drop (String.length (Str.run nq s1)) s1); [| done].
          rewrite s_app_nil_r in Hrd. by rewrite Hrd. }
        apply links_open; [done |]. cbn in Hf1. rewrite s_length_app in Hf1. cbn in Hf1. lia. }
      specialize (IH s (S pos1) ltac:(cbn in Hf1; lia)).
      destruct (replace_go fuel1 _ _ _ s tt) as [X []]. cbn [fst] in *.
      intros Hf2. destruct fuel2 as [|fuel2]; [lia |].
      assert (href_at (String a X) = None) as HX.
      { destruct (Str.startsWith (Str.q "href='/") (String a s)) eqn:Hs.
        - by rewrite (Hopen eq_refl).
        - apply href_at_needs. rewrite startsWith_take in Hs |- *.
          change (String.length (Str.q "href='/")) with 7 in *.
          cbn [Str.take] in *. by rewrite Htake. }
      rewrite links_step, HX.
      specialize (IH fuel2 (S pos2) ltac:(cbn in Hf2; lia)).
      destruct (replace_go fuel2 _ _ _ X tt) as [Y []]. cbn [fst] in *. by rewrite IH.
Qed.

(** X17. The link pass run on its own output changes nothing. *)
Theorem templateInternalLinks_idempotent (html : string) :
  templateInternalLinks (templateInternalLinks html) = templateInternalLinks html.
Proof.
  rewrite !templateInternalLinks_unfold. apply links_idem; lia.
Qed.

Lemma match_here_cls p pos s :
  match_here (Cls p) pos s =
  match s with
  | String a s' => if p a then Some (Found pos (String a "") [] s') else None
  | "" => None
  end.
Proof.
  unfold match_here. rewrite rmatch_cls. destruct s as [|a s]; [done |].
  destruct (p a); [| done]. by replace (S pos - pos) with 1 by lia.
Qed.

Lemma escRegex_go fuel pos s0 s :
  String.length s < fuel →
  (replace_go fuel (Cls special)
     (λ f (_ : unit), (expand 0 (Str.take (f_index f) s0) f "\$&", tt)) pos s tt).1
  = escaped s.
Proof.
  revert fuel pos. induction s as [|a s IH]; intros [|fuel] pos Hf; try (cbn in Hf; lia).
  - done.
  - cbn [replace_go]. rewrite match_here_cls. cbn [escaped].
    specialize (IH fuel (S pos) ltac:(cbn in Hf; lia)).
    destruct (special a).
    + cbn [f_match f_rest String.length expand]. rewrite Nat.add_1_r.
      destruct (replace_go _ _ _ _ _ _) as [out []]. cbn [fst] in *.
      rewrite s_app_nil_r, !s_app_cons, s_app_nil_l. by rewrite IH.
    + destruct (replace_go _ _ _ _ _ _) as [out []]. cbn [fst] in *. by rewrite IH.
Qed.

(** X18. [escRegex] puts one backslash in front of each of the fourteen
    special characters and changes nothing else; a text without them is
    returned as it is. *)
Theorem escRegex_protects_specials (s : string) :
  escRegex s = escaped s ∧
  (Str.all (λ a, negb (special a)) s = true → escRegex s = s) ∧
  String.length (escRegex s) =
    String.length s + length (List.filter special (String.list_ascii_of_string s)).
Proof.
  assert (H : escRegex s = escaped s) by (apply escRegex_go; lia).
  rewrite !H. clear H. repeat split.
  - induction s as [|a s IH]; [done |]. cbn [Str.all escaped].
    intros [Ha Hs]%andb_true_iff. destruct (special a); [done |]. by rewrite IH.
  - induction s as [|a s IH]; [done |].
    cbn [escaped String.list_ascii_of_string List.filter].
    destruct (special a); cbn [String.length length]; rewrite IH; lia.
Qed.

Example escRegex_samples :
  escRegex "Havnby Foam Y/3 Review" = "Havnby Foam Y/3 Review" ∧
  escRegex "a.b (c) [d] $1 x\y" = "a\.b \(c\) \[d\] \$1 x\\y".
Proof. by vm_compute. Qed.

(** *** [en.json] *)

Lemma enJson_lookup (pageKeys : list string) (d : dict) (pk : string) :
  pk ≠ "_meta" → pk ≠ "shared" →
  enJson pageKeys d !! pk =
  if bool_decide (pk ∈ pageKeys) then
    match d !! pk with
    | Some sec => if 0 <? size sec then Some sec else None
    | None => None
    end
  else None.
Proof.
  intros Hm Hs. unfold enJson.
  set (init := ({[ "_meta" := meta_en; "shared" := section_of d "shared" ]} : dict)).
  assert (Hinit : init !! pk = None).
  { unfold init. rewrite lookup_insert_ne by done. by rewrite lookup_singleton_ne. }
  revert Hinit. generalize init. clear init.
  induction pageKeys as [|k ks IH]; intros acc Hacc; cbn [foldl].
  - by rewrite bool_decide_eq_false_2 by set_solver.
  - destruct (decide (pk = k)) as [<- | Hne].
    + rewrite bool_decide_eq_true_2 by set_solver.
      destruct (d !! pk) as [sec|] eqn:Hd.
      * destruct (0 <? size sec) eqn:Hsz.
        -- clear IH Hacc. generalize (<[pk := sec]> acc), (lookup_insert_eq acc pk sec).
           induction ks as [|k' ks IH]; intros acc' Hacc'; cbn [foldl]; [done |].
           apply IH. destruct (d !! k') as [sec'|] eqn:Hd'; [| done].
           destruct (0 <? size sec'); [| done].
           destruct (decide (k' = pk)) as [-> | Hk].
           ++ rewrite lookup_insert_eq. congruence.
           ++ by rewrite lookup_insert_ne.
        -- rewrite (IH acc Hacc), ?Hd, ?Hsz. by destruct (bool_decide _).
      * rewrite (IH acc Hacc), ?Hd. by destruct (bool_decide _).
    + rewrite IH.
      * destruct (bool_decide (pk ∈ ks)) eqn:E.
        -- apply bool_decide_eq_true_1 in E. by rewrite bool_decide_eq_true_2 by set_solver.
        -- apply bool_decide_eq_false_1 in E. by rewrite bool_decide_eq_false_2 by set_solver.
      * destruct (d !! k) as [sec|]; [| done].
        destruct (0 <? size sec); [| done]. by rewrite lookup_insert_ne.
Qed.

(** X19. [en.json] has no empty page section: the section of a page is
    written exactly when the page is in the registry and its section has
    a key. *)
Theorem enJson_has_no_empty_page_section
    (pageKeys : list string) (d : dict) (pk : string) (sec : gmap string string) :
  pk ≠ "_meta" → pk ≠ "shared" →
  (enJson pageKeys d !! pk = Some sec ↔ pk ∈ pageKeys ∧ d !! pk = Some sec ∧ sec ≠ ∅).
Proof.
  intros Hm Hs. rewrite enJson_lookup by done.
  destruct (bool_decide (pk ∈ pageKeys)) eqn:E.
  - apply bool_decide_eq_true_1 in E. destruct (d !! pk) as [sec'|]; [| naive_solver].
    destruct (0 <? size sec') eqn:Hsz.
    + apply Nat.ltb_lt in Hsz. split.
      * intros [= ->]. repeat split; try done. intros ->. rewrite map_size_empty in Hsz. lia.
      * by intros (_ & [= ->] & _).
    + apply Nat.ltb_ge in Hsz. split; [done |]. intros (_ & [= ->] & Hne).
      destruct Hne. apply map_size_empty_iff. lia.
  - apply bool_decide_eq_false_1 in E. naive_solver.
Qed.

Lemma enJson_witness :
  enJson registry with_home !! "home" = Some {[ "h1" := "Best Mattress" ]} ↔
  "home" ∈ registry ∧ with_home !! "home" = Some {[ "h1" := "Best Mattress" ]} ∧
  ({[ "h1" := "Best Mattress" ]} : gmap string string) ≠ ∅.
Proof.
  exact (enJson_has_no_empty_page_section registry with_home "home"
           {[ "h1" := "Best Mattress" ]} ltac:(discriminate) ltac:(discriminate)).
Defined.

Lemma run_redirect JSON_parse JSON_stringify pages :
  ∀ d out,
  run JSON_parse JSON_stringify pages d = Some out →
  d !! "discount_tesery" = Some ∅ ∨
    (∃ html, ("discount_tesery", Some html) ∈ pages) →
  out.2 !! "discount_tesery" = Some ∅.
Proof.
  induction pages as [|[pk [html|]] pages IH]; intros d out Hrun Hd.
  - injection Hrun as <-. destruct Hd as [Hd | [html Hin]]; [done |].
    by apply elem_of_nil in Hin.
  - cbn [run] in Hrun.
    destruct (processPage _ _ pk html d) as [[t d1]|] eqn:E1; [| done].
    cbn [mbind option_bind] in Hrun.
    destruct (run _ _ pages d1) as [[ts d2]|] eqn:E2; [| done].
    injection Hrun as <-. cbn [snd]. apply (IH d1 (ts, d2) E2).
    destruct (decide (pk = "discount_tesery")) as [-> | Hne].
    + left. unfold processPage in E1. cbn [String.eqb Ascii.eqb Bool.eqb] in E1.
      injection E1 as _ <-. by rewrite lookup_insert_eq.
    + assert (d1 !! "discount_tesery" = d !! "discount_tesery") as Hd1.
      { refine (processPage_inv (λ d', d' !! "discount_tesery" = d !! "discount_tesery")
                  (λ pk, pk ≠ "discount_tesery") _ _ _ pk Hne JSON_parse JSON_stringify
                  html d (t, d1) eq_refl E1).
        - intros k v d' H. unfold addShared.
          destruct (_ !! k) as [[|]|]; rewrite ?lookup_insert_ne; done.
        - intros pk' k v d' Hpk H. unfold addString. by rewrite lookup_insert_ne.
        - intros pk' d' Hpk H. by rewrite lookup_insert_ne. }
      rewrite Hd1. destruct Hd as [Hd | [h Hin]]; [by left | right].
      exists h. apply elem_of_cons in Hin as [[= ? ?] | Hin]; done.
  - cbn [run] in Hrun. apply (IH d out Hrun).
    destruct Hd as [Hd | [h Hin]]; [by left | right].
    exists h. apply elem_of_cons in Hin as [[= ? ?] | Hin]; done.
Qed.

(** X20. The redirect page ends a run with an empty section, whatever the
    pages behind it, and so has no section in [en.json]. *)
Theorem redirect_page_has_no_section
    (JSON_parse : string → option json) (JSON_stringify : json → string)
    (pages : list (string * option string)) (d : dict)
    (out : list (string * string) * dict) (html : string) (pageKeys : list string) :
  ("discount_tesery", Some html) ∈ pages →
  run JSON_parse JSON_stringify pages d = Some out →
  out.2 !! "discount_tesery" = Some ∅ ∧
  enJson pageKeys out.2 !! "discount_tesery" = None.
Proof.
  intros Hin Hrun.
  assert (H : out.2 !! "discount_tesery" = Some ∅).
  { apply (run_redirect _ _ _ _ _ Hrun). right. by exists html. }
  split; [done |]. rewrite enJson_lookup, H by done. by destruct (bool_decide _).
Qed.

Lemma redirect_run :
  run no_parse no_stringify redirect_pages locale0 = Some redirect_out.
Proof. apply default_Some. vm_compute. reflexivity. Qed.

Lemma redirect_page_witness :
  redirect_out.2 !! "discount_tesery" = Some ∅ ∧
  enJson registry redirect_out.2 !! "discount_tesery" = None.
Proof.
  exact (redirect_page_has_no_section no_parse no_stringify redirect_pages locale0
           redirect_out _ registry ltac:(apply list_elem_of_here) redirect_run).
Defined.

End Extraction.

(** ** Further properties of the translation refresh *)

Module Refresh.
Import Translate Scenarios TranslateFacts StrFacts ScanFacts Rendering Extraction.

(** *** The command line *)

Lemma join_split_sep (sep : ascii) (cur s : string) :
  Str.join (String sep "") (Str.split_go sep cur s) = String.rev cur +:+ s.
Proof.
  revert cur. induction s as [|a s IH]; intros cur.
  - cbn. by rewrite s_app_nil_r.
  - cbn [Str.split_go]. destruct (Ascii.eqb a sep) eqn:E.
    + apply Ascii.eqb_eq in E as ->.
      assert (∀ x l, l ≠ [] →
                Str.join (String sep "") (x :: l) =
                x +:+ String sep "" +:+ Str.join (String sep "") l)
        as Hj by (by intros x [|y l]).
      rewrite Hj, IH; [done | apply split_go_nonempty].
    + by rewrite IH, s_rev_cons, <- s_app_assoc.
Qed.

Lemma split_go_no_sep (sep : ascii) (cur s : string) :
  Str.includes (String sep "") cur = false →
  Forall (λ x, Str.includes (String sep "") x = false) (Str.split_go sep cur s).
Proof.
  assert (Hrev : ∀ x, Str.includes (String sep "") x = false →
                      Str.includes (String sep "") (String.rev x) = false).
  { induction x as [|b x IHx]; [done |]. cbn [Str.includes Str.startsWith].
    rewrite andb_true_r. intros [Hb Hx]%orb_false_iff. rewrite s_rev_cons.
    apply includes_app_false; [by apply IHx |]. cbn. by rewrite andb_true_r, Hb. }
  revert cur. induction s as [|a s IH]; intros cur Hcur; cbn [Str.split_go].
  - constructor; [by apply Hrev | constructor].
  - destruct (Ascii.eqb a sep) eqn:E.
    + constructor; [by apply Hrev | by apply IH].
    + apply IH. cbn [Str.includes Str.startsWith]. rewrite andb_true_r, Hcur, orb_false_r.
      by rewrite Ascii.eqb_sym.
Qed.

(** X21. [getArg] reads the word behind the first occurrence of the flag:
    it answers with a list exactly when that word is there and not empty,
    and the list is that word cut at its commas, so that its items hold
    no comma and joined by commas give the word back. *)
Theorem getArg_reads_the_word_after_the_flag
    (name : string) (args : list string) (l : list string) :
  getArg name args = Some l ↔
  ∃ pre v post,
    args = pre ++ name :: v :: post ∧ (name ∉ pre) ∧ v ≠ "" ∧
    l = Str.split "," v ∧ Str.join "," l = v ∧ l ≠ [] ∧
    Forall (λ x, Str.includes "," x = false) l.
Proof.
  induction args as [|a args IH]; cbn [getArg].
  - split; [done |]. intros (pre & v & post & H & _). by destruct pre.
  - destruct (String.eqb a name) eqn:E.
    + apply String.eqb_eq in E as ->. split.
      * destruct args as [|[|c v] post]; try done. intros [= <-].
        exists [], (String c v), post. repeat split; try done.
        -- apply not_elem_of_nil.
        -- unfold Str.split. by rewrite join_split_sep.
        -- apply split_go_nonempty.
        -- by apply split_go_no_sep.
      * intros (pre & v & post & H & Hpre & Hv & -> & _).
        destruct pre as [|x pre].
        -- injection H as ->. by destruct v.
        -- injection H as -> _. destruct Hpre. apply list_elem_of_here.
    + apply String.eqb_neq in E. rewrite IH. split.
      * intros (pre & v & post & -> & Hpre & H). exists (a :: pre), v, post.
        split; [done |]. split; [| done]. rewrite not_elem_of_cons. by split.
      * intros (pre & v & post & H & Hpre & H'). destruct pre as [|x pre].
        -- by injection H as -> _.
        -- injection H as -> ->. exists pre, v, post. split; [done |].
           split; [| done]. by apply not_elem_of_cons in Hpre as [_ ?].
Qed.

Example getArg_samples :
  getArg "--locales" ["--sections"; "home,shared"; "--locales"; "de,fr"] = Some ["de"; "fr"] ∧
  getArg "--locales" ["--locales"] = None ∧
  getArg "--locales" ["--locales"; ""] = None ∧
  getArg "--locales" ["--sections"; "home"] = None.
Proof. by vm_compute. Qed.

Section Loop.
Variable translateSection : string → held → string → answer.

Local Abbreviation step := (step translateSection).
Local Abbreviation translateLocale := (translateLocale translateSection).
Local Abbreviation main := (main translateSection).

Lemma step_counted en locale st k : counted st → counted (step en locale st k).
Proof.
  intros (Ha & Hb & Hc).
  destruct (step_cases translateSection en locale st k) as [-> | (src & Ht & _ & _ & ->)];
    [done |].
  rewrite Ht in Ha. unfold counted.
  destruct (translateSection k src locale);
    cbn [translated failed thrown calls writes localeData];
    rewrite ?length_app, ?last_snoc; cbn [length]; repeat split; try lia; done.
Qed.

Lemma round_counted en sections locale file :
  counted (translateLocale en sections locale file).
Proof.
  unfold Translate.translateLocale.
  apply foldl_step_inv; [intros st k _; apply step_counted |].
  by repeat split.
Qed.

Lemma foldl_calls_le en locale l st :
  length (calls (foldl (step en locale) st l)) ≤ length (calls st) + length l.
Proof.
  revert st. induction l as [|k l IH]; intros st; cbn [foldl length]; [lia |].
  specialize (IH (step en locale st k)).
  assert (Hle : length (calls (step en locale st k)) ≤ S (length (calls st))).
  { destruct (step_cases translateSection en locale st k)
      as [-> | (src & _ & _ & _ & ->)]; [lia |].
    destruct (translateSection k src locale); cbn [calls];
      rewrite length_app; cbn; lia. }
  lia.
Qed.

(** X22. In a round every request that returns is counted once, as
    translated or as failed, and is followed by one write of the locale
    file; at most one request throws, and that one is not counted and is
    followed by no write; there are no more requests than sections
    listed; and the last text written is the locale data of the end. *)
Theorem refresh_writes_after_every_request
    (en : dict) (sections : list string) (locale : string) (file : option dict) :
  let st := translateLocale en sections locale file in
  translated st + failed st + (if thrown st then 1 else 0) = length (calls st) ∧
  length (writes st) = translated st + failed st ∧
  length (calls st) ≤ length sections ∧
  (writes st ≠ [] → last (writes st) = Some (written (localeData st))).
Proof.
  cbv zeta. destruct (round_counted en sections locale file) as (Ha & Hb & Hc).
  repeat split; try done.
  unfold Translate.translateLocale. etrans; [apply foldl_calls_le |]. cbn. lia.
Qed.

(** X23. A round changes the sections it is asked to refresh and the
    entry [_meta], which it sets to the table entry of the locale; every
    other section of the locale data stays as it was read from the locale
    file, and is written back as it was read. *)
Theorem refresh_touches_selected_sections_only
    (en : dict) (sections : list string) (locale : string) (file : option dict) (k : string) :
  k ∉ sections →
  localeData (translateLocale en sections locale file) !! k =
    (if String.eqb k "_meta" then Some (metaOf locale) else Obj <$> (file ≫= (.!! k))) ∧
  (k ≠ "_meta" →
   written (localeData (translateLocale en sections locale file)) !! k = file ≫= (.!! k)).
Proof.
  intros Hk.
  assert (H : localeData (translateLocale en sections locale file) !! k =
              if String.eqb k "_meta" then Some (metaOf locale)
              else Obj <$> (file ≫= (.!! k))).
  { unfold Translate.translateLocale. rewrite foldl_step_frame by done.
    cbn [localeData]. destruct (String.eqb k "_meta") eqn:E.
    - apply String.eqb_eq in E as ->. by rewrite lookup_insert_eq.
    - apply String.eqb_neq in E. rewrite lookup_insert_ne, lookup_fmap by done.
      by destruct file. }
  split; [done |]. intros Hne%String.eqb_neq. unfold written.
  rewrite lookup_omap, H, Hne. by destruct (file ≫= (.!! k)).
Qed.

(** The rounds of [main], one locale after the other. *)
Lemma main_frame en sections (locales : list string) code
    (acc : gmap string dict * list (string * state)) :
  code ∉ List.filter isTarget locales →
  (foldl (λ '(files, rounds) locale,
            if existsb (λ r, thrown r.2) rounds then (files, rounds)
            else if isTarget locale then
              let st := translateLocale en sections locale (files !! locale) in
              (match last (writes st) with
               | Some w => <[locale := w]> files
               | None => files
               end,
               rounds ++ [(locale, st)])
            else (files, rounds))
     acc locales).1 !! code = acc.1 !! code.
Proof.
  revert acc. induction locales as [|locale locales IH]; intros [files rounds] Hc; [done |].
  cbn [foldl]. cbn [List.filter] in Hc.
  destruct (existsb _ rounds); [rewrite IH; [done |] |].
  { destruct (isTarget locale); [| done]. by apply not_elem_of_cons in Hc as [_ ?]. }
  destruct (isTarget locale).
  - apply not_elem_of_cons in Hc as [Hne Hc]. rewrite IH by done. cbn [fst].
    destruct (last _); [| done]. by rewrite lookup_insert_ne.
  - by rewrite IH.
Qed.

(** X24. [main] writes the locale file of no code but the listed ones
    that pass the test for a target: the file of every other code is at
    the end what it was at the start, and so is the source file. *)
Theorem main_writes_listed_targets_only
    (en : dict) (allSections : list string)
    (selectedSections selectedLocales : option (list string))
    (files : gmap string dict) (code : string) :
  code ∉ default TARGET_LOCALES selectedLocales ∨ isTarget code = false →
  (main en allSections selectedSections selectedLocales files).1 !! code = files !! code ∧
  (main en allSections selectedSections selectedLocales files).1 !! "en" = files !! "en".
Proof.
  intros Hc. unfold Translate.main. split; rewrite main_frame; try done.
  - intros Hin. apply list_elem_of_In, filter_In in Hin as [Hin Ht].
    apply list_elem_of_In in Hin. destruct Hc as [Hc | Hc]; [done |].
    by rewrite Hc in Ht.
  - intros Hin. by apply list_elem_of_In, filter_In in Hin as [_ Ht].
Qed.

(** *** A complete round is a fixed point *)

Hypothesis faithful : ∀ k src locale r,
  translateSection k src locale = Answer r → size r = keyCount (Held src).

(** No section has been made the prototype, and none will be. *)
Lemma step_proto_none en locale st k :
  en !! "__proto__" = None → proto st = None → proto (step en locale st k) = None.
Proof.
  intros Hen Hp.
  destruct (decide (k = "__proto__")) as [-> | Hne]; [| by rewrite step_proto].
  destruct (step_cases translateSection en locale st "__proto__")
    as [-> | (src & _ & Hsrc & Hu & ->)]; [done |].
  destruct (translateSection "__proto__" src locale); cbn [proto]; try done.
  unfold assign. destruct (localeData st !! "__proto__") as [h|] eqn:Hl.
  - rewrite (bool_decide_eq_false_2 (Some h = None)) by done. by rewrite andb_false_r.
  - exfalso. revert Hu. unfold upToDate, copy, source in *. rewrite Hl, Hp.
    rewrite Hen in Hsrc. by injection Hsrc as <-.
Qed.

Lemma step_sections_only en locale st k :
  k ≠ "_meta" → sections_only (localeData st) →
  sections_only (localeData (step en locale st k)).
Proof.
  intros Hk Hs.
  destruct (step_cases translateSection en locale st k) as [-> | (src & _ & _ & _ & ->)];
    [done |].
  destruct (translateSection k src locale); cbn [localeData]; try done.
  unfold assign. destruct (_ && _); cbn [fst]; [done |].
  intros k' h. destruct (decide (k' = k)) as [-> | Hne].
  - rewrite lookup_insert_eq. intros [= <-] _. by eexists.
  - rewrite lookup_insert_ne by done. apply Hs.
Qed.

Lemma upToDate_ext st st' k src :
  localeData st !! k = localeData st' !! k → proto st = proto st' →
  upToDate st k src = upToDate st' k src.
Proof. unfold upToDate. intros H ->. by rewrite (copy_ext _ _ _ _ H). Qed.

Lemma step_fresh_stays en locale st k k' :
  en !! "__proto__" = None → proto st = None →
  fresh en st k' → fresh en (step en locale st k) k'.
Proof using faithful.
  intros Hen Hp Hf src Hsrc.
  pose proof (step_proto_none en locale st k Hen Hp) as Hp'.
  destruct (decide (k' = k)) as [-> | Hne].
  - destruct (step_cases translateSection en locale st k)
      as [-> | (src' & _ & Hsrc' & _ & Heq)]; [by apply Hf |].
    rewrite Hsrc in Hsrc'. injection Hsrc' as <-.
    rewrite Heq in Hp' |- *.
    destruct (translateSection k src locale) eqn:Hr;
      [by rewrite <- (Hf src Hsrc) | by rewrite <- (Hf src Hsrc) |].
    cbn [proto] in Hp'. unfold upToDate. cbn [localeData proto]. rewrite Hp'.
    unfold assign in *. destruct (_ && _); [done |]. cbn [fst snd] in *.
    unfold copy. rewrite lookup_insert_eq. cbn [truthy keyCount andb].
    apply Nat.eqb_eq, (faithful _ _ _ _ Hr).
  - rewrite (upToDate_ext _ st); [by apply Hf | by apply step_frame | by rewrite Hp].
Qed.

Lemma step_same en locale st k src :
  thrown st = false → step en locale st k = st → source en k = Some src →
  upToDate st k src = true.
Proof.
  intros Ht Heq Hsrc. unfold Translate.step in Heq. rewrite Ht, Hsrc in Heq.
  destruct (upToDate st k src); [done |]. exfalso.
  assert (Hlen : length (calls st) = length (calls st ++ [(k, src)])).
  { destruct (translateSection k src locale);
      [| | destruct (assign _ _ _ _)];
      by apply (f_equal calls) in Heq; cbn [calls] in Heq; rewrite Heq at 1. }
  rewrite length_app in Hlen. cbn in Hlen. lia.
Qed.

Lemma step_fresh en locale st k :
  en !! "__proto__" = None → proto st = None →
  thrown (step en locale st k) = false →
  failed (step en locale st k) = failed st → fresh en (step en locale st k) k.
Proof using faithful.
  intros Hen Hp Ht Hfail src Hsrc.
  pose proof (step_proto_none en locale st k Hen Hp) as Hp'.
  destruct (step_cases translateSection en locale st k)
    as [Heq | (src' & Ht0 & Hsrc' & _ & Heq)].
  - rewrite Heq in Ht |- *. by apply (step_same en locale).
  - rewrite Hsrc in Hsrc'. injection Hsrc' as <-.
    rewrite Heq in Hp', Ht, Hfail |- *.
    destruct (translateSection k src locale) eqn:Hr;
      cbn [thrown failed proto] in *; [done | lia |].
    unfold upToDate. cbn [localeData proto]. rewrite Hp'.
    unfold assign in *. destruct (_ && _); [done |]. cbn [fst snd] in *.
    unfold copy. rewrite lookup_insert_eq. cbn [truthy keyCount andb].
    apply Nat.eqb_eq, (faithful _ _ _ _ Hr).
Qed.

Lemma step_failed_le en locale st k : failed st ≤ failed (step en locale st k).
Proof.
  destruct (step_cases translateSection en locale st k) as [-> | (src & _ & _ & _ & ->)];
    [done |].
  destruct (translateSection k src locale); cbn [failed]; lia.
Qed.

Lemma foldl_failed_le en locale l st : failed st ≤ failed (foldl (step en locale) st l).
Proof.
  revert st. induction l as [|k l IH]; intros st; [done |]. cbn [foldl].
  etrans; [apply (step_failed_le en locale st k) | apply IH].
Qed.

Lemma foldl_fresh en locale l st :
  en !! "__proto__" = None → proto st = None →
  thrown (foldl (step en locale) st l) = false →
  failed (foldl (step en locale) st l) = failed st →
  ∀ k, k ∈ l → fresh en (foldl (step en locale) st l) k.
Proof using faithful.
  intros Hen. revert st.
  induction l as [|k l IH]; intros st Hp Ht Hfail k' Hin; [by apply elem_of_nil in Hin |].
  cbn [foldl] in *.
  pose proof (step_failed_le en locale st k) as H1.
  pose proof (foldl_failed_le en locale l (step en locale st k)) as H2.
  pose proof (step_proto_none en locale st k Hen Hp) as Hp'.
  destruct (decide (k' ∈ l)) as [Hl | Hl].
  - apply IH; [done | done | lia | done].
  - apply elem_of_cons in Hin as [-> | Hin]; [| done].
    assert (Hgen : ∀ l' s, proto s = None → fresh en s k →
                     fresh en (foldl (step en locale) s l') k ∧
                     proto (foldl (step en locale) s l') = None).
    { induction l' as [|x l' IH']; intros s Hs Hf; [done |]. cbn [foldl].
      apply IH'; [by apply step_proto_none | by apply step_fresh_stays]. }
    apply Hgen; [done |]. apply step_fresh; [done | done | | lia].
    by apply (foldl_not_thrown translateSection en locale l).
Qed.

Lemma foldl_skip en locale l st :
  thrown st = false → (∀ k, k ∈ l → fresh en st k) → foldl (step en locale) st l = st.
Proof.
  intros Ht. induction l as [|k l IH]; intros Hl; [done |]. cbn [foldl].
  assert (step en locale st k = st) as ->.
  { unfold Translate.step. rewrite Ht. destruct (source en k) as [src|] eqn:Hsrc; [| done].
    by rewrite (Hl k ltac:(apply list_elem_of_here) src Hsrc). }
  apply IH. intros k' Hk'. apply Hl. by apply list_elem_of_further.
Qed.

Lemma read_back (ld : gmap string held) (m : held) :
  sections_only ld → ld !! "_meta" = Some m →
  <["_meta" := m]> (Obj <$> written ld) = ld.
Proof.
  intros Hs Hm. apply map_eq. intros k.
  destruct (decide (k = "_meta")) as [-> | Hne]; [by rewrite lookup_insert_eq |].
  rewrite lookup_insert_ne, lookup_fmap by done. unfold written. rewrite lookup_omap.
  destruct (ld !! k) as [h|] eqn:Hk; [| done].
  by destruct (Hs k h Hk Hne) as [o ->].
Qed.

(** X25. When the translator answers every request with as many keys as
    it was sent, [_meta] is not among the sections, the source has no
    section [__proto__], and a round ends without an exception and
    without a failure, a second round from the locale file as the first
    has left it sends no request, writes nothing and ends with the same
    locale data. *)
Theorem complete_refresh_is_a_fixed_point
    (en : dict) (sections : list string) (locale : string) (file : option dict) :
  "_meta" ∉ sections → en !! "__proto__" = None →
  thrown (translateLocale en sections locale file) = false →
  failed (translateLocale en sections locale file) = 0 →
  let st1 := translateLocale en sections locale file in
  let st2 := translateLocale en sections locale (fileAfter file st1) in
  calls st2 = [] ∧ writes st2 = [] ∧ localeData st2 = localeData st1.
Proof using faithful.
  intros Hmeta Hen Hthrown Hfail st1 st2.
  set (ld0 := <["_meta" := metaOf locale]> (Obj <$> default ∅ file)).
  set (st0 := State ld0 None 0 0 [] [] false).
  assert (Hst1 : st1 = foldl (step en locale) st0 sections) by done.
  assert (Hm : localeData st1 !! "_meta" = Some (metaOf locale)).
  { rewrite Hst1, foldl_step_frame by done. cbn [localeData]. apply lookup_insert_eq. }
  assert (Hp : proto st1 = None).
  { rewrite Hst1. apply (foldl_step_inv translateSection (λ s, proto s = None)); [| done].
    intros s k _. by apply step_proto_none. }
  assert (Hso : sections_only (localeData st1)).
  { rewrite Hst1.
    apply (foldl_step_inv translateSection (λ s, sections_only (localeData s))).
    - intros s k Hk. apply step_sections_only. by intros ->.
    - intros k h. unfold st0. cbn [localeData]. unfold ld0.
      intros Hk Hne. rewrite lookup_insert_ne, lookup_fmap in Hk by done.
      destruct (default ∅ file !! k) as [o|]; [| done]. injection Hk as <-. by eexists. }
  assert (Hfresh : ∀ k, k ∈ sections → fresh en st1 k).
  { rewrite Hst1. by apply foldl_fresh. }
  destruct (round_counted en sections locale file) as (Ha & Hb & Hc).
  rewrite Hthrown in Ha. fold st1 in Ha, Hb, Hc.
  assert (Hskip : foldl (step en locale) (State (localeData st1) None 0 0 [] [] false)
                    sections = State (localeData st1) None 0 0 [] [] false).
  { apply foldl_skip; [done |]. intros k Hk src Hsrc.
    rewrite <- (Hfresh k Hk src Hsrc). apply upToDate_ext; [done | by rewrite Hp]. }
  unfold st2, fileAfter.
  destruct (last (writes st1)) as [w|] eqn:Hlast.
  - assert (w = written (localeData st1)) as ->.
    { assert (writes st1 ≠ []) as Hne by (by intros E; rewrite E in Hlast).
      specialize (Hc Hne). congruence. }
    unfold Translate.translateLocale. cbn [from_option id].
    rewrite (read_back _ _ Hso Hm). by rewrite Hskip.
  - assert (writes st1 = []) as Hw.
    { destruct (writes st1) as [|x l] eqn:E; [done |].
      by rewrite last_cons in Hlast; destruct (last l). }
    assert (calls st1 = []) as Hcalls.
    { rewrite Hw in Hb. cbn in Hb. apply length_zero_iff_nil. lia. }
    fold st1. by rewrite Hcalls, Hw.
Qed.

End Loop.

Lemma german_faithful k src locale r :
  german k src locale = Answer r → size r = keyCount (Held src).
Proof. destruct src; intros [= <-]; [apply map_size_fmap | done]. Qed.

Lemma complete_refresh_witness :
  let st1 := translateLocale german en12 ["home"] "de" None in
  let st2 := translateLocale german en12 ["home"] "de" (fileAfter None st1) in
  calls st2 = [] ∧ writes st2 = [] ∧ localeData st2 = localeData st1.
Proof.
  exact (complete_refresh_is_a_fixed_point german german_faithful en12 ["home"] "de" None
           ltac:(set_solver) ltac:(reflexivity) ltac:(reflexivity) ltac:(reflexivity)).
Defined.

Lemma refresh_writes_witness :
  let st := translateLocale german en12 ["home"] "de" (Some stale) in
  writes st ≠ [] ∧ last (writes st) = Some (written (localeData st)).
Proof.
  intros st.
  assert (Hne : writes st ≠ []) by (vm_compute; discriminate).
  split; [exact Hne |].
  exact (proj2 (proj2 (proj2
           (refresh_writes_after_every_request german en12 ["home"] "de" (Some stale))))
           Hne).
Defined.

Lemma refresh_touches_witness :
  localeData (translateLocale german en12 ["home"] "de" (Some {[ "about" := copy10 ]}))
    !! "about" = Some (Obj copy10).
Proof.
  exact (proj1 (refresh_touches_selected_sections_only german en12 ["home"] "de"
                  (Some {[ "about" := copy10 ]}) "about" ltac:(set_solver))).
Defined.

Lemma main_writes_witness :
  (main german en12 ["home"] None (Some ["de"; "en"; "xx"]) {[ "en" := en12 ]}).1 !! "xx" = None.
Proof.
  exact (proj1 (main_writes_listed_targets_only german en12 ["home"] None
                  (Some ["de"; "en"; "xx"]) {[ "en" := en12 ]} "xx"
                  ltac:(right; reflexivity))).
Defined.

End Refresh.

(** ** The guide generator *)

Module GuideFacts.
Import Re Guide StrFacts ReFacts BuildFacts ScanFacts Rendering Extraction.
Import Build (placeholder, placeholder_re, placeholder_at).
Import Extract (json, JNull, JBool, JNum, JStr, JArr, JObj).

Lemma fill_spec (keys : list string) (parsed : gmap string json) (k : string) :
  fill keys parsed !! k =
  match parsed !! k with
  | Some v => Some v
  | None =>
      if bool_decide (k ∈ keys) && negb (Js.inherited k)
      then Some (JStr (fallback k)) else None
  end.
Proof.
  unfold fill.
  set (missing := List.filter _ keys).
  assert (Hm : ∀ x, x ∈ missing ↔ x ∈ keys ∧ parsed !! x = None ∧ Js.inherited x = false).
  { intros x. unfold missing. rewrite list_elem_of_In, filter_In, <- list_elem_of_In.
    rewrite negb_true_iff, orb_false_iff, bool_decide_eq_false, <- eq_None_not_Some.
    done. }
  assert (Hgo : ∀ l (acc : gmap string json),
            foldl (λ parsed k, <[k := JStr (fallback k)]> parsed) acc l !! k =
            if bool_decide (k ∈ l) then Some (JStr (fallback k)) else acc !! k).
  { induction l as [|x l IH]; intros acc; cbn [foldl].
    - by rewrite bool_decide_eq_false_2 by apply not_elem_of_nil.
    - rewrite IH. destruct (decide (k ∈ l)) as [Hl | Hl].
      + by rewrite !bool_decide_eq_true_2 by set_solver.
      + rewrite (bool_decide_eq_false_2 _ Hl). destruct (decide (k = x)) as [-> | Hx].
        * rewrite lookup_insert_eq. by rewrite bool_decide_eq_true_2 by set_solver.
        * rewrite lookup_insert_ne by done.
          by rewrite bool_decide_eq_false_2 by set_solver. }
  rewrite Hgo. destruct (parsed !! k) as [v|] eqn:Hk.
  - rewrite bool_decide_eq_false_2; [done |]. rewrite Hm. naive_solver.
  - destruct (decide (k ∈ keys)) as [Hin | Hin], (Js.inherited k) eqn:Hi.
    + rewrite bool_decide_eq_false_2; [by rewrite bool_decide_eq_true_2 |].
      rewrite Hm. intros (_ & _ & H). congruence.
    + by rewrite !bool_decide_eq_true_2 by (done || by apply Hm).
    + rewrite !bool_decide_eq_false_2; [done | done |]. rewrite Hm. by intros (? & _).
    + rewrite !bool_decide_eq_false_2; [done | done |]. rewrite Hm. by intros (? & _).
Qed.

Section Service.
Variable JSON_parse : string → option (gmap string json).

(** X27. When the text of the answer parses to an object, the result has
    the entries of that object as they are, and for every key of the
    request that the object neither has nor inherits the text made from
    the key, and nothing else; so it has every key of the request whose
    name no object inherits. When the text does not parse there is no
    result. *)
Theorem generateContent_answers_every_key
    (answer : string) (keys : list string) :
  match JSON_parse (jsonStr answer) with
  | Some parsed =>
      ∃ result, generateContent JSON_parse answer keys = Some result ∧
        (∀ k v, parsed !! k = Some v → result !! k = Some v) ∧
        (∀ k, parsed !! k = None → k ∈ keys → Js.inherited k = false →
              result !! k = Some (JStr (fallback k))) ∧
        (∀ k, parsed !! k = None → k ∉ keys ∨ Js.inherited k = true →
              result !! k = None) ∧
        (∀ k, k ∈ keys → Js.inherited k = false → is_Some (result !! k))
  | None => generateContent JSON_parse answer keys = None
  end.
Proof.
  unfold generateContent.
  destruct (JSON_parse (jsonStr answer)) as [parsed|]; [| done].
  exists (fill keys parsed). split; [done |]. repeat split.
  - intros k v Hk. by rewrite fill_spec, Hk.
  - intros k Hk Hin Hi. by rewrite fill_spec, Hk, bool_decide_eq_true_2, Hi.
  - intros k Hk [Hin | Hi]; rewrite fill_spec, Hk.
    + by rewrite bool_decide_eq_false_2.
    + by rewrite Hi, andb_false_r.
  - intros k Hin Hi. rewrite fill_spec. destruct (parsed !! k); [done |].
    by rewrite bool_decide_eq_true_2, Hi.
Qed.

End Service.

Lemma chunks_from_concat (keys : list string) fuel i :
  length keys ≤ i + fuel → concat (chunks_from fuel i keys) = drop i keys.
Proof.
  revert i. induction fuel as [|fuel IH]; intros i Hf; cbn [chunks_from].
  - by rewrite drop_ge by lia.
  - destruct (i <? length keys) eqn:E.
    + cbn [concat]. rewrite IH by (unfold CHUNK_SIZE; lia).
      rewrite <- drop_drop. apply take_drop.
    + apply Nat.ltb_ge in E. by rewrite drop_ge by lia.
Qed.

Lemma chunks_from_sizes (keys : list string) fuel i :
  Forall (λ c, 0 < length c ≤ CHUNK_SIZE) (chunks_from fuel i keys).
Proof.
  revert i. induction fuel as [|fuel IH]; intros i; cbn [chunks_from]; [constructor |].
  destruct (i <? length keys) eqn:E; [| constructor].
  apply Nat.ltb_lt in E. constructor; [| apply IH].
  rewrite length_take, length_drop. unfold CHUNK_SIZE. lia.
Qed.

(** X29. The chunks of a list of keys are its keys in order, cut into
    pieces of at most 150 keys, none of them empty; up to 150 keys make
    one chunk. *)
Theorem chunks_cut_the_keys (keys : list string) :
  concat (chunks keys) = keys ∧
  Forall (λ c, 0 < length c ≤ CHUNK_SIZE) (chunks keys) ∧
  (length keys ≤ CHUNK_SIZE → keys ≠ [] → chunks keys = [keys]).
Proof.
  unfold chunks. split; [by rewrite chunks_from_concat by lia |].
  split; [apply chunks_from_sizes |].
  intros Hle Hne. destruct keys as [|k keys]; [done |].
  cbn [length chunks_from Nat.ltb Nat.leb drop] in *. rewrite take_ge by done. f_equal.
  destruct (length keys) as [|n] eqn:El; [done |]. cbn [chunks_from].
  replace (0 + CHUNK_SIZE <? _) with false; [done |].
  symmetry. apply Nat.ltb_ge. cbn [length]. rewrite El. lia.
Qed.

Example generateContent_sample :
  generateContent (λ _, Some answered) "{}" ["h1"; "p_1"; "constructor"] =
  Some {[ "h1" := JStr "Sleeping in a Tesla"; "p_1" := JStr "1" ]}.
Proof. by vm_compute. Qed.

Lemma s_length_drop (n : nat) (s : string) :
  String.length (Str.drop n s) = String.length s - n.
Proof. revert n. induction s as [|a s IH]; intros [|n]; cbn; try done. Qed.

Lemma s_drop_drop (n m : nat) (s : string) :
  Str.drop n (Str.drop m s) = Str.drop (m + n) s.
Proof.
  revert m. induction s as [|a s IH]; intros [|m]; cbn; try done.
  by destruct n.
Qed.

Lemma includes_of_drop (p rest s : string) (n : nat) :
  Str.drop n s = p +:+ rest → Str.includes p s = true.
Proof.
  revert n. induction s as [|a s IH]; intros n H.
  - destruct n; cbn in H; destruct p; try done; by rewrite s_app_cons in H.
  - destruct n as [|n].
    + cbn [Str.drop] in H. cbn [Str.includes]. rewrite H, startsWith_app. done.
    + cbn [Str.drop] in H. cbn [Str.includes]. rewrite (IH n H). apply orb_true_r.
Qed.

Lemma search_placeholder s pos f :
  search_from placeholder_re pos s = Some f →
  ∃ n section key rest,
    f = Found (pos + n) (placeholder section key) [(2, key); (1, section)] rest ∧
    placeholder_at (Str.drop n s) = Some (section, key, rest) ∧
    ∀ m, m < n → placeholder_at (Str.drop m s) = None.
Proof.
  revert pos. induction s as [|a s IH]; intros pos; cbn [search_from];
    rewrite match_here_placeholder.
  - destruct (placeholder_at "") as [[[section key] rest]|] eqn:E; [| done].
    intros [= <-]. exists 0, section, key, rest. rewrite Nat.add_0_r.
    repeat split; [done | lia].
  - destruct (placeholder_at (String a s)) as [[[section key] rest]|] eqn:E.
    + intros [= <-]. exists 0, section, key, rest. rewrite Nat.add_0_r.
      repeat split; [done | lia].
    + intros (n & section & key & rest & -> & Hd & Hmin)%IH.
      exists (S n), section, key, rest. split; [f_equal; lia |]. split; [done |].
      intros [|m] Hm; [done |]. apply Hmin. lia.
Qed.

Lemma search_placeholder_none s pos m :
  search_from placeholder_re pos s = None → placeholder_at (Str.drop m s) = None.
Proof.
  revert pos m. induction s as [|a s IH]; intros pos m; cbn [search_from];
    rewrite match_here_placeholder.
  - by destruct m.
  - destruct (placeholder_at (String a s)) as [[[section key] rest]|] eqn:E; [done |].
    intros H. destruct m as [|m]; [done |]. by apply (IH (S pos)).
Qed.

Lemma add_listed (key : string) (l : list string) :
  NoDup l → NoDup (add key l) ∧ add key l ≠ [] ∧
  ∀ k, k ∈ add key l ↔ k = key ∨ k ∈ l.
Proof.
  intros Hn. unfold add. destruct (decide (key ∈ l)) as [Hin | Hin].
  - rewrite bool_decide_eq_true_2 by done. repeat split; [done | | set_solver..].
    intros ->. by apply elem_of_nil in Hin.
  - rewrite bool_decide_eq_false_2 by done. repeat split.
    + apply NoDup_app. repeat split; [done | set_solver | apply NoDup_singleton].
    + by destruct l.
    + set_solver.
    + set_solver.
Qed.

Lemma add_elem (key k : string) (l : list string) : k ∈ add key l ↔ k = key ∨ k ∈ l.
Proof.
  unfold add. destruct (decide (key ∈ l)) as [Hin | Hin].
  - rewrite bool_decide_eq_true_2 by done. set_solver.
  - rewrite bool_decide_eq_false_2 by done. set_solver.
Qed.

Lemma collect_listed html n section key rest pos keys keys' :
  Str.drop n html = placeholder section key +:+ rest →
  collect (Found pos (placeholder section key) [(2, key); (1, section)] rest) keys
    = Some keys' →
  listed html keys → listed html keys'.
Proof.
  intros Hd Hc [Hs Hk]. revert Hc. unfold collect. cbn [f_caps group Nat.eqb].
  destruct (String.eqb section "shared") eqn:E; [by intros [= <-] |].
  destruct (Js.inherited section); [done |]. intros [= <-].
  apply String.eqb_neq in E. split; [by rewrite lookup_insert_ne |].
  intros section' l. destruct (decide (section' = section)) as [-> | Hne].
  - rewrite lookup_insert_eq. intros [= <-].
    assert (Hl : NoDup (default [] (keys !! section)) ∧
                 ∀ k, k ∈ default [] (keys !! section) →
                      Str.includes (placeholder section k) html = true).
    { destruct (keys !! section) as [l0|] eqn:El; cbn.
      - destruct (Hk _ _ El) as (? & _ & ?). done.
      - split; [constructor | by intros k ?%elem_of_nil]. }
    destruct Hl as [Hn Hin]. destruct (add_listed key _ Hn) as (? & ? & Hadd).
    repeat split; try done. intros k [-> | ?]%Hadd; [| by apply Hin].
    by apply (includes_of_drop _ rest _ n).
  - rewrite lookup_insert_ne by done. apply Hk.
Qed.

(** A key that is listed stays listed. *)
Lemma collect_keeps f keys keys' section key :
  collect f keys = Some keys' →
  key ∈ default [] (keys !! section) → key ∈ default [] (keys' !! section).
Proof.
  unfold collect. destruct (String.eqb _ "shared"); [by intros [= <-] |].
  destruct (Js.inherited _); [done |]. intros [= <-] Hin.
  destruct (decide (section = group 1 (f_caps f))) as [-> | Hne].
  - rewrite lookup_insert_eq. cbn. apply add_elem. by right.
  - by rewrite lookup_insert_ne.
Qed.

Lemma placeholder_nonempty section key : 0 < String.length (placeholder section key).
Proof. rewrite BuildFacts.placeholder_length. lia. Qed.

(** A match in front of a placeholder does not reach into it. *)
Lemma match_before (pre Y : string) (j : nat) section key rest :
  j < String.length pre →
  placeholder_at (Str.drop j (pre +:+ "{{" +:+ Y)) = Some (section, key, rest) →
  j + String.length (placeholder section key) ≤ String.length pre.
Proof.
  intros Hj. rewrite s_drop_app_le by lia.
  assert (Str.drop j pre ≠ "") as Hx.
  { intros E. apply (f_equal String.length) in E. rewrite s_length_drop in E.
    cbn in E. lia. }
  rewrite BuildFacts.placeholder_at_ext by done.
  destruct (placeholder_at (Str.drop j pre)) as [[[s0 k0] r0]|] eqn:E; [| done].
  intros [= -> -> _]. apply BuildFacts.placeholder_at_inv in E.
  apply (f_equal String.length) in E. rewrite s_length_drop, s_length_app in E. lia.
Qed.

Lemma occurs_at html pre section key post :
  occurs html pre section key post →
  placeholder_at (Str.drop (String.length pre) html) = Some (section, key, post).
Proof.
  intros (-> & Hs & Hsa & Hk & Hka).
  rewrite s_drop_app. by apply BuildFacts.placeholder_at_here.
Qed.

Local Abbreviation body :=
  (λ (f : found) (line : string) (st : option (gmap string (list string))),
     (line, st ≫= collect f)).

Lemma while_collect html fuel idx st :
  idx ≤ String.length html → String.length html - idx < fuel →
  ∃ out,
    while_exec fuel placeholder_re body idx html st = Some (html, out) ∧
    (st = None → out = None) ∧
    (∀ keys', out = Some keys' →
       ∃ keys, st = Some keys ∧
         (listed html keys → listed html keys') ∧
         (∀ section key, key ∈ default [] (keys !! section) →
                         key ∈ default [] (keys' !! section)) ∧
         (∀ pre section key post,
            occurs html pre section key post → idx ≤ String.length pre →
            section ≠ "shared" →
            Js.inherited section = false ∧ key ∈ default [] (keys' !! section))) ∧
    (out = None →
       st = None ∨
       ∃ pre section key post,
         html = pre +:+ placeholder section key +:+ post ∧ Js.inherited section = true).
Proof.
  revert idx st. induction fuel as [|fuel IH]; intros idx st Hidx Hf; [lia |].
  cbn [while_exec]. unfold exec_from.
  replace (idx <=? String.length html) with true by (symmetry; by apply Nat.leb_le).
  destruct (search_from placeholder_re idx (Str.drop idx html)) as [f|] eqn:E.
  - apply search_placeholder in E as (n & section & key & rest & -> & Hat & Hmin).
    rewrite s_drop_drop in Hat.
    pose proof (BuildFacts.placeholder_at_inv _ _ _ _ Hat) as Hd.
    cbn [f_index f_match].
    pose proof (f_equal String.length Hd) as Hlen.
    rewrite s_length_drop, s_length_app in Hlen.
    pose proof (placeholder_nonempty section key).
    set (f := Found (idx + n) (placeholder section key) [(2, key); (1, section)] rest).
    destruct (IH (idx + n + String.length (placeholder section key)) (st ≫= collect f)
                ltac:(lia) ltac:(lia)) as (out & -> & Hnone & Hsome & Hthrow).
    exists out. split; [done |]. split; [| split].
    + intros ->. by apply Hnone.
    + intros keys' Hout. destruct (Hsome keys' Hout) as (keys1 & Hst & Hl & Hmono & Hcomp).
      destruct st as [keys|]; [| done]. cbn in Hst. exists keys. split; [done |].
      split; [| split].
      * intros Hk. apply Hl. by apply (collect_listed html (idx + n) section key rest (idx + n) keys).
      * intros s0 k0 Hin. apply Hmono. by apply (collect_keeps f keys).
      * intros pre s0 k0 post Hocc Hpre Hsh.
        pose proof (occurs_at _ _ _ _ _ Hocc) as Hhere.
        destruct (Nat.lt_total (String.length pre) (idx + n)) as [Hlt | [Heq | Hgt]].
        { specialize (Hmin (String.length pre - idx) ltac:(lia)).
          rewrite s_drop_drop in Hmin.
          replace (idx + (String.length pre - idx)) with (String.length pre) in Hmin by lia.
          congruence. }
        { rewrite Heq, Hat in Hhere. injection Hhere as -> -> ->.
          revert Hst. unfold collect, f. cbn [f_caps group Nat.eqb].
          apply String.eqb_neq in Hsh. rewrite Hsh.
          destruct (Js.inherited s0); [done |]. intros [= <-]. split; [done |].
          apply Hmono. rewrite lookup_insert_eq. cbn. apply add_elem. by left. }
        { apply (Hcomp pre s0 k0 post); [done | | done].
          destruct Hocc as (Hhtml & _). rewrite Hhtml in Hat.
          unfold placeholder in Hat at 1. rewrite <- !s_app_assoc in Hat.
          change ("{{t." +:+ s0 +:+ "." +:+ k0 +:+ "}}" +:+ post)
            with ("{{" +:+ ("t." +:+ s0 +:+ "." +:+ k0 +:+ "}}" +:+ post)) in Hat.
          apply match_before in Hat; lia. }
    + intros Hout. destruct (Hthrow Hout) as [Hst | Hocc]; [| by right].
      destruct st as [keys|]; [| by left]. right. cbn in Hst.
      exists (Str.take (idx + n) html), section, key, rest. split.
      * rewrite <- Hd. symmetry. apply s_take_drop.
      * revert Hst. unfold collect, f. cbn [f_caps group Nat.eqb].
        destruct (String.eqb section "shared"); [done |].
        by destruct (Js.inherited section).
  - exists st. split; [done |]. split; [done |]. split; [| by left].
    intros keys' ->. exists keys'. split; [done |]. split; [done |]. split; [done |].
    intros pre s0 k0 post Hocc Hpre _. exfalso.
    pose proof (occurs_at _ _ _ _ _ Hocc) as Hhere.
    pose proof (search_placeholder_none _ idx (String.length pre - idx) E) as Hno.
    rewrite s_drop_drop in Hno.
    replace (idx + (String.length pre - idx)) with (String.length pre) in Hno by lia.
    congruence.
Qed.

(** X26. [extractKeys] ends on every template, with the keys or with a
    TypeError. The keys have no section [shared] and list under each
    section, once each, keys whose placeholder stands in the template;
    and every well-formed placeholder of the template whose section is
    not [shared] has its key listed under its section. The TypeError
    comes exactly when the template holds a placeholder whose section
    bears a name that every object inherits. *)
Theorem extractKeys_lists_placeholders_of_the_template (html : string) :
  ∃ r, extractKeys html = Some r ∧
    match r with
    | Keys keys =>
        listed html keys ∧
        ∀ pre section key post,
          occurs html pre section key post → section ≠ "shared" →
          Js.inherited section = false ∧ ∃ l, keys !! section = Some l ∧ key ∈ l
    | TypeError =>
        ∃ pre section key post,
          html = pre +:+ placeholder section key +:+ post ∧ Js.inherited section = true
    end.
Proof.
  unfold extractKeys.
  destruct (while_collect html (S (String.length html)) 0 (Some ∅) ltac:(lia) ltac:(lia))
    as (out & -> & _ & Hsome & Hthrow).
  cbn [fmap option_fmap option_map snd]. destruct out as [keys|].
  - exists (Keys keys). split; [done |].
    destruct (Hsome keys eq_refl) as (k0 & [= <-] & Hl & _ & Hcomp). split.
    + apply Hl. split; [done |]. intros section l H. by rewrite lookup_empty in H.
    + intros pre section key post Hocc Hsh.
      destruct (Hcomp pre section key post Hocc ltac:(lia) Hsh) as [Hi Hin].
      split; [done |]. destruct (keys !! section) as [l|]; [by exists l |].
      by apply elem_of_nil in Hin.
  - exists TypeError. split; [done |]. by destruct (Hthrow eq_refl).
Qed.

Example extractKeys_sample :
  extractKeys "<h1>{{t.guide_dogs.h1}}</h1><p>{{t.guide_dogs.p_1}} {{t.shared.nav_about}} {{t.guide_dogs.h1}}</p>"
    = Some (Keys {[ "guide_dogs" := ["h1"; "p_1"] ]}) ∧
  extractKeys "<h1>{{t.constructor.h1}}</h1>" = Some TypeError.
Proof. by vm_compute. Qed.

Lemma search_from_none r pos s :
  (∀ n pos', match_here r pos' (Str.drop n s) = None) → search_from r pos s = None.
Proof.
  revert pos. induction s as [|a s IH]; intros pos H; cbn [search_from].
  - pose proof (H 0 pos) as H0. cbn [Str.drop] in H0. by rewrite H0.
  - pose proof (H 0 pos) as H0. cbn [Str.drop] in H0. rewrite H0.
    apply IH. intros n pos'. apply (H (S n)).
Qed.

Lemma fence_needs_backtick pos s :
  Str.startsWith "`" s = false → match_here fence_re pos s = None.
Proof.
  intros H. unfold match_here, fence_re. cbn [seqs]. rewrite rmatch_seq, rmatch_lit.
  destruct (Str.startsWith "```" s) eqn:E; [| done].
  by rewrite (startsWith_trans "`" "```" s eq_refl E) in H.
Qed.

(** Greedy repetition of a class in front of a continuation that accepts
    what is left behind the whole run. *)
Lemma star_cls_accepts {A} (p : ascii → bool) (k : kont A) n pos s c x :
  String.length s ≤ n →
  k (pos + String.length (Str.run p s)) (Str.drop (String.length (Str.run p s)) s) c = Some x →
  star_loop true (rmatch (Cls p)) k n pos s c = Some x.
Proof.
  revert pos s. induction n as [|n IH]; intros pos s Hn Hk.
  - destruct s; [| cbn in Hn; lia]. cbn in *. by rewrite Nat.add_0_r in Hk.
  - destruct s as [|a s].
    + cbn in *. by rewrite Nat.add_0_r in Hk.
    + cbn [star_loop]. rewrite rmatch_cls. cbn [Str.run] in Hk. destruct (p a) eqn:Hp.
      * cbn [String.length Str.drop] in *.
        replace (String.length s <? S (String.length s)) with true
          by (symmetry; apply Nat.ltb_lt; lia).
        rewrite (IH (S pos) s); [done | lia |].
        by replace (S pos + String.length (Str.run p s))
          with (pos + S (String.length (Str.run p s))) by lia.
      * cbn in Hk. by rewrite Nat.add_0_r in Hk.
Qed.

(** Lazy repetition of any code unit: the continuation is tried behind
    every prefix in turn, the shortest first. *)
Lemma star_any_first {A} (k : kont A) n pos (x y : string) c r :
  String.length (x +:+ y) ≤ n →
  (∀ i, i < String.length x → k (pos + i) (Str.drop i (x +:+ y)) c = None) →
  k (pos + String.length x) y c = Some r →
  star_loop false (rmatch any) k n pos (x +:+ y) c = Some r.
Proof.
  revert pos x. induction n as [|n IH]; intros pos x Hn Hnone Hk.
  - destruct x; [| rewrite s_app_cons in Hn; cbn in Hn; lia].
    rewrite s_app_nil_l in *. cbn in *. by rewrite Nat.add_0_r in Hk.
  - destruct x as [|a x].
    + rewrite s_app_nil_l in *. cbn [String.length] in Hk. rewrite Nat.add_0_r in Hk.
      destruct y; cbn [star_loop]; by rewrite Hk.
    + rewrite s_app_cons in *. cbn [star_loop].
      pose proof (Hnone 0 ltac:(cbn; lia)) as H0. rewrite Nat.add_0_r in H0.
      cbn [Str.drop] in H0. rewrite H0. unfold any. rewrite rmatch_cls.
      cbn [String.length] in *.
      replace (String.length (x +:+ y) <? S (String.length (x +:+ y))) with true
        by (symmetry; apply Nat.ltb_lt; lia).
      apply IH; [lia | |].
      * intros i Hi. specialize (Hnone (S i) ltac:(lia)). cbn [Str.drop] in Hnone.
        by replace (S pos + i) with (pos + S i) by lia.
      * by replace (S pos + String.length x) with (pos + S (String.length x)) by lia.
Qed.

Lemma rmatch_alt {A} r1 r2 (k : kont A) pos s c :
  rmatch (Alt r1 r2) k pos s c =
  match rmatch r1 k pos s c with Some x => Some x | None => rmatch r2 k pos s c end.
Proof. reflexivity. Qed.

Lemma rmatch_eps {A} (k : kont A) pos s c : rmatch Eps k pos s c = k pos s c.
Proof. reflexivity. Qed.

(** The end of the fence: an optional line feed and three backticks. *)
Lemma fence_end_fails {A} (k : kont A) pos d rest c :
  Ascii.eqb "`" d = false → Str.startsWith "`" rest = false →
  rmatch (Seq (opt (Chr "010")) (lit "```")) k pos (String d rest) c = None.
Proof.
  intros Hd Hrest. unfold opt. rewrite rmatch_seq, rmatch_alt, rmatch_chr, rmatch_eps.
  assert (rmatch (lit "```") k pos (String d rest) c = None) as ->.
  { rewrite rmatch_lit. cbn [Str.startsWith]. by rewrite Hd. }
  destruct (Ascii.eqb "010" d); [| done].
  rewrite rmatch_lit. destruct (Str.startsWith "```" rest) eqn:E; [| done].
  by rewrite (startsWith_trans "`" "```" rest eq_refl E) in Hrest.
Qed.

Lemma no_backtick_inside (body y : string) (i : nat) :
  Str.includes "`" body = false → Str.startsWith "`" y = false →
  i < String.length body →
  ∃ d rest, Str.drop i (body +:+ y) = String d rest ∧
            Ascii.eqb "`" d = false ∧ Str.startsWith "`" rest = false.
Proof.
  revert i. induction body as [|a body IH]; intros i Hb Hy Hi; [cbn in Hi; lia |].
  cbn [Str.includes Str.startsWith] in Hb. rewrite andb_true_r in Hb.
  apply orb_false_iff in Hb as [Ha Hb]. rewrite s_app_cons.
  destruct i as [|i].
  - exists a, (body +:+ y). repeat split; [done |].
    destruct body as [|b body]; [by rewrite s_app_nil_l |].
    rewrite s_app_cons. cbn [Str.includes Str.startsWith] in *.
    rewrite andb_true_r in *. by apply orb_false_iff in Hb as [-> _].
  - cbn [Str.drop]. apply IH; [done | done | cbn in Hi; lia].
Qed.

Lemma trimEnd_snoc (a : ascii) (s : string) :
  Str.is_space a = false → Str.trimEnd (s +:+ String a "") = s +:+ String a "".
Proof.
  intros Ha. unfold Str.trimEnd. rewrite s_rev_snoc. cbn [Str.trimStart]. rewrite Ha.
  by rewrite s_rev_cons, s_rev_involutive.
Qed.

Lemma fence_match (c : ascii) (b0 : string) :
  Str.is_space c = false → Str.includes "`" (String c b0) = false →
  ∃ f, match_here fence_re 0
         ("```json" +:+ Str.nl +:+ String c b0 +:+ Str.nl +:+ "```") = Some f ∧
       group 1 (f_caps f) = String c b0.
Proof.
  intros Hc Hb. unfold match_here, fence_re. cbn [seqs].
  rewrite rmatch_seq, rmatch_lit.
  change ("```json" +:+ Str.nl +:+ String c b0 +:+ Str.nl +:+ "```")
    with ("```" +:+ "json" +:+ Str.nl +:+ String c b0 +:+ Str.nl +:+ "```").
  rewrite startsWith_app, s_drop_app.
  unfold opt at 1. rewrite rmatch_seq, rmatch_alt, rmatch_lit, startsWith_app, s_drop_app.
  set (y := Str.nl +:+ "```").
  assert (Hrun : Str.run Str.is_space (Str.nl +:+ String c b0 +:+ y) = Str.nl).
  { unfold Str.nl. rewrite s_app_cons, s_app_nil_l, s_app_cons.
    cbn [Str.run]. change (Str.is_space "010") with true. cbn match. by rewrite Hc. }
  match goal with |- context [rmatch (Seq (star space) ?R) ?k ?p ?s ?cs] =>
    assert (∃ f, rmatch (Seq (star space) R) k p s cs = Some f ∧
                 group 1 (f_caps f) = String c b0)
      as (f & -> & Hf); [| by exists f]
  end.
  rewrite rmatch_seq. unfold star, space. rewrite rmatch_star.
  match goal with |- context [star_loop true _ ?k ?n ?p ?s ?cs] =>
    assert (∃ f, k (p + String.length (Str.run Str.is_space s))
                   (Str.drop (String.length (Str.run Str.is_space s)) s) cs = Some f ∧
                 group 1 (f_caps f) = String c b0) as (f & Hk & Hf);
      [| exists f; split; [apply star_cls_accepts; [lia | exact Hk] | exact Hf]]
  end.
  rewrite Hrun, s_drop_app.
  unfold opt at 1. rewrite rmatch_seq, rmatch_alt, rmatch_eps.
  assert (Ascii.eqb "010" c = false) as Hnl.
  { destruct (Ascii.eqb_spec "010"%char c) as [<- | ?]; [done | done]. }
  match goal with |- context [rmatch (Chr "010") ?k ?p (String c b0 +:+ y) ?cs] =>
    assert (rmatch (Chr "010") k p (String c b0 +:+ y) cs = None) as ->
      by (by rewrite rmatch_chr, s_app_cons, Hnl)
  end.
  rewrite rmatch_seq, rmatch_grp. unfold star_lazy. rewrite rmatch_star.
  eexists. split.
  - apply star_any_first; [lia | |].
    + intros i Hi.
      destruct (no_backtick_inside (String c b0) y i Hb eq_refl Hi)
        as (d & rest & -> & Hd & Hrest).
      by apply fence_end_fails.
    + unfold opt, y, Str.nl. rewrite rmatch_seq, rmatch_alt, rmatch_chr.
      rewrite s_app_cons, s_app_nil_l. cbn [Ascii.eqb Bool.eqb].
      rewrite rmatch_lit. cbn [Str.startsWith Ascii.eqb Bool.eqb andb]. reflexivity.
  - cbn [f_caps group Nat.eqb].
    replace (_ - _) with (String.length (String c b0)) by lia. apply s_take_app.
Qed.

Section Service.
Variable JSON_parse : string → option (gmap string json).

Lemma includes_char_rev (h : ascii) (x : string) :
  Str.includes (String h "") x = false →
  Str.includes (String h "") (String.rev x) = false.
Proof.
  induction x as [|b x IHx]; [done |]. cbn [Str.includes Str.startsWith].
  rewrite andb_true_r. intros [Hb Hx]%orb_false_iff. rewrite s_rev_cons.
  apply includes_app_false; [by apply IHx |]. cbn. by rewrite andb_true_r, Hb.
Qed.

Lemma includes_char_trim (h : ascii) (x : string) :
  Str.includes (String h "") x = false →
  Str.includes (String h "") (Str.trim x) = false.
Proof.
  assert (Hts : ∀ s, Str.includes (String h "") s = false →
                     Str.includes (String h "") (Str.trimStart s) = false).
  { induction s as [|a s IH]; [done |]. intros H. cbn [Str.trimStart].
    destruct (Str.is_space a); [| done]. apply IH.
    cbn [Str.includes] in H. by apply orb_false_iff in H as [_ ?]. }
  intros H. unfold Str.trim, Str.trimEnd.
  by apply includes_char_rev, Hts, includes_char_rev, Hts.
Qed.

(** X28. An answer that holds no backtick and starts with a character
    other than white space is parsed as the same text, without the white
    space at its end, whether it comes inside a Markdown fence marked
    [json] or without a fence. *)
Theorem generateContent_unwraps_a_fenced_answer
    (c : ascii) (b0 : string) (keys : list string) :
  Str.is_space c = false → Str.includes "`" (String c b0) = false →
  generateContent JSON_parse ("```json" +:+ Str.nl +:+ String c b0 +:+ Str.nl +:+ "```") keys =
    fill keys <$> JSON_parse (Str.trim (String c b0)) ∧
  generateContent JSON_parse (String c b0) keys =
    fill keys <$> JSON_parse (Str.trim (String c b0)).
Proof.
  intros Hc Hb. split.
  - unfold generateContent, jsonStr. cbv zeta.
    assert (Str.trim ("```json" +:+ Str.nl +:+ String c b0 +:+ Str.nl +:+ "```") =
            "```json" +:+ Str.nl +:+ String c b0 +:+ Str.nl +:+ "```") as ->.
    { change ("```json" +:+ Str.nl +:+ String c b0 +:+ Str.nl +:+ "```")
        with (String "`" ("``json" +:+ Str.nl +:+ String c b0 +:+ Str.nl +:+ "``" +:+ "`")).
      rewrite trim_cons by done. f_equal.
      rewrite !s_app_assoc. by apply trimEnd_snoc. }
    destruct (fence_match c b0 Hc Hb) as (f & Hf & Hg).
    unfold exec.
    change ("```json" +:+ Str.nl +:+ String c b0 +:+ Str.nl +:+ "```")
      with (String "`" ("``json" +:+ Str.nl +:+ String c b0 +:+ Str.nl +:+ "```")) in *.
    cbn [search_from]. by rewrite Hf, Hg.
  - unfold generateContent, jsonStr. cbv zeta. unfold exec.
    rewrite search_from_none; [done |].
    intros n pos'. apply fence_needs_backtick, includes_startsWith, includes_drop.
    by apply includes_char_trim.
Qed.

End Service.

Lemma fenced_answer_witness :
  generateContent (λ _, Some ∅) ("```json" +:+ Str.nl +:+ "{}" +:+ Str.nl +:+ "```") ["h1"] =
    fill ["h1"] <$> Some ∅ ∧
  generateContent (λ _, Some ∅) "{}" ["h1"] = fill ["h1"] <$> Some ∅.
Proof.
  exact (generateContent_unwraps_a_fenced_answer (λ _, Some ∅) "{" "}" ["h1"]
           ltac:(reflexivity) ltac:(reflexivity)).
Defined.

End GuideFacts.
